(** * usbredirserver: the event loop, the wait-mode reconnection block,
      the transport callbacks and the command line of
      [usbredirserver/usbredirserver.c], embedded in Rocq.

    The program is a single-threaded C event loop around three outside
    collaborators: the operating system (sockets, [select], signals), libusb
    and the redirection host ([usbredirhost_*]).  The embedding keeps the
    program's global variables in a record, threads it through a small
    state-and-exit monad, and takes every answer of a collaborator from a
    [World]: a family of functions from the number of the outside call to the
    answer given at that call.  Every outside call is appended to a trace, so
    that statements about the order of calls are statements about a list.

    Loops that the C code runs without a bound take a fuel argument; running
    out of fuel is the distinct outcome [Fuel], never a normal return.

    Diagnostic output through [va_log] (the [INFO] and [DEBUG] macros) is
    filtered by [verbose] and is left out of the traces; what it writes is
    modelled on its own, with the further definitions.  It touches no
    variable of the program, but its [fprintf] may leave another value in
    [errno]: the two transport callbacks log between their system call and
    their tests of [errno], and there the embedding keeps that effect
    ([debug_line]); nowhere else is [errno] read after a log line.  Output of
    [main] to stdout and stderr is kept; both streams are taken to have a
    reader.

    Signals.  The handled signals (SIGINT, SIGHUP, SIGTERM, SIGQUIT) run
    [quit_handler], which only clears [running].  The program reads
    [running] in the tests of its two outer loops and nowhere else, and
    between two outside calls it reads it at most once; so a signal that
    arrives between two calls is the same to the program as one that arrives
    during the call before it (when the test comes after the arrival) or
    during the call after it (when the test came first).  The world therefore
    gives the arrivals by call: [w_signal k] stands for an arrival during
    call [k], or after the last test of [running] that leads to call [k].
    SIGPIPE, which the program neither handles nor ignores, is raised by its
    own [write] on a connection the peer has closed and ends the process
    (outcome [Killed]) unless the process inherited it ignored or blocked.
    Death by a signal sent from outside that the program does not handle is
    not part of the embedding. *)

From Stdlib Require Import ZArith List String Ascii Bool Lia.
From stdpp Require Import base gmap.
Import ListNotations.
Local Open Scope Z_scope.

(** ** Machine integers and libc constants *)

Definition LONG_MAX : Z := 9223372036854775807.
Definition LONG_MIN : Z := -9223372036854775808.

(** Conversion of a [long] to [int] on assignment (two's-complement wrap). *)
Definition to_int (z : Z) : Z := (z + 2147483648) mod 4294967296 - 2147483648.

(** Conversion of an [int] to [unsigned int], as for the argument of
    [sleep]. *)
Definition to_unsigned (z : Z) : Z := z mod 4294967296.

(** Conversion of an [int] to [uint16_t], as for the arguments of
    [libusb_open_device_with_vid_pid]. *)
Definition to_uint16 (z : Z) : Z := z mod 65536.

(** [signal.h] and [sys/select.h] of Linux. *)
Definition SIGPIPE : Z := 13.
Definition FD_SETSIZE : Z := 1024.

(** [errno] values of Linux [errno.h]. *)
Definition EINTR : Z := 4.
Definition EAGAIN : Z := 11.
Definition EPIPE : Z := 32.
Definition ECONNRESET : Z := 104.

(** [poll.h] event bits. *)
Definition POLLIN : Z := 1.
Definition POLLOUT : Z := 4.

(** [usbredirparser.h], which is not among the sources at hand: the default
    log level, the level of [DEBUG] and the open flag used on reconnection. *)
Definition usbredirparser_info : Z := 3.
Definition usbredirparser_debug : Z := 4.
Definition usbredirparser_fl_no_hello : Z := 4.

(** ** C strings: [strchr] and [strtol] *)

Definition NUL : ascii := "000"%char.

Definition code (c : ascii) : Z := Z.of_N (N_of_ascii c).

(** [*p] for a pointer into a NUL-terminated string: the suffix stands for the
    pointer, the empty suffix for the terminator. *)
Definition deref (p : string) : ascii :=
  match p with
  | String c _ => c
  | EmptyString => NUL
  end.

(** [p + 1] *)
Definition next (p : string) : string :=
  match p with
  | String _ r => r
  | EmptyString => EmptyString
  end.

(** [strchr(s, c)] for [c <> 0]: the suffix at the first occurrence, or NULL. *)
Fixpoint strchr (s : string) (c : ascii) : option string :=
  match s with
  | EmptyString => None
  | String a r => if Ascii.eqb a c then Some s else strchr r c
  end.

Definition isspace (c : ascii) : bool :=
  let n := code c in (n =? 32) || ((9 <=? n) && (n <=? 13)).

Definition digit_of (c : ascii) : option Z :=
  let n := code c in
  if (48 <=? n) && (n <=? 57) then Some (n - 48)
  else if (97 <=? n) && (n <=? 122) then Some (n - 87)
  else if (65 <=? n) && (n <=? 90) then Some (n - 55)
  else None.

Definition digit_in (base : Z) (c : ascii) : option Z :=
  match digit_of c with
  | Some d => if d <? base then Some d else None
  | None => None
  end.

Fixpoint skip_spaces (s : string) : string :=
  match s with
  | String c r => if isspace c then skip_spaces r else s
  | EmptyString => s
  end.

(** The digit loop of [strtol]: the accumulated value, whether any digit was
    consumed, and the unconsumed suffix. *)
Fixpoint strtol_digits (base : Z) (s : string) (acc : Z) (any : bool)
  : Z * bool * string :=
  match s with
  | String c r =>
      match digit_in base c with
      | Some d => strtol_digits base r (acc * base + d) true
      | None => (acc, any, s)
      end
  | EmptyString => (acc, any, s)
  end.

Definition strtol_sign (s : string) : bool * string :=
  match s with
  | String c r =>
      if Ascii.eqb c "-"%char then (true, r)
      else if Ascii.eqb c "+"%char then (false, r)
      else (false, s)
  | EmptyString => (false, s)
  end.

(** An optional "0x" or "0X" is skipped in base 16 when a hex digit follows. *)
Definition strtol_prefix (base : Z) (s : string) : string :=
  match s with
  | String z (String x (String h r)) =>
      if (base =? 16) && Ascii.eqb z "0"%char
         && (Ascii.eqb x "x"%char || Ascii.eqb x "X"%char)
         && (match digit_in 16 h with Some _ => true | None => false end)
      then String h r else s
  | _ => s
  end.

(** [strtol(nptr, &endptr, base)] in the C locale with a 64-bit [long]:
    the value and [endptr].  With no digits the value is 0 and [endptr] is
    [nptr]; out-of-range values saturate. *)
Definition strtol (nptr : string) (base : Z) : Z * string :=
  let '(neg, s2) := strtol_sign (skip_spaces nptr) in
  let '(acc, any, rest) := strtol_digits base (strtol_prefix base s2) 0 false in
  if any
  then ((if neg then Z.max (- acc) LONG_MIN else Z.min acc LONG_MAX), rest)
  else (0, nptr).

(** ** Events: the outside calls of the program, in program order *)

(** Where a [close(client_fd)] is written in the source. *)
Inductive CloseSite :=
| InReadCallback    (* usbredirserver_read, peer closed *)
| InWriteCallback   (* usbredirserver_write, EPIPE *)
| AtLoopExit        (* run_main_loop, after the loop *)
| DeviceAbsent.     (* main, no device and no wait-mode *)

Inductive Stream := Stdout | Stderr.

(** The format strings of [main] with their arguments. *)
Inductive Message :=
| MsgUsage (argv0 : string)
| MsgInvalidValue (option value : string)
| MsgInvalidId (id : string)
| MsgMissingId
| MsgExcessArgs
| MsgNoLibusb
| MsgPerror (what : string)
| MsgBind (port : Z).

(** An entry of [libusb_get_device_list] with its bus number and address. *)
Record Device := mkDevice { dev_id : Z; dev_bus : Z; dev_addr : Z }.

(** The [timeout] argument of [select]: NULL, the deadline libusb asked for,
    or [wait_timeout] seconds. *)
Inductive SelectTimeout :=
| Forever
| LibusbDeadline
| WaitTimeout (seconds : Z).

Inductive Event :=
| EvPrint (to : Stream) (m : Message)
| EvRead (fd : Z)
| EvWrite (fd : Z)
| EvClose (site : CloseSite) (fd : Z)
| EvHasDataToWrite (h : Z)
| EvGetPollfds (c : Z)
| EvGetNextTimeout (c : Z)
| EvSelect (nfds : Z) (timeout : SelectTimeout)
| EvHandleEvents (c : Z)
| EvPumpIn (h : Z)
| EvPumpOut (h : Z)
| EvIsDisconnected (h : Z)
| EvGetConfiguration (dev : Z)
| EvDisconnect (h : Z)
| EvSleep (seconds : Z)
| EvLibusbExit (c : Z)
| EvLibusbInit (rc : Z)
| EvSetDebug (c level : Z)
| EvOpenVidPid (vendor product : Z)
| EvGetDeviceList (c : Z)
| EvOpenDevice (dev : Device) (rc : Z)
| EvFreeDeviceList
| EvSaveCaps (h : Z)
| EvHostOpen (dev flags h : Z)
| EvRestoreCaps (h : Z) (caps : list Z)
| EvHostClose (h : Z)
| EvSigaction
| EvSocket (fd : Z)
| EvSetsockopt (rc : Z)
| EvBind (port rc : Z)
| EvListen (rc : Z)
| EvAccept (fd : Z)
| EvFcntl (rc : Z)
| EvCloseServer (fd : Z).

(** ** Program state *)

(** The file-scope variables of usbredirserver.c, then [wait_mode_state] (the
    one local of [run_main_loop] that lives across iterations), then what the
    embedding adds: the capability vector of each redirection-host instance,
    the number of outside calls made and their trace. *)
Record State := mkState {
  verbose : Z;
  client_fd : Z;
  running : Z;
  wait_mode : Z;
  wait_timeout : Z;
  ctx : Z;
  host : Z;
  usbvendor : Z;
  usbproduct : Z;
  usbbus : Z;
  usbaddr : Z;
  handle : Z;
  wait_mode_state : Z;
  host_caps : gmap Z (list Z);
  calls : nat;
  trace : list Event
}.

Definition set_verbose (v : Z) (s : State) : State :=
  mkState v (client_fd s) (running s) (wait_mode s) (wait_timeout s)
    (ctx s) (host s) (usbvendor s) (usbproduct s) (usbbus s) (usbaddr s)
    (handle s) (wait_mode_state s) (host_caps s) (calls s) (trace s).

Definition set_client_fd (v : Z) (s : State) : State :=
  mkState (verbose s) v (running s) (wait_mode s) (wait_timeout s) (ctx s)
    (host s) (usbvendor s) (usbproduct s) (usbbus s) (usbaddr s) (handle s)
    (wait_mode_state s) (host_caps s) (calls s) (trace s).

Definition set_running (v : Z) (s : State) : State :=
  mkState (verbose s) (client_fd s) v (wait_mode s) (wait_timeout s)
    (ctx s) (host s) (usbvendor s) (usbproduct s) (usbbus s) (usbaddr s)
    (handle s) (wait_mode_state s) (host_caps s) (calls s) (trace s).

Definition set_wait_mode (v : Z) (s : State) : State :=
  mkState (verbose s) (client_fd s) (running s) v (wait_timeout s) (ctx s)
    (host s) (usbvendor s) (usbproduct s) (usbbus s) (usbaddr s) (handle s)
    (wait_mode_state s) (host_caps s) (calls s) (trace s).

Definition set_wait_timeout (v : Z) (s : State) : State :=
  mkState (verbose s) (client_fd s) (running s) (wait_mode s) v (ctx s)
    (host s) (usbvendor s) (usbproduct s) (usbbus s) (usbaddr s) (handle s)
    (wait_mode_state s) (host_caps s) (calls s) (trace s).

Definition set_ctx (v : Z) (s : State) : State :=
  mkState (verbose s) (client_fd s) (running s) (wait_mode s)
    (wait_timeout s) v (host s) (usbvendor s) (usbproduct s) (usbbus s)
    (usbaddr s) (handle s) (wait_mode_state s) (host_caps s) (calls s)
    (trace s).

Definition set_host (v : Z) (s : State) : State :=
  mkState (verbose s) (client_fd s) (running s) (wait_mode s)
    (wait_timeout s) (ctx s) v (usbvendor s) (usbproduct s) (usbbus s)
    (usbaddr s) (handle s) (wait_mode_state s) (host_caps s) (calls s)
    (trace s).

Definition set_usbvendor (v : Z) (s : State) : State :=
  mkState (verbose s) (client_fd s) (running s) (wait_mode s)
    (wait_timeout s) (ctx s) (host s) v (usbproduct s) (usbbus s)
    (usbaddr s) (handle s) (wait_mode_state s) (host_caps s) (calls s)
    (trace s).

Definition set_usbproduct (v : Z) (s : State) : State :=
  mkState (verbose s) (client_fd s) (running s) (wait_mode s)
    (wait_timeout s) (ctx s) (host s) (usbvendor s) v (usbbus s)
    (usbaddr s) (handle s) (wait_mode_state s) (host_caps s) (calls s)
    (trace s).

Definition set_usbbus (v : Z) (s : State) : State :=
  mkState (verbose s) (client_fd s) (running s) (wait_mode s)
    (wait_timeout s) (ctx s) (host s) (usbvendor s) (usbproduct s) v
    (usbaddr s) (handle s) (wait_mode_state s) (host_caps s) (calls s)
    (trace s).

Definition set_usbaddr (v : Z) (s : State) : State :=
  mkState (verbose s) (client_fd s) (running s) (wait_mode s)
    (wait_timeout s) (ctx s) (host s) (usbvendor s) (usbproduct s)
    (usbbus s) v (handle s) (wait_mode_state s) (host_caps s) (calls s)
    (trace s).

Definition set_handle (v : Z) (s : State) : State :=
  mkState (verbose s) (client_fd s) (running s) (wait_mode s)
    (wait_timeout s) (ctx s) (host s) (usbvendor s) (usbproduct s)
    (usbbus s) (usbaddr s) v (wait_mode_state s) (host_caps s) (calls s)
    (trace s).

Definition set_wait_mode_state (v : Z) (s : State) : State :=
  mkState (verbose s) (client_fd s) (running s) (wait_mode s)
    (wait_timeout s) (ctx s) (host s) (usbvendor s) (usbproduct s)
    (usbbus s) (usbaddr s) (handle s) v (host_caps s) (calls s) (trace s).

Definition set_host_caps (v : gmap Z (list Z)) (s : State) : State :=
  mkState (verbose s) (client_fd s) (running s) (wait_mode s)
    (wait_timeout s) (ctx s) (host s) (usbvendor s) (usbproduct s)
    (usbbus s) (usbaddr s) (handle s) (wait_mode_state s) v (calls s)
    (trace s).

Definition set_calls (v : nat) (s : State) : State :=
  mkState (verbose s) (client_fd s) (running s) (wait_mode s)
    (wait_timeout s) (ctx s) (host s) (usbvendor s) (usbproduct s)
    (usbbus s) (usbaddr s) (handle s) (wait_mode_state s) (host_caps s) v
    (trace s).

Definition set_trace (v : list Event) (s : State) : State :=
  mkState (verbose s) (client_fd s) (running s) (wait_mode s)
    (wait_timeout s) (ctx s) (host s) (usbvendor s) (usbproduct s)
    (usbbus s) (usbaddr s) (handle s) (wait_mode_state s) (host_caps s)
    (calls s) v.

(** ** The outside world *)

(** One callback invocation made by the redirection host during a pump. *)
Inductive CbCall := CallRead | CallWrite.

(** What a call of [usbredirhost_read_guest_data] or
    [usbredirhost_write_guest_data] does, seen from the server: it invokes the
    read and write callbacks some number of times, it may learn the peer's
    capabilities from a hello packet, and it returns a status. *)
Record PumpAnswer := mkPump {
  pa_callbacks : list CbCall;
  pa_hello : option (list Z);
  pa_result : Z
}.

Inductive SelectAnswer :=
| SelectError (errno : Z)
| SelectReady (readable writable : gset Z).

(** An entry of [libusb_get_pollfds]. *)
Record pollfd := mkPollfd { pfd_fd : Z; pfd_events : Z }.

(** The answers of the outside world, by the number of the call.  [w_signal k]
    tells whether one of the signals handled by [quit_handler] is delivered
    while call [k] is in progress, or on the way to it after the last test of
    [running].  [w_log_errno k] is what a log line written before call [k]
    leaves in [errno], [None] when it leaves [errno] alone.
    [w_sigpipe_fatal] tells whether SIGPIPE has its default action in this
    process; the program never changes what it inherited. *)
Record World := mkWorld {
  w_signal : nat -> bool;
  w_io : nat -> Z * Z;                 (* read/write: result and errno *)
  w_has_data_to_write : nat -> Z;
  w_pollfds : nat -> list pollfd;      (* NULL is the empty list *)
  w_next_timeout : nat -> Z;
  w_select : nat -> SelectAnswer;
  w_pump : nat -> PumpAnswer;
  w_is_disconnected : nat -> Z;
  w_get_configuration : nat -> Z;
  w_libusb_init : nat -> Z * Z;        (* status and the new context *)
  w_open_vid_pid : nat -> Z;           (* handle, 0 for NULL *)
  w_device_list : nat -> list Device;  (* a negative count is the empty list *)
  w_libusb_open : nat -> Z * Z;        (* status and the handle *)
  w_host_open : nat -> Z;              (* instance, 0 for NULL *)
  w_socket : nat -> Z;
  w_status : nat -> Z;                 (* setsockopt, bind, listen, fcntl *)
  w_accept : nat -> Z * Z;             (* descriptor and errno *)
  w_log_errno : nat -> option Z;
  w_sigpipe_fatal : bool
}.

(** ** The monad: state, [exit], death by a signal, and the jumps [break]
       and [continue] *)

Inductive Outcome (A : Type) :=
| Normal (a : A) (s : State)
| Break (s : State)
| Continue (s : State)
| Exit (status : Z) (s : State)
| Killed (signal : Z) (s : State)
| Fuel (s : State).

Arguments Normal {A} a s.
Arguments Break {A} s.
Arguments Continue {A} s.
Arguments Exit {A} status s.
Arguments Killed {A} signal s.
Arguments Fuel {A} s.

Definition M (A : Type) : Type := State -> Outcome A.

Definition ret {A} (a : A) : M A := fun s => Normal a s.

Definition bind {A B} (m : M A) (k : A -> M B) : M B :=
  fun s =>
    match m s with
    | Normal a s' => k a s'
    | Break s' => Break s'
    | Continue s' => Continue s'
    | Exit c s' => Exit c s'
    | Killed sig s' => Killed sig s'
    | Fuel s' => Fuel s'
    end.

Declare Scope prog_scope.
Delimit Scope prog_scope with prog.
Notation "x <- m ;; k" := (bind m (fun x => k))
  (at level 100, m at next level, right associativity) : prog_scope.
Notation "m ;; k" := (bind m (fun _ => k))
  (at level 100, right associativity) : prog_scope.
Local Open Scope prog_scope.

Definition gets {A} (f : State -> A) : M A := fun s => Normal (f s) s.
Definition modify (f : State -> State) : M unit := fun s => Normal tt (f s).
Definition break_ {A} : M A := fun s => Break s.
Definition continue_ {A} : M A := fun s => Continue s.
Definition exit {A} (status : Z) : M A := fun s => Exit status s.
Definition kill {A} (signal : Z) : M A := fun s => Killed signal s.
Definition when (b : bool) (m : M unit) : M unit := if b then m else ret tt.

(** The state an outcome ends in. *)
Definition final {A} (o : Outcome A) : State :=
  match o with
  | Normal _ s | Break s | Continue s | Exit _ s | Killed _ s | Fuel s => s
  end.

(** [while (cond) body]: [body] may leave through [break] or [continue]. *)
Fixpoint while (fuel : nat) (cond : State -> bool) (body : M unit) : M unit :=
  fun s =>
    if cond s then
      match fuel with
      | O => Fuel s
      | S fuel' =>
          match body s with
          | Normal _ s' | Continue s' => while fuel' cond body s'
          | Break s' => Normal tt s'
          | Exit c s' => Exit c s'
          | Killed sig s' => Killed sig s'
          | Fuel s' => Fuel s'
          end
      end
    else Normal tt s.

(** [quit_handler]: [running = 0]. *)
Definition quit_handler (s : State) : State := set_running 0 s.

(** The flag after a call: a signal that arrived meanwhile has run
    [quit_handler]; without one nothing changes. *)
Definition running_after (signalled : bool) (flag : Z) : Z :=
  if signalled then 0 else flag.

Definition deliver (signalled : bool) (s : State) : State :=
  set_running (running_after signalled (running s)) s.

Arguments running_after : simpl never.

(** C truth value of an [int]. *)
Definition truthy (z : Z) : bool := negb (z =? 0).

Section Program.

Variable w : World.

(** An outside call: it takes the answer the world gives at this call, records
    the event, and lets a signal that the world counts with this call run
    [quit_handler]. *)
Definition call {A} (answer : World -> nat -> A) (ev : A -> Event) : M A :=
  fun s =>
    let k := calls s in
    let a := answer w k in
    Normal a (deliver (w_signal w k)
                (set_trace (trace s ++ [ev a]) (set_calls (S k) s))).

Definition nothing (_ : World) (_ : nat) : unit := tt.

Definition print (to : Stream) (m : Message) : M unit :=
  call nothing (fun _ => EvPrint to m).

(** [unsigned int sleep(unsigned int seconds)]: the [int] the program passes
    is converted; the event records what the call receives. *)
Definition sleep (seconds : Z) : M unit :=
  call nothing (fun _ => EvSleep (to_unsigned seconds)).

Definition close (site : CloseSite) (fd : Z) : M unit :=
  call nothing (fun _ => EvClose site fd).

(** ** The transport callbacks (source lines 97-132) *)

(** The [DEBUG(...)] line of a callback (lines 102 and 120), which stands
    between the system call and the tests of [errno]: its arguments are
    evaluated first, and when [verbose] lets the line through [fprintf] runs
    and may change [errno].  The result is the [errno] the tests see. *)
Definition debug_line (errno : Z) : M Z :=
  v <- gets verbose ;;
  if usbredirparser_debug <=? v
  then k <- gets calls ;; ret (default errno (w_log_errno w k))
  else ret errno.

Definition usbredirserver_read : M Z :=
  fd <- gets client_fd ;;
  io <- call w_io (fun _ => EvRead fd) ;;
  let '(r, errno) := io in
  errno <- debug_line errno ;;
  if r <? 0 then
    if errno =? EAGAIN then ret 0 else ret (-1)
  else
    when (r =? 0)
      (fd <- gets client_fd ;;
       close InReadCallback fd ;;
       modify (set_client_fd (-1))) ;;
    ret r.

(** [write] on a connection the peer has closed fails with EPIPE and raises
    SIGPIPE in the writer; with the default action the process ends inside
    [write].  A descriptor that is not open (-1) is no such connection. *)
Definition raises_sigpipe (fd r errno : Z) : bool :=
  (r <? 0) && (errno =? EPIPE) && (0 <=? fd).

Definition usbredirserver_write : M Z :=
  fd <- gets client_fd ;;
  io <- call w_io (fun _ => EvWrite fd) ;;
  let '(r, errno) := io in
  when (raises_sigpipe fd r errno && w_sigpipe_fatal w) (kill SIGPIPE) ;;
  errno <- debug_line errno ;;
  if r <? 0 then
    if errno =? EAGAIN then ret 0
    else if errno =? EPIPE then
      fd <- gets client_fd ;;
      close InWriteCallback fd ;;
      modify (set_client_fd (-1)) ;;
      ret 0
    else ret (-1)
  else ret r.

(** ** The redirection host, as far as the server sees it *)

Fixpoint run_callbacks (cs : list CbCall) : M unit :=
  match cs with
  | [] => ret tt
  | CallRead :: cs' => usbredirserver_read ;; run_callbacks cs'
  | CallWrite :: cs' => usbredirserver_write ;; run_callbacks cs'
  end.

(** Modelled from the spec: the capability vector of a redirection-host
    instance ([usbredirhost.c] is not part of the sources at hand).  The spec
    calls it an opaque fixed-size vector of negotiated feature flags that
    belongs to the protocol layer; a hello packet of the peer, read during an
    inbound pump, sets it. *)
Definition learn_caps (h : Z) (hello : option (list Z)) : M unit :=
  match hello with
  | Some caps => modify (fun s => set_host_caps (<[h := caps]> (host_caps s)) s)
  | None => ret tt
  end.

(** Modelled from the spec: the inbound pump consumes the available bytes of
    the Transport Channel through the read callback and may invoke the write
    callback; which callbacks it makes, and its status, come from the world. *)
Definition usbredirhost_read_guest_data : M Z :=
  h <- gets host ;;
  a <- call w_pump (fun _ => EvPumpIn h) ;;
  run_callbacks (pa_callbacks a) ;;
  learn_caps h (pa_hello a) ;;
  ret (pa_result a).

(** Modelled from the spec: the outbound pump flushes bytes through the
    callbacks. *)
Definition usbredirhost_write_guest_data : M Z :=
  h <- gets host ;;
  a <- call w_pump (fun _ => EvPumpOut h) ;;
  run_callbacks (pa_callbacks a) ;;
  ret (pa_result a).

Definition usbredirhost_has_data_to_write : M Z :=
  h <- gets host ;; call w_has_data_to_write (fun _ => EvHasDataToWrite h).

Definition usbredirhost_is_disconnected : M Z :=
  h <- gets host ;; call w_is_disconnected (fun _ => EvIsDisconnected h).

Definition usbredirhost_disconnect : M unit :=
  h <- gets host ;; call nothing (fun _ => EvDisconnect h).

(** Modelled from the spec: [usbredirhost_open] gives an instance or NULL;
    a fresh instance has learnt no peer capabilities yet. *)
Definition usbredirhost_open (flags : Z) : M Z :=
  dev <- gets handle ;;
  h <- call w_host_open (fun h => EvHostOpen dev flags h) ;;
  when (truthy h)
    (modify (fun s => set_host_caps (<[h := []]> (host_caps s)) s)) ;;
  ret h.

(** Modelled from the spec: [usbredirhost_close] ends the instance. *)
Definition usbredirhost_close (h : Z) : M unit :=
  call nothing (fun _ => EvHostClose h) ;;
  modify (fun s => set_host_caps (delete h (host_caps s)) s).

(** Modelled from the spec: [usbredirhost_save_caps], which is not part of the
    sources at hand.  The spec: the snapshot is captured from the instance
    before it is torn down. *)
Definition usbredirhost_save_caps (h : Z) : M (list Z) :=
  call nothing (fun _ => EvSaveCaps h) ;;
  gets (fun s => default [] (host_caps s !! h)).

(** Modelled from the spec: [usbredirhost_restore_caps_and_send_device_connect],
    which is not part of the sources at hand.  The spec: the snapshot is
    replayed into the replacement instance; the device-connect packet it
    queues leaves through the next outbound pump. *)
Definition usbredirhost_restore_caps_and_send_device_connect
    (h : Z) (caps : list Z) : M unit :=
  call nothing (fun _ => EvRestoreCaps h caps) ;;
  modify (fun s =>
    match host_caps s !! h with
    | Some _ => set_host_caps (<[h := caps]> (host_caps s)) s
    | None => s
    end).

(** ** libusb *)

Definition libusb_exit : M unit :=
  c <- gets ctx ;; call nothing (fun _ => EvLibusbExit c).

Definition libusb_init : M Z :=
  a <- call w_libusb_init (fun a => EvLibusbInit (fst a)) ;;
  let '(rc, c) := a in
  when (rc =? 0) (modify (set_ctx c)) ;;
  ret rc.

Definition libusb_set_debug : M unit :=
  c <- gets ctx ;; v <- gets verbose ;;
  call nothing (fun _ => EvSetDebug c v).

Definition libusb_handle_events_timeout : M unit :=
  c <- gets ctx ;; call nothing (fun _ => EvHandleEvents c).

Definition libusb_get_configuration : M Z :=
  dev <- gets handle ;;
  call w_get_configuration (fun _ => EvGetConfiguration dev).

(** ** [find_device] (source lines 148-176) *)

(** The [for] loop of the bus-address branch: the first entry whose bus number
    and address are the requested ones. *)
Definition scan_device_list (list : list Device) (bus addr : Z) : option Device :=
  find (fun d => (dev_bus d =? bus) && (dev_addr d =? addr)) list.

(** [libusb_open(dev, &handle)] stores the handle only when it succeeds. *)
Definition libusb_open (dev : Device) : M Z :=
  a <- call w_libusb_open (fun a => EvOpenDevice dev (fst a)) ;;
  let '(rc, h) := a in
  when (rc =? 0) (modify (set_handle h)) ;;
  ret rc.

(** The two identifiers are [int]s; [libusb_open_device_with_vid_pid] takes
    [uint16_t], so each is converted at the call. *)
Definition find_device : M unit :=
  vendor <- gets usbvendor ;;
  if negb (vendor =? -1) then
    product <- gets usbproduct ;;
    h <- call w_open_vid_pid
           (fun _ => EvOpenVidPid (to_uint16 vendor) (to_uint16 product)) ;;
    modify (set_handle h)
  else
    c <- gets ctx ;;
    list <- call w_device_list (fun _ => EvGetDeviceList c) ;;
    bus <- gets usbbus ;; addr <- gets usbaddr ;;
    match scan_device_list list bus addr with
    | Some dev => libusb_open dev ;; ret tt
    | None => ret tt
    end ;;
    call nothing (fun _ => EvFreeDeviceList).

(** ** The wait-mode retry block (source lines 287-315) *)

Definition retry_body : M unit :=
  libusb_exit ;;
  rc <- libusb_init ;;
  when (truthy rc) (print Stderr MsgNoLibusb ;; exit 1) ;;
  libusb_set_debug ;;
  find_device ;;
  dev <- gets handle ;;
  if negb (truthy dev) then
    t <- gets wait_timeout ;; sleep t
  else
    old <- gets host ;;
    peer_caps <- usbredirhost_save_caps old ;;
    h <- usbredirhost_open usbredirparser_fl_no_hello ;;
    modify (set_host h) ;;
    usbredirhost_restore_caps_and_send_device_connect h peer_caps ;;
    usbredirhost_write_guest_data ;;
    break_.

Definition retry_loop (fuel : nat) : M unit :=
  while fuel (fun s => negb (client_fd s =? -1)) retry_body.

(** ** [select] and the descriptor sets *)

(** An [fd_set] is a set of descriptors; [FD_SET] and [FD_ISSET] are defined
    for descriptors from 0 below [FD_SETSIZE] only, and the embedding says
    nothing of what the C code does with others. *)
Definition FD_ISSET (fd : Z) (set : gset Z) : bool := bool_decide (fd ∈ set).

(** The [for] loop over [pollfds] that fills the sets and raises [nfds]. *)
Definition add_pollfds (pollfds : list pollfd) (sets : gset Z * gset Z * Z)
  : gset Z * gset Z * Z :=
  fold_left
    (fun '(readfds, writefds, nfds) p =>
       let readfds := if truthy (Z.land (pfd_events p) POLLIN)
                      then {[pfd_fd p]} ∪ readfds else readfds in
       let writefds := if truthy (Z.land (pfd_events p) POLLOUT)
                       then {[pfd_fd p]} ∪ writefds else writefds in
       let nfds := if pfd_fd p >=? nfds then pfd_fd p + 1 else nfds in
       (readfds, writefds, nfds))
    pollfds sets.

(** What [select] returns: the count (or -1), [errno], and the two sets
    cut down to the descriptors below [nfds] that are ready. *)
Record Selected := mkSelected {
  sel_n : Z; sel_errno : Z; sel_readfds : gset Z; sel_writefds : gset Z
}.

Definition select_result (nfds : Z) (readfds writefds : gset Z)
    (a : SelectAnswer) : Selected :=
  match a with
  | SelectError errno => mkSelected (-1) errno readfds writefds
  | SelectReady readable writable =>
      let r := filter (fun fd => fd < nfds) (readfds ∩ readable) in
      let w := filter (fun fd => fd < nfds) (writefds ∩ writable) in
      mkSelected (Z.of_nat (size r + size w)) 0 r w
  end.

Definition select (nfds : Z) (readfds writefds : gset Z) (timeout : SelectTimeout)
  : M Selected :=
  a <- call w_select (fun _ => EvSelect nfds timeout) ;;
  ret (select_result nfds readfds writefds a).

(** The last [for] loop of an iteration: is any libusb descriptor ready? *)
Definition any_pollfd_ready (pollfds : list pollfd) (readfds writefds : gset Z)
  : bool :=
  existsb (fun p => FD_ISSET (pfd_fd p) readfds || FD_ISSET (pfd_fd p) writefds)
          pollfds.

(** ** [run_main_loop] (source lines 178-327) *)

(** Lines 283-317: entered with [disconnected == 1]. *)
Definition reconnect_block (fuel : nat) : M unit :=
  usbredirhost_write_guest_data ;;
  t <- gets wait_timeout ;; sleep t ;;
  usbredirhost_read_guest_data ;;
  retry_loop fuel ;;
  modify (set_wait_mode_state 0).

(** Lines 265-319: the wait-mode part of an iteration; [n] is what [select]
    returned. *)
Definition wait_mode_step (fuel : nat) (n : Z) : M unit :=
  wm <- gets wait_mode ;;
  when (truthy wm)
    (disconnected <- usbredirhost_is_disconnected ;;
     st <- gets wait_mode_state ;;
     when ((disconnected =? 0) && (st =? 0))
       (modify (set_wait_mode_state 1) ;; continue_) ;;
     st <- gets wait_mode_state ;;
     fd <- gets client_fd ;;
     when ((st =? 1) && negb (fd =? -1))
       (disconnected <-
          (if n =? 0 then
             error <- libusb_get_configuration ;;
             if truthy error && (disconnected =? 0)
             then usbredirhost_disconnect ;; ret 1
             else ret disconnected
           else ret disconnected) ;;
        when (disconnected =? 1) (reconnect_block fuel))).

(** Lines 189-235: build the sets, choose the timeout, [select], and service
    libusb on a timed wake-up. *)
Definition wait_for_events : M (list pollfd * Selected) :=
  fd <- gets client_fd ;;
  pending <- usbredirhost_has_data_to_write ;;
  let readfds : gset Z := {[fd]} in
  let writefds : gset Z := if truthy pending then {[fd]} else ∅ in
  c <- gets ctx ;;
  pollfds <- call w_pollfds (fun _ => EvGetPollfds c) ;;
  let '(readfds, writefds, nfds) :=
    add_pollfds pollfds (readfds, writefds, fd + 1) in
  default_tv <- gets wait_timeout ;;
  r <- call w_next_timeout (fun _ => EvGetNextTimeout c) ;;
  wm <- gets wait_mode ;;
  let timeout_p :=
    if r =? 1 then LibusbDeadline
    else if truthy wm then WaitTimeout default_tv else Forever in
  sel <- select nfds readfds writefds timeout_p ;;
  when (sel_n sel =? -1)
    (if sel_errno sel =? EINTR then continue_
     else print Stderr (MsgPerror "select") ;; break_) ;;
  when (sel_n sel =? 0)
    (libusb_handle_events_timeout ;;
     wm <- gets wait_mode ;;
     when (negb (truthy wm)) continue_) ;;
  ret (pollfds, sel).

(** Lines 237-264: pump inbound, pump outbound, service libusb. *)
Definition dispatch (pollfds : list pollfd) (sel : Selected) : M unit :=
  fd <- gets client_fd ;;
  when (FD_ISSET fd (sel_readfds sel))
    (error <- usbredirhost_read_guest_data ;;
     when (truthy error) break_) ;;
  fd <- gets client_fd ;;
  when (fd =? -1) break_ ;;
  when (FD_ISSET fd (sel_writefds sel))
    (error <- usbredirhost_write_guest_data ;;
     when (truthy error) break_) ;;
  when (any_pollfd_ready pollfds (sel_readfds sel) (sel_writefds sel))
    libusb_handle_events_timeout.

(** Lines 189-264: the part of an iteration that comes before the wait-mode
    state machine; it hands on what [select] returned. *)
Definition poll_and_dispatch : M Selected :=
  ps <- wait_for_events ;;
  let '(pollfds, sel) := ps in
  dispatch pollfds sel ;;
  ret sel.

(** One iteration of the [while] loop. *)
Definition iteration (fuel : nat) : M unit :=
  sel <- poll_and_dispatch ;;
  wait_mode_step fuel (sel_n sel).

Definition run_main_loop (fuel : nat) : M unit :=
  modify (set_wait_mode_state 0) ;;
  while fuel (fun s => truthy (running s) && negb (client_fd s =? -1))
        (iteration fuel) ;;
  fd <- gets client_fd ;;
  when (negb (fd =? -1))
    (close AtLoopExit fd ;; modify (set_client_fd (-1))).

(** ** [main] (source lines 334-496) *)

(** [usage]: the text goes to stderr for a non-zero code; never returns. *)
Definition usage {A} (exit_code : Z) (argv0 : string) : M A :=
  print (if truthy exit_code then Stderr else Stdout) (MsgUsage argv0) ;;
  exit exit_code.

Definition invalid_usb_device_id {A} (usb_device_id argv0 : string) : M A :=
  print Stderr (MsgInvalidId usb_device_id) ;;
  usage 1 argv0.

(** [*endptr != c] *)
Definition stops_before (endptr : string) (c : ascii) : bool :=
  negb (Ascii.eqb (deref endptr) c).

(** One turn of the [getopt_long] loop: [o] is what [getopt_long] returned,
    [optarg] its argument; [port] is the local of [main]. *)
Definition handle_option (argv0 : string) (o : ascii) (optarg : string)
    (port : Z) : M Z :=
  if Ascii.eqb o "p" then
    let '(v, endptr) := strtol optarg 10 in
    when (stops_before endptr NUL)
      (print Stderr (MsgInvalidValue "--port" optarg) ;; usage 1 argv0) ;;
    ret (to_int v)
  else if Ascii.eqb o "v" then
    let '(v, endptr) := strtol optarg 10 in
    modify (set_verbose (to_int v)) ;;
    when (stops_before endptr NUL)
      (print Stderr (MsgInvalidValue "--verbose" optarg) ;; usage 1 argv0) ;;
    ret port
  else if Ascii.eqb o "w" then
    modify (set_wait_mode 1) ;; ret port
  else if Ascii.eqb o "t" then
    let '(v, endptr) := strtol optarg 10 in
    modify (set_wait_timeout (to_int v)) ;;
    when (stops_before endptr NUL)
      (print Stderr (MsgInvalidValue "--wait-timeout" optarg) ;; usage 1 argv0) ;;
    ret port
  else if Ascii.eqb o "?" then usage 1 argv0
  else if Ascii.eqb o "h" then usage 0 argv0
  else ret port.

(** The [getopt_long] loop; [opts] lists what [getopt_long] returns, call
    after call, until it returns -1. *)
Fixpoint parse_options (argv0 : string) (opts : list (ascii * string))
    (port : Z) : M Z :=
  match opts with
  | [] => ret port
  | (o, optarg) :: rest =>
      port <- handle_option argv0 o optarg port ;;
      parse_options argv0 rest port
  end.

(** Lines 379-402: the device identifier [argv[optind]]. *)
Definition parse_device_id (argv0 arg : string) : M unit :=
  let delim := strchr arg "-" in
  if match delim with
     | Some d => negb (Ascii.eqb (deref (next d)) NUL)
     | None => false
     end
  then
    let '(v, endptr) := strtol arg 10 in
    modify (set_usbbus (to_int v)) ;;
    when (stops_before endptr "-") (invalid_usb_device_id arg argv0) ;;
    let '(v, endptr) := strtol (next (default EmptyString delim)) 10 in
    modify (set_usbaddr (to_int v)) ;;
    when (stops_before endptr NUL) (invalid_usb_device_id arg argv0)
  else
    let delim := strchr arg ":" in
    when match delim with
         | Some d => Ascii.eqb (deref (next d)) NUL
         | None => true
         end
      (invalid_usb_device_id arg argv0) ;;
    let '(v, endptr) := strtol arg 16 in
    modify (set_usbvendor (to_int v)) ;;
    when (stops_before endptr ":") (invalid_usb_device_id arg argv0) ;;
    let '(v, endptr) := strtol (next (default EmptyString delim)) 16 in
    modify (set_usbproduct (to_int v)) ;;
    when (stops_before endptr NUL) (invalid_usb_device_id arg argv0).

(** Lines 343-407: options, then exactly one device identifier; [args] are
    the arguments from [argv[optind]] on.  Returns [port]. *)
Definition parse_command_line (argv0 : string) (opts : list (ascii * string))
    (args : list string) : M Z :=
  port <- parse_options argv0 opts 4000 ;;
  match args with
  | [] => print Stderr MsgMissingId ;; usage 1 argv0
  | arg :: more =>
      parse_device_id argv0 arg ;;
      when (negb (Nat.eqb (length more) 0))
        (print Stderr MsgExcessArgs ;; usage 1 argv0) ;;
      ret port
  end.

(** The body of the accept loop (lines 450-490). *)
Definition accept_body (fuel : nat) (server_fd : Z) : M unit :=
  fd <- gets client_fd ;;
  wm <- gets wait_mode ;;
  (if (fd =? -1) || negb (truthy wm) then
     a <- call w_accept (fun a => EvAccept (fst a)) ;;
     let '(fd, errno) := a in
     modify (set_client_fd fd) ;;
     when (fd =? -1)
       (if errno =? EINTR then continue_
        else print Stderr (MsgPerror "accept") ;; break_) ;;
     flags <- call w_status EvFcntl ;;
     when (flags =? -1) (print Stderr (MsgPerror "fcntl F_GETFL") ;; break_) ;;
     flags <- call w_status EvFcntl ;;
     when (flags =? -1)
       (print Stderr (MsgPerror "fcntl F_SETFL O_NONBLOCK") ;; break_)
   else
     t <- gets wait_timeout ;; sleep t) ;;
  find_device ;;
  dev <- gets handle ;;
  if negb (truthy dev) then
    wm <- gets wait_mode ;;
    fd <- gets client_fd ;;
    when (negb (truthy wm)) (close DeviceAbsent fd) ;;
    continue_
  else
    h <- usbredirhost_open 0 ;;
    modify (set_host h) ;;
    when (negb (truthy h)) (exit 1) ;;
    run_main_loop fuel ;;
    h <- gets host ;;
    usbredirhost_close h ;;
    modify (set_handle 0).

Definition sigaction : M unit := call nothing (fun _ => EvSigaction).

(** Lines 409-495: everything after the command line. *)
Definition serve (fuel : nat) (port : Z) : M unit :=
  sigaction ;; sigaction ;; sigaction ;; sigaction ;;
  rc <- libusb_init ;;
  when (truthy rc) (print Stderr MsgNoLibusb ;; exit 1) ;;
  libusb_set_debug ;;
  server_fd <- call w_socket EvSocket ;;
  when (server_fd =? -1)
    (print Stderr (MsgPerror "Error creating ipv6 socket") ;; exit 1) ;;
  rc <- call w_status EvSetsockopt ;;
  when (truthy rc)
    (print Stderr (MsgPerror "Error setsockopt(SO_REUSEADDR) failed") ;; exit 1) ;;
  rc <- call w_status (EvBind (port mod 65536)) ;;
  when (truthy rc) (print Stderr (MsgBind port) ;; exit 1) ;;
  rc <- call w_status EvListen ;;
  when (truthy rc) (print Stderr (MsgPerror "Error listening") ;; exit 1) ;;
  while fuel (fun s => truthy (running s)) (accept_body fuel server_fd) ;;
  call nothing (fun _ => EvCloseServer server_fd) ;;
  libusb_exit ;;
  exit 0.

Definition main (fuel : nat) (argv0 : string) (opts : list (ascii * string))
    (args : list string) : M unit :=
  port <- parse_command_line argv0 opts args ;;
  serve fuel port.

End Program.

(** The initialisers of the file-scope variables. *)
Definition initial_state : State :=
  mkState usbredirparser_info (-1) 1 0 3 0 0 (-1) (-1) (-1) (-1) 0 0 ∅ O [].
(** ** Properties of traces *)

(** A [close] made by a transport callback: the peer closed the connection. *)
Definition peer_close (e : Event) : bool :=
  match e with
  | EvClose InReadCallback _ | EvClose InWriteCallback _ => true
  | _ => false
  end.

(** The [close] of [run_main_loop] after its loop. *)
Definition engine_close (e : Event) : bool :=
  match e with
  | EvClose AtLoopExit _ => true
  | _ => false
  end.

(** An outbound pump. *)
Definition write_attempt (e : Event) : bool :=
  match e with
  | EvPumpOut _ => true
  | _ => false
  end.

(** The calls of the retry block: context teardown and set-up, the
    Device Locator, and the rebinding of a redirection-host instance. *)
Definition reconnect_event (e : Event) : bool :=
  match e with
  | EvLibusbExit _ | EvLibusbInit _ | EvSetDebug _ _
  | EvOpenVidPid _ _ | EvGetDeviceList _ | EvOpenDevice _ _ | EvFreeDeviceList
  | EvSaveCaps _ | EvHostOpen _ _ _ | EvRestoreCaps _ _ => true
  | _ => false
  end.

Definition quiet (e : Event) : bool :=
  negb (write_attempt e || reconnect_event e).

Definition no_peer_close (t : list Event) : Prop :=
  forallb (fun e => negb (peer_close e)) t = true.

Definition all_quiet (t : list Event) : Prop := forallb quiet t = true.

Definition no_engine_close (t : list Event) : Prop :=
  forallb (fun e => negb (engine_close e)) t = true.

(** The peer closes somewhere in [t], and nothing after the first such close
    is an outbound pump or a call of the retry block. *)
Definition closed_quietly (t : list Event) : Prop :=
  exists t1 e t2,
    t = t1 ++ e :: t2 /\ no_peer_close t1 /\ peer_close e = true /\ all_quiet t2.

(** An outcome that gives control back to the enclosing loop. *)
Definition terminating {A} (o : Outcome A) : Prop :=
  match o with
  | Normal _ _ | Break _ | Continue _ => True
  | Exit _ _ | Killed _ _ | Fuel _ => False
  end.

(** ** Judgments on programs *)

Definition preserves (R : State -> State -> Prop) {A} (m : M A) : Prop :=
  forall s, R s (final (m s)).

Definition grows (s s' : State) : Prop := exists t, trace s' = trace s ++ t.

(** The channel is left as it is and no peer close is recorded. *)
Definition steady_step (s s' : State) : Prop :=
  client_fd s' = client_fd s /\
  exists t, trace s' = trace s ++ t /\ no_peer_close t.

Definition steady {A} (m : M A) : Prop := preserves steady_step m.

(** The engine itself closes nothing. *)
Definition engine_idle (s s' : State) : Prop :=
  exists t, trace s' = trace s ++ t /\ no_engine_close t.

(** From an open channel: either the channel stays open and no peer close is
    recorded, or the peer closes, nothing but quiet calls follow, and control
    goes back to the loop. *)
Definition safe_post {A} (s : State) (o : Outcome A) : Prop :=
  exists t, trace (final o) = trace s ++ t /\
    ((client_fd (final o) = client_fd s /\ no_peer_close t) \/
     (client_fd (final o) = -1 /\ terminating o /\ closed_quietly t)).

Definition safe {A} (m : M A) : Prop :=
  forall s, client_fd s <> -1 -> safe_post s (m s).

(** From a closed channel: only quiet calls, and control goes back. *)
Definition calm_post {A} (s : State) (o : Outcome A) : Prop :=
  terminating o /\ client_fd (final o) = -1 /\
  exists t, trace (final o) = trace s ++ t /\ all_quiet t.

Definition calm {A} (m : M A) : Prop :=
  forall s, client_fd s = -1 -> calm_post s (m s).

(** ** Sample worlds and states *)

(** A world in which nothing happens: no signal, no pending data, no libusb
    descriptors, every call succeeds; a device with handle 200 is present. *)
Definition calm_world : World :=
  mkWorld (fun _ => false) (fun _ => (1, 0)) (fun _ => 0) (fun _ => [])
          (fun _ => 0) (fun _ => SelectReady ∅ ∅) (fun _ => mkPump [] None 0)
          (fun _ => 0) (fun _ => 0) (fun _ => (0, 100)) (fun _ => 200)
          (fun _ => []) (fun _ => (0, 200)) (fun _ => 300) (fun _ => 3)
          (fun _ => 0) (fun _ => (5, 0))
          (fun _ => None) true.

(** A session on descriptor 5 with device handle 200 and instance 300. *)
Definition session_state (wait : Z) : State :=
  mkState usbredirparser_info 5 1 wait 3 100 300 4660 43981 (-1) (-1) 200 0
          {[ 300 := [7] ]} O [].

(** The peer closes: the channel is readable and writable, outbound data is
    pending, and the [read] of the inbound pump returns 0. *)
Definition peer_closes_world : World :=
  mkWorld (fun _ => false) (fun _ => (0, 0)) (fun _ => 1) (fun _ => [])
          (fun _ => 0) (fun _ => SelectReady {[5]} {[5]})
          (fun _ => mkPump [CallRead] None 0)
          (fun _ => 0) (fun _ => 0) (fun _ => (0, 100)) (fun _ => 200)
          (fun _ => []) (fun _ => (0, 200)) (fun _ => 300) (fun _ => 3)
          (fun _ => 0) (fun _ => (5, 0))
          (fun _ => None) true.

(** The peer sends bytes the parser rejects: [read] returns 10 bytes and the
    inbound pump returns a parse error; the peer does not close. *)
Definition parse_error_world : World :=
  mkWorld (fun _ => false) (fun _ => (10, 0)) (fun _ => 0) (fun _ => [])
          (fun _ => 0) (fun _ => SelectReady {[5]} ∅)
          (fun _ => mkPump [CallRead] None (-2))
          (fun _ => 0) (fun _ => 0) (fun _ => (0, 100)) (fun _ => 200)
          (fun _ => []) (fun _ => (0, 200)) (fun _ => 300) (fun _ => 3)
          (fun _ => 0) (fun _ => (5, 0))
          (fun _ => None) true.

(** ** Independence of the termination flag *)

(** The state with the termination flag blanked out. *)
Definition blind (s : State) : State := set_running 0 s.

Definition outcome_map {A} (f : State -> State) (o : Outcome A) : Outcome A :=
  match o with
  | Normal a s => Normal a (f s)
  | Break s => Break (f s)
  | Continue s => Continue (f s)
  | Exit c s => Exit c (f s)
  | Killed sig s => Killed sig (f s)
  | Fuel s => Fuel (f s)
  end.

(** The same world with other signal arrivals. *)
Definition with_signals (sig : nat -> bool) (w : World) : World :=
  mkWorld sig (w_io w) (w_has_data_to_write w) (w_pollfds w)
          (w_next_timeout w) (w_select w) (w_pump w) (w_is_disconnected w)
          (w_get_configuration w) (w_libusb_init w) (w_open_vid_pid w)
          (w_device_list w) (w_libusb_open w) (w_host_open w) (w_socket w)
          (w_status w) (w_accept w) (w_log_errno w) (w_sigpipe_fatal w).

(** Two programs that cannot tell states apart by the flag: from states that
    differ at most in [running] they do the same, up to [running]. *)
Definition oblivious {A} (m1 m2 : M A) : Prop :=
  forall s1 s2, blind s1 = blind s2 ->
                outcome_map blind (m1 s1) = outcome_map blind (m2 s2).

(** ** Capabilities *)

(** Modelled from the spec: the Capability Snapshot observable on the current
    redirection-host instance, that is what [usbredirhost_save_caps] would
    return for it. *)
Definition capability_snapshot (s : State) : list Z :=
  default [] (host_caps s !! host s).

(** What the callbacks leave alone. *)
Definition binding_kept (s s' : State) : Prop :=
  handle s' = handle s /\ host s' = host s /\ host_caps s' = host_caps s.

(** Device absent at first, present (handle 201) from call 5 on; the host
    opens instance 301. *)
Definition replug_world : World :=
  mkWorld (fun _ => false) (fun _ => (1, 0)) (fun _ => 0) (fun _ => [])
          (fun _ => 0) (fun _ => SelectReady ∅ ∅) (fun _ => mkPump [CallWrite] None 0)
          (fun _ => 0) (fun _ => 0) (fun _ => (0, 101))
          (fun k => if (k <? 5)%nat then 0 else 201)
          (fun _ => []) (fun _ => (0, 201)) (fun _ => 301) (fun _ => 3)
          (fun _ => 0) (fun _ => (5, 0))
          (fun _ => None) true.

(** The device vanishes: [select] times out, the protocol layer has not
    noticed, the liveness probe fails with LIBUSB_ERROR_NO_DEVICE, and no
    device comes back. *)
Definition unplugged_world : World :=
  mkWorld (fun _ => false) (fun _ => (1, 0)) (fun _ => 0) (fun _ => [])
          (fun _ => 0) (fun _ => SelectReady ∅ ∅) (fun _ => mkPump [] None 0)
          (fun _ => 0) (fun _ => -4) (fun _ => (0, 101)) (fun _ => 0)
          (fun _ => []) (fun _ => (0, 201)) (fun _ => 301) (fun _ => 3)
          (fun _ => 0) (fun _ => (5, 0))
          (fun _ => None) true.

(** A wait-mode session after its first iteration, in which the state machine
    went from Idle to Connected. *)
Definition connected_state : State :=
  final (iteration unplugged_world 1 (session_state 1)).

(** The peer is gone when the server writes: [write] fails with EPIPE; the
    process has inherited SIGPIPE ignored. *)
Definition broken_pipe_world : World :=
  mkWorld (fun _ => false) (fun _ => (-1, EPIPE)) (fun _ => 1) (fun _ => [])
          (fun _ => 0) (fun _ => SelectReady ∅ {[5]})
          (fun _ => mkPump [CallWrite] None 0)
          (fun _ => 0) (fun _ => 0) (fun _ => (0, 100)) (fun _ => 200)
          (fun _ => []) (fun _ => (0, 200)) (fun _ => 300) (fun _ => 3)
          (fun _ => 0) (fun _ => (5, 0))
          (fun _ => None) false.

(** The same world with another disposition of SIGPIPE. *)
Definition with_sigpipe (fatal : bool) (w : World) : World :=
  mkWorld (w_signal w) (w_io w) (w_has_data_to_write w) (w_pollfds w)
          (w_next_timeout w) (w_select w) (w_pump w) (w_is_disconnected w)
          (w_get_configuration w) (w_libusb_init w) (w_open_vid_pid w)
          (w_device_list w) (w_libusb_open w) (w_host_open w) (w_socket w)
          (w_status w) (w_accept w) (w_log_errno w) fatal.

(** [write] would block, and the log line written after it (stderr is
    closed) leaves EBADF in [errno]. *)
Definition would_block_world : World :=
  mkWorld (fun _ => false) (fun _ => (-1, EAGAIN)) (fun _ => 1) (fun _ => [])
          (fun _ => 0) (fun _ => SelectReady ∅ {[5]})
          (fun _ => mkPump [CallWrite] None 0)
          (fun _ => 0) (fun _ => 0) (fun _ => (0, 100)) (fun _ => 200)
          (fun _ => []) (fun _ => (0, 200)) (fun _ => 300) (fun _ => 3)
          (fun _ => 0) (fun _ => (5, 0))
          (fun _ => Some 9) true.

(** libusb cannot be initialised again. *)
Definition init_fails_world : World :=
  mkWorld (fun _ => false) (fun _ => (1, 0)) (fun _ => 0) (fun _ => [])
          (fun _ => 0) (fun _ => SelectReady ∅ ∅) (fun _ => mkPump [] None 0)
          (fun _ => 1) (fun _ => 0) (fun _ => (-99, 0)) (fun _ => 0)
          (fun _ => []) (fun _ => (0, 201)) (fun _ => 301) (fun _ => 3)
          (fun _ => 0) (fun _ => (5, 0))
          (fun _ => None) true.

(** ** The order of the engine's calls within an iteration *)

(** Inbound pump 1, outbound pump 2, USB event servicing 3. *)
Definition stage (e : Event) : option nat :=
  match e with
  | EvPumpIn _ => Some 1%nat
  | EvPumpOut _ => Some 2%nat
  | EvHandleEvents _ => Some 3%nat
  | _ => None
  end.

Fixpoint stages (t : list Event) : list nat :=
  match t with
  | [] => []
  | e :: t' =>
      match stage e with
      | Some n => n :: stages t'
      | None => stages t'
      end
  end.

Fixpoint increasing (l : list nat) : bool :=
  match l with
  | a :: (b :: _) as r => (a <? b)%nat && increasing r
  | _ => true
  end.

(** Each stage at most once, and in the order inbound, outbound, USB. *)
Definition in_order (t : list Event) : Prop := increasing (stages t) = true.

(** The events an outcome added to the trace of the state it started from. *)
Definition emitted {A} (s : State) (o : Outcome A) : list Event :=
  skipn (length (trace s)) (trace (final o)).

Definition within (lo hi : nat) (l : list nat) : Prop :=
  increasing l = true /\ Forall (fun n => (lo <= n <= hi)%nat) l.

(** The program adds calls of the stages [lo] to [hi] only, in order. *)
Definition staged (lo hi : nat) {A} (m : M A) : Prop :=
  forall s, exists t, trace (final (m s)) = trace s ++ t /\
                      within lo hi (stages t).

(** The step adds no call of any stage. *)
Definition stageless_step (s s' : State) : Prop :=
  exists t, trace s' = trace s ++ t /\ stages t = [].

Definition wait_mode_kept (s s' : State) : Prop := wait_mode s' = wait_mode s.

(** What the iteration that starts in [s] hands to [select] (lines 189-209):
    the read set, the write set and [nfds], from the answers the world gives
    to the first two calls of the iteration. *)
Definition built_sets (w : World) (s : State) : gset Z * gset Z * Z :=
  add_pollfds (w_pollfds w (S (calls s)))
    ({[client_fd s]},
     (if truthy (w_has_data_to_write w (calls s)) then {[client_fd s]} else ∅),
     client_fd s + 1).

(** The [timeout] argument of that [select] (lines 211-220). *)
Definition chosen_timeout (w : World) (s : State) : SelectTimeout :=
  if w_next_timeout w (2 + calls s) =? 1 then LibusbDeadline
  else if truthy (wait_mode s) then WaitTimeout (wait_timeout s) else Forever.

(** What that [select], the fourth call of the iteration, returns. *)
Definition selected (w : World) (s : State) : Selected :=
  let '(readfds, writefds, nfds) := built_sets w s in
  select_result nfds readfds writefds (w_select w (3 + calls s)).

(** A wait-mode session in Connected whose device vanishes: a timed wake-up,
    then the reconnection block. *)
Definition timed_wakeup_trace : list Event :=
  emitted connected_state (iteration unplugged_world 1 connected_state).

(** ** Device identifiers *)

Fixpoint all_digits (base : Z) (s : string) : bool :=
  match s with
  | EmptyString => true
  | String c r =>
      match digit_in base c with
      | Some _ => all_digits base r
      | None => false
      end
  end.

(** A non-empty string of digits of the base. *)
Definition numeral (base : Z) (s : string) : Prop :=
  s <> EmptyString /\ all_digits base s = true.

Fixpoint value_from (base : Z) (s : string) (acc : Z) : Z :=
  match s with
  | EmptyString => acc
  | String c r =>
      match digit_in base c with
      | Some d => value_from base r (acc * base + d)
      | None => acc
      end
  end.

(** The number a numeral denotes. *)
Definition number (base : Z) (s : string) : Z := value_from base s 0.

(** "BUS-ADDRESS" and "VENDOR:PRODUCT" *)
Definition bus_address (bus addr : string) : string :=
  String.append bus (String "-" addr).

Definition vendor_product (vendor product : string) : string :=
  String.append vendor (String ":" product).

(** The calls of the Device Locator that fit the parsed identifier: with
    [usbvendor == -1] the list scan and an open of a device with the
    requested bus number and address; otherwise the open by vendor and
    product with the parsed values, as the call receives them. *)
Definition locator_event_ok (s : State) (e : Event) : bool :=
  match e with
  | EvOpenVidPid v p =>
      negb (usbvendor s =? -1) && (v =? to_uint16 (usbvendor s))
      && (p =? to_uint16 (usbproduct s))
  | EvGetDeviceList _ | EvFreeDeviceList => usbvendor s =? -1
  | EvOpenDevice d _ =>
      (usbvendor s =? -1) && (dev_bus d =? usbbus s) && (dev_addr d =? usbaddr s)
  | _ => true
  end.

Definition identity (s : State) : Z * Z * Z * Z :=
  (usbvendor s, usbproduct s, usbbus s, usbaddr s).

(** The identifier stays as parsed and the locator follows it. *)
Definition locator_discipline (s s' : State) : Prop :=
  identity s' = identity s /\
  exists t, trace s' = trace s ++ t /\ forallb (locator_event_ok s) t = true.

(** Resolution by bus and address only. *)
Definition by_bus_address (bus addr : Z) (e : Event) : Prop :=
  match e with
  | EvOpenVidPid _ _ => False
  | EvOpenDevice d _ => dev_bus d = bus /\ dev_addr d = addr
  | _ => True
  end.

(** Resolution by vendor and product only. *)
Definition by_vendor_product (vendor product : Z) (e : Event) : Prop :=
  match e with
  | EvOpenVidPid v p => v = vendor /\ p = product
  | EvGetDeviceList _ | EvOpenDevice _ _ | EvFreeDeviceList => False
  | _ => True
  end.

(** Output only. *)
Definition is_print (e : Event) : bool :=
  match e with
  | EvPrint _ _ => true
  | _ => false
  end.

(** Two devices on bus 1; the one at address 4 has id 14. *)
Definition two_devices_world : World :=
  mkWorld (fun _ => false) (fun _ => (1, 0)) (fun _ => 0) (fun _ => [])
          (fun _ => 0) (fun _ => SelectReady ∅ ∅) (fun _ => mkPump [] None 0)
          (fun _ => 0) (fun _ => 0) (fun _ => (0, 100)) (fun _ => 200)
          (fun _ => [mkDevice 13 1 3; mkDevice 14 1 4])
          (fun _ => (0, 200)) (fun _ => 300) (fun _ => 3)
          (fun _ => 0) (fun _ => (5, 0))
          (fun _ => None) true.

(** The step leaves the identifier alone and only prints. *)
Definition prints_only (s s' : State) : Prop :=
  identity s' = identity s /\
  exists t, trace s' = trace s ++ t /\ forallb is_print t = true.

(** ** What the command line parser accepts *)

(** The check made on a numeric option value: nothing may be left after the
    number [strtol] reads. *)
Definition value_accepted (optarg : string) : bool :=
  negb (stops_before (snd (strtol optarg 10)) NUL).

Definition option_accepted (oa : ascii * string) : bool :=
  let '(o, optarg) := oa in
  if Ascii.eqb o "p" then value_accepted optarg
  else if Ascii.eqb o "v" then value_accepted optarg
  else if Ascii.eqb o "w" then true
  else if Ascii.eqb o "t" then value_accepted optarg
  else if Ascii.eqb o "?" then false
  else if Ascii.eqb o "h" then false
  else true.

(** The checks made on the device identifier. *)
Definition identifier_accepted (arg : string) : bool :=
  let delim := strchr arg "-" in
  if match delim with
     | Some d => negb (Ascii.eqb (deref (next d)) NUL)
     | None => false
     end
  then
    negb (stops_before (snd (strtol arg 10)) "-") &&
    negb (stops_before (snd (strtol (next (default EmptyString delim)) 10)) NUL)
  else
    let delim := strchr arg ":" in
    match delim with
    | Some d => negb (Ascii.eqb (deref (next d)) NUL)
    | None => false
    end &&
    negb (stops_before (snd (strtol arg 16)) ":") &&
    negb (stops_before (snd (strtol (next (default EmptyString delim)) 16)) NUL).

Definition command_line_accepted (opts : list (ascii * string))
    (args : list string) : bool :=
  forallb option_accepted opts &&
  match args with
  | [arg] => identifier_accepted arg
  | _ => false
  end.

(** How a run ends that stops at the command line: only output, the usage
    text last; status 1 with the usage text on stderr, or status 0 with the
    usage text on stdout when help was asked for. *)
Definition usage_exit (argv0 : string) (opts : list (ascii * string))
    (s : State) (o : Outcome unit) : Prop :=
  exists c s1 t stream,
    o = Exit c s1 /\
    trace s1 = trace s ++ t ++ [EvPrint stream (MsgUsage argv0)] /\
    forallb is_print t = true /\
    ((c = 1 /\ stream = Stderr) \/
     (c = 0 /\ stream = Stdout /\ In "h"%char (map fst opts))).

(** A device that is present at start-up and vanishes; libusb can be
    initialised at start-up (call 4) but not again later. *)
Definition late_init_failure_world : World :=
  mkWorld (fun _ => false) (fun _ => (1, 0)) (fun _ => 0) (fun _ => [])
          (fun _ => 0) (fun _ => SelectReady ∅ ∅) (fun _ => mkPump [] None 0)
          (fun _ => 0) (fun _ => -4)
          (fun k => if (k <? 10)%nat then (0, 100) else (-99, 0))
          (fun _ => 200) (fun _ => []) (fun _ => (0, 200)) (fun _ => 300)
          (fun _ => 3) (fun _ => 0) (fun _ => (5, 0))
          (fun _ => None) true.

(** The peer has reset the connection and the first [write] after that
    reports it: "Connection reset by peer". *)
Definition connection_reset_world : World :=
  mkWorld (fun _ => false) (fun _ => (-1, ECONNRESET)) (fun _ => 1)
          (fun _ => []) (fun _ => 0) (fun _ => SelectReady ∅ {[5]})
          (fun _ => mkPump [CallWrite] None (-1))
          (fun _ => 0) (fun _ => 0) (fun _ => (0, 100)) (fun _ => 200)
          (fun _ => []) (fun _ => (0, 200)) (fun _ => 300) (fun _ => 3)
          (fun _ => 0) (fun _ => (5, 0))
          (fun _ => None) true.

(** A device on bus 1 at address 4 that is there at start-up and gone
    afterwards: the device list holds it up to call 20 and is empty from then
    on; the liveness probe fails. *)
Definition unplugged_bus_world : World :=
  mkWorld (fun _ => false) (fun _ => (1, 0)) (fun _ => 0) (fun _ => [])
          (fun _ => 0) (fun _ => SelectReady ∅ ∅) (fun _ => mkPump [] None 0)
          (fun _ => 0) (fun _ => -4) (fun _ => (0, 100)) (fun _ => 0)
          (fun k => if (k <? 20)%nat then [mkDevice 14 1 4] else [])
          (fun _ => (0, 200)) (fun k => 300 + Z.of_nat k) (fun _ => 3)
          (fun _ => 0) (fun _ => (5, 0))
          (fun _ => None) true.

(** ** Diagnostics: [usbredirserver_log] and [va_log] (source lines 65-95) *)

(** The other log levels of [usbredirparser.h]. *)
Definition usbredirparser_error : Z := 1.
Definition usbredirparser_warning : Z := 2.

Definition newline : string := String "010"%char EmptyString.

(** [usbredirserver_log]: what it writes to stderr, the message and a
    newline when the level passes [verbose], nothing otherwise. *)
Definition usbredirserver_log (level : Z) (msg : string) (s : State) : string :=
  if level <=? verbose s then String.append msg newline else EmptyString.

(** The first [n] characters of a string. *)
Fixpoint string_take (n : nat) (s : string) : string :=
  match n, s with
  | S n', String c r => String c (string_take n' r)
  | _, _ => EmptyString
  end.

(** What [vsnprintf(str, size, fmt, ap)] leaves in [str]: of the text the
    format expands to, [formatted], at most [size - 1] characters, then the
    terminator. *)
Definition vsnprintf (size : nat) (formatted : string) : string :=
  string_take (size - 1) formatted.

(** The buffer of [va_log] after the two prints: [sprintf] has written the
    prefix and returned its length [n]; [vsnprintf] continues at [buf + n]
    with [sizeof(buf) - n] bytes. *)
Definition va_log_buf (formatted : string) : string :=
  let prefix := "usbredirserver: "%string in
  let n := String.length prefix in
  String.append prefix (vsnprintf (512 - n) formatted).

Definition va_log (level : Z) (formatted : string) (s : State) : string :=
  usbredirserver_log level (va_log_buf formatted) s.

(** ** Further judgments on programs *)

(** The step adds only events that pass [P]. *)
Definition emits (P : Event -> bool) (s s' : State) : Prop :=
  exists t, trace s' = trace s ++ t /\ forallb P t = true.

(** The step leaves [f] of the state as it is. *)
Definition keeps {A} (f : State -> A) (s s' : State) : Prop := f s' = f s.

(** Death by the SIGPIPE that the program's own [write] raises: SIGPIPE has
    its default action, and the last call made is a [write] on an open
    descriptor. *)
Definition killed_in_write (w : World) (sig : Z) (s : State) : Prop :=
  sig = SIGPIPE /\ w_sigpipe_fatal w = true /\
  exists t fd, trace s = t ++ [EvWrite fd] /\ 0 <= fd.

(** Every [exit] the program can take has a status in [P], and it dies of no
    signal but the SIGPIPE of its own [write]. *)
Definition exits_with (w : World) (P : Z -> Prop) {A} (m : M A) : Prop :=
  forall s, match m s with
            | Exit c _ => P c
            | Killed sig s' => killed_in_write w sig s'
            | _ => True
            end.

(** The program returns, exits with a status in [P] or dies in [write]; it
    does not jump. *)
Definition returns_or_exits (w : World) (P : Z -> Prop) {A} (m : M A) : Prop :=
  forall s, match m s with
            | Exit c _ => P c
            | Killed sig s' => killed_in_write w sig s'
            | Break _ | Continue _ => False
            | _ => True
            end.

(** The program ends by [exit] with a status in [P] or dies in [write], if
    it ends. *)
Definition never_returns (w : World) (P : Z -> Prop) {A} (m : M A) : Prop :=
  forall s, match m s with
            | Exit c _ => P c
            | Killed sig s' => killed_in_write w sig s'
            | Fuel _ => True
            | _ => False
            end.

(** A handled signal interrupts the first [accept]. *)
Definition interrupted_accept_world : World :=
  mkWorld (fun k => Nat.eqb k 10) (fun _ => (1, 0)) (fun _ => 0) (fun _ => [])
          (fun _ => 0) (fun _ => SelectReady ∅ ∅) (fun _ => mkPump [] None 0)
          (fun _ => 0) (fun _ => 0) (fun _ => (0, 100)) (fun _ => 200)
          (fun _ => []) (fun _ => (0, 200)) (fun _ => 300) (fun _ => 3)
          (fun _ => 0) (fun _ => (-1, EINTR))
          (fun _ => None) true.

Definition is_accept (e : Event) : bool :=
  match e with
  | EvAccept _ => true
  | _ => false
  end.

(** ** The settings the options leave *)

(** The value of the last option [o] in [opts], as [strtol] reads it and the
    assignment to an [int] keeps it; [d] when there is none. *)
Fixpoint last_value (o : ascii) (opts : list (ascii * string)) (d : Z) : Z :=
  match opts with
  | [] => d
  | (o', optarg) :: rest =>
      last_value o rest
        (if Ascii.eqb o' o then to_int (fst (strtol optarg 10)) else d)
  end.

(** No option [o] among [opts]. *)
Definition without (o : ascii) (opts : list (ascii * string)) : Prop :=
  forall optarg, ~ In (o, optarg) opts.

(** Every [bind] is for this port. *)
Definition binds_port (port : Z) (e : Event) : bool :=
  match e with
  | EvBind p _ => p =? port
  | _ => true
  end.

(** The settings: what the options set and the event loop reads. *)
Definition config (s : State) : Z * Z * Z :=
  (verbose s, wait_mode s, wait_timeout s).

(** From a state with the settings [(v, wm, wt)] the step keeps them and adds
    only events that pass [P] for them. *)
Definition settled (P : Z -> Z -> Z -> Event -> bool) (v wm wt : Z)
    (s s' : State) : Prop :=
  config s = (v, wm, wt) ->
  config s' = (v, wm, wt) /\ emits (P v wm wt) s s'.

(** How the settings govern the calls that wait and the debug level:
    [select] waits without bound only outside wait-mode and for
    [wait_timeout] seconds only in wait-mode (else until libusb's deadline);
    a sleep is given [wait_timeout] as an unsigned number of seconds;
    libusb's debug level is [verbose]. *)
Definition follows_settings (v wm wt : Z) (e : Event) : bool :=
  match e with
  | EvSelect _ Forever => wm =? 0
  | EvSelect _ (WaitTimeout t) => negb (wm =? 0) && (t =? wt)
  | EvSleep t => t =? to_unsigned wt
  | EvSetDebug _ level => level =? v
  | _ => true
  end.

(** Calls that [main] makes in wait-mode only. *)
Definition wait_mode_call (e : Event) : bool :=
  match e with
  | EvSleep _ | EvIsDisconnected _ | EvGetConfiguration _ | EvDisconnect _
  | EvSaveCaps _ | EvRestoreCaps _ _ => true
  | EvHostOpen _ flags _ => negb (flags =? 0)
  | _ => false
  end.

Definition only_in_wait_mode (v wm wt : Z) (e : Event) : bool :=
  negb (wait_mode_call e) || negb (wm =? 0).

(** Within a session the calls of the retry block too are made in wait-mode
    only. *)
Definition session_only_in_wait_mode (v wm wt : Z) (e : Event) : bool :=
  negb (wait_mode_call e || reconnect_event e) || negb (wm =? 0).

(** ** Signals *)

(** A handled signal is counted with one of the calls before call [n]: it
    arrived before the last test of [running] that leads to call [n]. *)
Definition signal_before (w : World) (n : nat) : bool :=
  existsb (w_signal w) (seq 0 n).

(** The flag is down if a signal has been counted so far. *)
Definition flag_heeds_signals (w : World) (s : State) : Prop :=
  signal_before w (calls s) = true -> running s = 0.

(** From a state whose flag heeds the signals: the flag still does; every
    call adds one event; and with the calls before a call of [accept] no
    signal had been counted. *)
Definition accepts_unsignalled (w : World) (s s' : State) : Prop :=
  flag_heeds_signals w s ->
  flag_heeds_signals w s' /\
  exists t, trace s' = trace s ++ t /\
            calls s' = (calls s + length t)%nat /\
            forall i fd, nth_error t i = Some (EvAccept fd) ->
                         signal_before w (calls s + i) = false.

(** [select] is interrupted by a handled signal. *)
Definition interrupted_select_world : World :=
  mkWorld (fun k => Nat.eqb k 3) (fun _ => (1, 0)) (fun _ => 1) (fun _ => [])
          (fun _ => 0) (fun _ => SelectError EINTR)
          (fun _ => mkPump [] None 0)
          (fun _ => 0) (fun _ => 0) (fun _ => (0, 100)) (fun _ => 200)
          (fun _ => []) (fun _ => (0, 200)) (fun _ => 300) (fun _ => 3)
          (fun _ => 0) (fun _ => (5, 0))
          (fun _ => None) true.

(** The state in which [main] reaches its accept loop for the identifier
    1234:abcd. *)
Definition listening_state : State :=
  set_usbproduct 43981 (set_usbvendor 4660 initial_state).

(** ** The wait-mode state machine *)

Definition is_probe (e : Event) : bool :=
  match e with
  | EvGetConfiguration _ => true
  | _ => false
  end.

(** What the event loop reads of the state besides the flag. *)
Definition session_view (s : State) : Z * Z * Z * Z * Z * Z :=
  (client_fd s, host s, ctx s, handle s, wait_mode s, wait_mode_state s).

(** The calls behind the gate of the state machine: the liveness probe, the
    disconnect signal, the pause and the calls of the retry block. *)
Definition gated (e : Event) : bool :=
  match e with
  | EvGetConfiguration _ | EvDisconnect _ | EvSleep _ => true
  | _ => reconnect_event e
  end.

Definition is_close (e : Event) : bool :=
  match e with
  | EvClose _ _ => true
  | _ => false
  end.

(** The device is absent when a client connects, and stays absent. *)
Definition absent_world : World :=
  mkWorld (fun _ => false) (fun _ => (1, 0)) (fun _ => 0) (fun _ => [])
          (fun _ => 0) (fun _ => SelectReady ∅ ∅) (fun _ => mkPump [] None 0)
          (fun _ => 0) (fun _ => 0) (fun _ => (0, 100)) (fun _ => 0)
          (fun _ => []) (fun _ => (0, 200)) (fun _ => 300) (fun _ => 3)
          (fun _ => 0) (fun _ => (5, 0))
          (fun _ => None) true.

(** The same with the wait option, and the state after a first turn of the
    accept loop in which a client has connected and no device was found. *)
Definition waiting_state : State := set_wait_mode 1 listening_state.

Definition parked_state : State :=
  final (accept_body absent_world 1 3 waiting_state).

(** ** Failures of [accept] and [fcntl] *)

(** The [perror] messages of the accept loop. *)
Definition accept_loop_message (m : Message) : bool :=
  match m with
  | MsgPerror what =>
      String.eqb what "accept" || String.eqb what "fcntl F_GETFL"
      || String.eqb what "fcntl F_SETFL O_NONBLOCK"
  | _ => false
  end.

Definition accept_loop_error (e : Event) : bool :=
  match e with
  | EvPrint Stderr m => accept_loop_message m
  | _ => false
  end.

Definition no_accept_loop_error (t : list Event) : Prop :=
  forallb (fun e => negb (accept_loop_error e)) t = true.

(** [accept] fails with ENFILE (23). *)
Definition accept_fails_world : World :=
  mkWorld (fun _ => false) (fun _ => (1, 0)) (fun _ => 0) (fun _ => [])
          (fun _ => 0) (fun _ => SelectReady ∅ ∅) (fun _ => mkPump [] None 0)
          (fun _ => 0) (fun _ => 0) (fun _ => (0, 100)) (fun _ => 200)
          (fun _ => []) (fun _ => (0, 200)) (fun _ => 300) (fun _ => 3)
          (fun _ => 0) (fun _ => (-1, 23))
          (fun _ => None) true.

(** ** The libusb context *)

(** Calls that are handed the libusb context. *)
Definition uses_context (e : Event) : bool :=
  match e with
  | EvSetDebug _ _ | EvGetPollfds _ | EvGetNextTimeout _ | EvHandleEvents _
  | EvGetDeviceList _ | EvOpenVidPid _ _ | EvHostOpen _ _ _ => true
  | _ => false
  end.

(** Whether a context is live after a call: [libusb_init] needs that there
    is none and gives one when it succeeds, [libusb_exit] needs one and ends
    it, a call that is handed the context needs one.  [None] on misuse. *)
Definition libusb_step (live : option bool) (e : Event) : option bool :=
  match live with
  | None => None
  | Some l =>
      match e with
      | EvLibusbInit rc => if l then None else Some (rc =? 0)
      | EvLibusbExit _ => if l then Some false else None
      | _ => if uses_context e then (if l then Some true else None)
             else Some l
      end
  end.

(** From the start of the process, when there is no context. *)
Definition libusb_use (t : list Event) : option bool :=
  fold_left libusb_step t (Some false).

(** From a state with a live context the program uses libusb in order: when
    it gives control back the context is live, and when it exits or is still
    running no misuse has happened. *)
Definition in_context {A} (m : M A) : Prop :=
  forall s, libusb_use (trace s) = Some true ->
    match m s with
    | Normal _ s' | Break s' | Continue s' =>
        libusb_use (trace s') = Some true
    | Exit _ s' | Killed _ s' | Fuel s' => libusb_use (trace s') <> None
    end.

(** ** Exits after start-up *)

(** The program's trace grows, and when it exits it does so with status 1
    right after the message that libusb cannot be initialised. *)
Definition exits_on_init_failure {A} (m : M A) : Prop :=
  forall s,
    grows s (final (m s)) /\
    match m s with
    | Exit c s' =>
        c = 1 /\
        exists t, trace s' = trace s ++ t ++ [EvPrint Stderr MsgNoLibusb]
    | _ => True
    end.

(** No redirection host can be opened. *)
Definition no_host_world : World :=
  mkWorld (fun _ => false) (fun _ => (1, 0)) (fun _ => 0) (fun _ => [])
          (fun _ => 0) (fun _ => SelectReady ∅ ∅) (fun _ => mkPump [] None 0)
          (fun _ => 0) (fun _ => 0) (fun _ => (0, 100)) (fun _ => 200)
          (fun _ => []) (fun _ => (0, 200)) (fun _ => 0) (fun _ => 3)
          (fun _ => 0) (fun _ => (5, 0))
          (fun _ => None) true.
(** * Reasoning about programs in [M] *)

Ltac head t := lazymatch t with ?f _ => head f | _ => t end.

(** The definitions a symbolic run unfolds. *)
Create HintDb prog.
#[local] Hint Unfold
  bind ret gets modify break_ continue_ exit kill when call deliver
  quit_handler nothing print sleep close debug_line
  usbredirserver_read usbredirserver_write learn_caps
  usbredirhost_read_guest_data usbredirhost_write_guest_data
  usbredirhost_has_data_to_write usbredirhost_is_disconnected
  usbredirhost_disconnect usbredirhost_open usbredirhost_close
  usbredirhost_save_caps usbredirhost_restore_caps_and_send_device_connect
  libusb_exit libusb_init libusb_set_debug libusb_handle_events_timeout
  libusb_get_configuration libusb_open find_device retry_body
  select usage invalid_usb_device_id sigaction : prog.

Ltac run := repeat (autounfold with prog; simpl).

Lemma truthy_true z : truthy z = true <-> z <> 0.
Proof. unfold truthy. destruct (Z.eqb_spec z 0); split; auto; discriminate. Qed.

Lemma truthy_false z : truthy z = false <-> z = 0.
Proof.
  unfold truthy. destruct (Z.eqb_spec z 0); split; auto; try discriminate.
  contradiction.
Qed.

(** Turns the recorded tests into equations and disequations. *)
Ltac tests_in_context :=
  repeat match goal with
  | H : negb _ = true |- _ => apply negb_true_iff in H
  | H : negb _ = false |- _ => apply negb_false_iff in H
  | H : truthy _ = true |- _ => apply truthy_true in H
  | H : truthy _ = false |- _ => apply truthy_false in H
  | H : (_ =? _) = true |- _ => apply Z.eqb_eq in H
  | H : (_ =? _) = false |- _ => apply Z.eqb_neq in H
  | H : (_ && _) = true |- _ => apply andb_prop in H; destruct H
  end.

(** Case analysis on a test that contains no other test and is not a run of
    a program. *)
Ltac case_atom :=
  match goal with
  | |- context [match ?x with _ => _ end] =>
      lazymatch x with
      | context [match _ with _ => _ end] => fail
      | _ =>
          lazymatch type of x with
          | Outcome _ => fail
          | _ => destruct x eqn:?
          end
      end
  end.

(** ** State-to-state relations kept by every step *)

Section Preserves.
Context (R : State -> State -> Prop) `{!PreOrder R}.

Lemma preserves_ret {A} (a : A) : preserves R (ret a).
Proof. intros s. reflexivity. Qed.

Lemma preserves_gets {A} (f : State -> A) : preserves R (gets f).
Proof. intros s. reflexivity. Qed.

Lemma preserves_break {A} : preserves R (@break_ A).
Proof. intros s. reflexivity. Qed.

Lemma preserves_continue {A} : preserves R (@continue_ A).
Proof. intros s. reflexivity. Qed.

Lemma preserves_exit {A} c : preserves R (@exit A c).
Proof. intros s. reflexivity. Qed.

Lemma preserves_kill {A} sig : preserves R (@kill A sig).
Proof. intros s. reflexivity. Qed.

Lemma preserves_bind {A B} (m : M A) (k : A -> M B) :
  preserves R m -> (forall a, preserves R (k a)) -> preserves R (bind m k).
Proof.
  intros Hm Hk s. unfold bind. specialize (Hm s).
  destruct (m s) as [a s'| | | | |]; simpl in *; auto.
  etransitivity; [exact Hm | apply Hk].
Qed.

Lemma preserves_when b (m : M unit) : preserves R m -> preserves R (when b m).
Proof. intros Hm. destruct b; simpl; [exact Hm | apply preserves_ret]. Qed.

Lemma preserves_while fuel cond (body : M unit) :
  preserves R body -> preserves R (while fuel cond body).
Proof.
  intros Hb. induction fuel as [|fuel IH]; intros s; simpl.
  - destruct (cond s); reflexivity.
  - destruct (cond s); [|reflexivity].
    specialize (Hb s). destruct (body s); simpl in *; auto;
      (etransitivity; [exact Hb | apply IH]).
Qed.
End Preserves.

(** Walks through a program; [leaf] closes the outside calls and the
    assignments. *)
Ltac preserve leaf :=
  lazymatch goal with
  | |- PreOrder _ => exact _
  | |- forall _, _ => intros ?; cbv beta; preserve leaf
  | |- preserves _ (bind _ _) => apply preserves_bind; preserve leaf
  | |- preserves _ (ret _) => apply preserves_ret; preserve leaf
  | |- preserves _ (gets _) => apply preserves_gets; preserve leaf
  | |- preserves _ break_ => apply preserves_break; preserve leaf
  | |- preserves _ continue_ => apply preserves_continue; preserve leaf
  | |- preserves _ (exit _) => apply preserves_exit; preserve leaf
  | |- preserves _ (kill _) => apply preserves_kill; preserve leaf
  | |- preserves _ (when _ _) => apply preserves_when; preserve leaf
  | |- preserves _ (while _ _ _) => apply preserves_while; preserve leaf
  | |- preserves _ (call _ _ _) => leaf
  | |- preserves _ (modify _) => leaf
  | |- preserves _ (if ?b then _ else _) => destruct b; preserve leaf
  | |- preserves _ (match ?x with _ => _ end) => destruct x; preserve leaf
  | |- preserves _ ?m =>
      first [ solve [leaf]
            | let h := head m in progress unfold h; preserve leaf ]
  end.

(** ** The trace only grows *)

#[local] Instance grows_preorder : PreOrder grows.
Proof.
  split.
  - intros s. exists []. symmetry. apply app_nil_r.
  - intros a b c [t1 H1] [t2 H2]. exists (t1 ++ t2).
    rewrite H2, H1. symmetry. apply app_assoc.
Qed.

Ltac grows_leaf :=
  first [ solve [auto]
        | let s := fresh "s" in
          intros s; unfold grows, call, deliver; simpl; eexists; reflexivity
        | let s := fresh "s" in
          intros s; exists []; simpl; repeat case_match; simpl;
          symmetry; apply app_nil_r ].

Lemma run_callbacks_grows w cs : preserves grows (run_callbacks w cs).
Proof. induction cs as [|[] cs IH]; simpl; preserve grows_leaf. Qed.


Lemma main_grows w fuel argv0 opts args : preserves grows (main w fuel argv0 opts args).
Proof.
  assert (forall cs, preserves grows (run_callbacks w cs)) by apply run_callbacks_grows.
  assert (forall p, preserves grows (parse_options w argv0 opts p)).
  { induction opts as [|[o a] opts IH]; intros p; simpl; preserve grows_leaf. }
  preserve grows_leaf.
Qed.

(** ** Peer close: the three judgments *)

Lemma no_peer_close_app t1 t2 :
  no_peer_close t1 -> no_peer_close t2 -> no_peer_close (t1 ++ t2).
Proof.
  unfold no_peer_close. intros H1 H2. rewrite forallb_app, H1, H2. reflexivity.
Qed.

Lemma all_quiet_app t1 t2 : all_quiet t1 -> all_quiet t2 -> all_quiet (t1 ++ t2).
Proof.
  unfold all_quiet. intros H1 H2. rewrite forallb_app, H1, H2. reflexivity.
Qed.

Lemma closed_quietly_app_l t1 t2 :
  no_peer_close t1 -> closed_quietly t2 -> closed_quietly (t1 ++ t2).
Proof.
  intros H1 (u1 & e & u2 & -> & Hu1 & He & Hu2).
  exists (t1 ++ u1), e, u2. rewrite <- app_assoc.
  auto using no_peer_close_app.
Qed.

Lemma closed_quietly_app_r t1 t2 :
  closed_quietly t1 -> all_quiet t2 -> closed_quietly (t1 ++ t2).
Proof.
  intros (u1 & e & u2 & -> & Hu1 & He & Hu2) H2.
  exists u1, e, (u2 ++ t2). rewrite <- app_assoc. simpl.
  auto using all_quiet_app.
Qed.

#[local] Instance steady_step_preorder : PreOrder steady_step.
Proof.
  split.
  - intros s. split; [reflexivity|]. exists []. split; [|reflexivity].
    symmetry. apply app_nil_r.
  - intros a b c [F1 (t1 & T1 & N1)] [F2 (t2 & T2 & N2)]. split; [congruence|].
    exists (t1 ++ t2). split; [|apply no_peer_close_app; assumption].
    rewrite T2, T1. symmetry. apply app_assoc.
Qed.

Ltac steady_leaf :=
  first [ solve [auto]
        | let s := fresh "s" in
          intros s; unfold steady_step, call, deliver; simpl;
          repeat case_match; simpl;
          (split; [reflexivity|]);
          first [ eexists; split; [reflexivity|reflexivity]
                | exists []; split; [symmetry; apply app_nil_r|reflexivity] ] ].

Ltac steady_auto := unfold steady; preserve steady_leaf.

Section Judgments.
Context {A B : Type}.

Lemma steady_safe (m : M A) : steady m -> safe m.
Proof.
  intros H s _. destruct (H s) as [F (t & T & N)]. exists t. auto.
Qed.

Lemma safe_bind_steady (m : M A) (k : A -> M B) :
  steady m -> (forall a, safe (k a)) -> safe (bind m k).
Proof.
  intros Hm Hk s Hs. destruct (Hm s) as [F (t & T & N)]. unfold bind.
  destruct (m s) as [a s1| | | | |]; simpl in *;
    try (exists t; split; [exact T|left; auto]).
  destruct (Hk a s1) as (t2 & T2 & H2); [congruence|].
  exists (t ++ t2). split; [rewrite T2, T; symmetry; apply app_assoc|].
  destruct H2 as [[F2 N2]|(F2 & O2 & C2)].
  - left. split; [congruence|]. apply no_peer_close_app; assumption.
  - right. repeat split; auto. apply closed_quietly_app_l; assumption.
Qed.

Lemma safe_bind (m : M A) (k : A -> M B) :
  safe m -> (forall a, safe (k a)) -> (forall a, calm (k a)) ->
  safe (bind m k).
Proof.
  intros Hm Hk Hc s Hs. destruct (Hm s Hs) as (t & T & H). unfold bind.
  destruct (m s) as [a s1| | | | |]; simpl in *;
    try (exists t; split; [exact T|]; destruct H as [?|(? & ? & ?)];
         [left; assumption | right; auto]).
  destruct H as [[F N]|(F & O & C)].
  - destruct (Hk a s1) as (t2 & T2 & H2); [congruence|].
    exists (t ++ t2). split; [rewrite T2, T; symmetry; apply app_assoc|].
    destruct H2 as [[F2 N2]|(F2 & O2 & C2)].
    + left. split; [congruence|]. apply no_peer_close_app; assumption.
    + right. repeat split; auto. apply closed_quietly_app_l; assumption.
  - destruct (Hc a s1 F) as (O2 & F2 & t2 & T2 & Q2).
    exists (t ++ t2). split; [rewrite T2, T; symmetry; apply app_assoc|].
    right. repeat split; auto. apply closed_quietly_app_r; assumption.
Qed.

Lemma calm_bind (m : M A) (k : A -> M B) :
  calm m -> (forall a, calm (k a)) -> calm (bind m k).
Proof.
  intros Hm Hk s Hs. destruct (Hm s Hs) as (O & F & t & T & Q). unfold bind.
  destruct (m s) as [a s1| | | | |]; simpl in *; try contradiction;
    try (repeat split; auto; exists t; auto).
  destruct (Hk a s1 F) as (O2 & F2 & t2 & T2 & Q2).
  repeat split; auto. exists (t ++ t2).
  split; [rewrite T2, T; symmetry; apply app_assoc|].
  apply all_quiet_app; assumption.
Qed.
End Judgments.

Lemma safe_ret {A} (a : A) : safe (ret a).
Proof. apply steady_safe. steady_auto. Qed.

Lemma calm_ret {A} (a : A) : calm (ret a).
Proof.
  intros s Hs. repeat split; auto. exists []. split; [|reflexivity].
  symmetry. apply app_nil_r.
Qed.

Lemma calm_gets {A} (f : State -> A) : calm (gets f).
Proof. apply (calm_ret tt). Qed.

Lemma calm_break {A} : calm (@break_ A).
Proof. apply (calm_ret tt). Qed.

Lemma calm_continue {A} : calm (@continue_ A).
Proof. apply (calm_ret tt). Qed.

Lemma safe_when b (m : M unit) : safe m -> safe (when b m).
Proof. intros H. destruct b; simpl; [exact H|apply safe_ret]. Qed.

Lemma calm_when b (m : M unit) : calm m -> calm (when b m).
Proof. intros H. destruct b; simpl; [exact H|apply calm_ret]. Qed.

(** The guards of the source that stop a closed channel from being used. *)
Lemma calm_guard_break {B} (k : Z -> unit -> M B) :
  calm (bind (gets client_fd) (fun fd => bind (when (fd =? -1) break_) (k fd))).
Proof.
  intros s Hs. unfold bind, gets. simpl. rewrite Hs. simpl.
  apply (calm_break s Hs).
Qed.

Lemma calm_guard_when (c : Z -> bool) (m : Z -> M unit) :
  calm (bind (gets client_fd) (fun fd => when (c fd && negb (fd =? -1)) (m fd))).
Proof.
  intros s Hs. unfold bind, gets. simpl. rewrite Hs. simpl.
  rewrite andb_false_r. apply (calm_ret tt s Hs).
Qed.

(** With the channel closed [client_fd] reads as -1, and a [write] on it
    raises no SIGPIPE. *)
Lemma calm_fd {B} (k : Z -> M B) :
  calm (k (-1)) -> calm (bind (gets client_fd) k).
Proof. intros H s Hs. unfold bind, gets. rewrite Hs. apply H. exact Hs. Qed.

Lemma raises_sigpipe_closed r errno : raises_sigpipe (-1) r errno = false.
Proof. unfold raises_sigpipe. simpl. apply andb_false_r. Qed.

Section Loops.
Variables (cond : State -> bool) (body : M unit).
Hypothesis cond_open : forall s, cond s = true -> client_fd s <> -1.

Lemma calm_while fuel : calm (while fuel cond body).
Proof.
  intros s Hs. destruct (cond s) eqn:C.
  - apply cond_open in C. contradiction.
  - destruct fuel; simpl; rewrite C; apply (calm_ret tt s Hs).
Qed.

Lemma safe_while fuel : safe body -> safe (while fuel cond body).
Proof.
  intros Hb. induction fuel as [|fuel IH]; intros s Hs; simpl.
  - destruct (cond s); [|apply (safe_ret tt s Hs)].
    exists []. split; [symmetry; apply app_nil_r|left; split; reflexivity].
  - destruct (cond s) eqn:C; [|apply (safe_ret tt s Hs)].
    destruct (Hb s Hs) as (t & T & H).
    destruct (body s) as [a s1|s1|s1|c s1|sg s1|s1]; simpl in *.
    1,3: destruct H as [[F N]|(F & O & Q)];
      [ destruct (IH s1) as (t2 & T2 & H2); [congruence|];
        exists (t ++ t2); split; [rewrite T2, T; symmetry; apply app_assoc|];
        destruct H2 as [[F2 N2]|(F2 & O2 & C2)];
        [ left; split; [congruence|apply no_peer_close_app; assumption]
        | right; repeat split; auto; apply closed_quietly_app_l; assumption ]
      | destruct (calm_while fuel s1 F) as (O2 & F2 & t2 & T2 & Q2);
        exists (t ++ t2); split; [rewrite T2, T; symmetry; apply app_assoc|];
        right; repeat split; auto; apply closed_quietly_app_r; assumption ].
    all: exists t; split; [exact T|];
      destruct H as [?|(? & ? & ?)]; [left; assumption|right; auto].
Qed.
End Loops.

Ltac calm_leaf :=
  first [ solve [auto]
        | let s := fresh "s" in let Hs := fresh "Hs" in
          intros s Hs; unfold calm_post, call, modify, deliver; simpl;
          repeat case_match; simpl;
          (split; [exact I|]); (split; [first [exact Hs|reflexivity]|]);
          first [ eexists; split; [reflexivity|reflexivity]
                | exists []; split; [symmetry; apply app_nil_r|reflexivity] ] ].

Ltac calm_auto :=
  lazymatch goal with
  | |- forall _, _ => intros ?; cbv beta; calm_auto
  | |- calm (bind (gets client_fd)
               (fun fd => bind (when (fd =? -1) break_) _)) =>
      apply (calm_guard_break (fun fd _ => _))
  | |- calm (bind (gets client_fd) (fun fd => when (_ && negb (fd =? -1)) _)) =>
      apply (calm_guard_when (fun fd => _) (fun fd => _))
  | |- calm (bind (gets client_fd) _) => apply calm_fd; cbv beta; calm_auto
  | |- calm (when (raises_sigpipe (-1) _ _ && _) _) =>
      rewrite raises_sigpipe_closed; apply calm_ret
  | |- calm (bind _ _) => apply calm_bind; calm_auto
  | |- calm (ret _) => apply calm_ret
  | |- calm (gets _) => apply calm_gets
  | |- calm break_ => apply calm_break
  | |- calm continue_ => apply calm_continue
  | |- calm (when _ _) => apply calm_when; calm_auto
  | |- calm (while _ _ _) =>
      apply calm_while; let s := fresh "s" in let H := fresh "H" in
      intros s H; simpl in H;
      repeat (apply andb_prop in H; destruct H as [? H]);
      apply negb_true_iff in H; apply Z.eqb_neq in H; exact H
  | |- calm (call _ _ _) => calm_leaf
  | |- calm (modify _) => calm_leaf
  | |- calm (if ?b then _ else _) => destruct b; calm_auto
  | |- calm (match ?x with _ => _ end) => destruct x; calm_auto
  | |- calm ?m =>
      first [ solve [calm_leaf]
            | let h := head m in progress unfold h; calm_auto ]
  end.

Lemma safe_peer_close w site fd :
  peer_close (EvClose site fd) = true ->
  safe (bind (close w site fd) (fun _ => modify (set_client_fd (-1)))).
Proof.
  intros H s Hs. unfold bind, close, call, modify, deliver. simpl.
  eexists. split; [reflexivity|]. right. repeat split; auto.
  exists [], (EvClose site fd), []. repeat split; auto.
Qed.

Lemma safe_peer_close_then {B} w site fd (k : unit -> M B) :
  peer_close (EvClose site fd) = true ->
  (forall u, calm (k u)) ->
  safe (bind (close w site fd)
          (fun _ => bind (modify (set_client_fd (-1))) k)).
Proof.
  intros H Hk s Hs.
  pose (s1 := set_client_fd (-1)
                (deliver (w_signal w (calls s))
                   (set_trace (trace s ++ [EvClose site fd])
                      (set_calls (S (calls s)) s)))).
  change (safe_post s (k tt s1)).
  destruct (Hk tt s1) as (O & F & t & T & Q); [reflexivity|].
  exists (EvClose site fd :: t). split.
  - rewrite T. simpl. rewrite <- app_assoc. reflexivity.
  - right. repeat split; auto.
    exists [], (EvClose site fd), t. repeat split; auto.
Qed.

Ltac safe_auto :=
  lazymatch goal with
  | |- forall _, _ => intros ?; cbv beta; safe_auto
  | |- safe (bind (close _ _ _)
               (fun _ => bind (modify (set_client_fd (-1))) _)) =>
      apply safe_peer_close_then; [reflexivity | solve [calm_auto]]
  | |- safe (bind (close _ _ _) (fun _ => modify (set_client_fd (-1)))) =>
      apply safe_peer_close; reflexivity
  | |- safe (bind _ _) =>
      first [ apply safe_bind_steady; [solve [steady_auto] | safe_auto]
            | apply safe_bind; [safe_auto | safe_auto | solve [calm_auto]] ]
  | |- safe (when _ _) => apply safe_when; safe_auto
  | |- safe (while _ _ _) =>
      apply safe_while;
      [ let s := fresh "s" in let H := fresh "H" in
        intros s H; simpl in H;
        repeat (apply andb_prop in H; destruct H as [? H]);
        apply negb_true_iff in H; apply Z.eqb_neq in H; exact H
      | safe_auto ]
  | |- safe (if ?b then _ else _) => destruct b; safe_auto
  | |- safe (match ?x with _ => _ end) => destruct x; safe_auto
  | |- safe ?m =>
      first [ solve [auto]
            | solve [apply steady_safe; steady_auto]
            | let h := head m in progress unfold h; safe_auto ]
  end.


(** * The Transport Channel within a session *)

Lemma run_callbacks_calm w cs : calm (run_callbacks w cs).
Proof. induction cs as [|[] cs IH]; simpl; calm_auto. Qed.

Lemma run_callbacks_safe w cs : safe (run_callbacks w cs).
Proof.
  pose proof (run_callbacks_calm w) as Hc.
  induction cs as [|[] cs IH]; simpl; safe_auto.
Qed.

Lemma retry_loop_safe w fuel : safe (retry_loop w fuel).
Proof.
  pose proof (run_callbacks_calm w) as Hc.
  pose proof (run_callbacks_safe w) as Hs.
  safe_auto.
Qed.

Lemma iteration_safe w fuel : safe (iteration w fuel).
Proof.
  pose proof (run_callbacks_calm w) as Hc.
  pose proof (run_callbacks_safe w) as Hs.
  pose proof (retry_loop_safe w fuel) as Hr.
  safe_auto.
Qed.

(** Once the channel is closed, the wait-mode part of an iteration does not
    get to the reconnection block: it asks the protocol layer whether the
    device is disconnected, at most. *)
Lemma wait_mode_step_closed w fuel n s :
  client_fd s = -1 ->
  exists t, trace (final (wait_mode_step w fuel n s)) = trace s ++ t /\
            (t = [] \/ t = [EvIsDisconnected (host s)]).
Proof.
  intros H. unfold wait_mode_step, usbredirhost_is_disconnected. run.
  destruct (truthy (wait_mode s)); simpl;
    [|exists []; split; [symmetry; apply app_nil_r|auto]].
  exists [EvIsDisconnected (host s)]. split; [|auto].
  destruct ((w_is_disconnected w (calls s) =? 0) && (wait_mode_state s =? 0));
    simpl; [reflexivity|].
  rewrite H. simpl. rewrite andb_false_r. reflexivity.
Qed.

(** C2.  If, during an iteration of the event loop, the Transport Channel
    reports that the peer closed ([client_fd] becomes -1), then after that
    report the iteration makes no outbound pump and no call of the retry
    block, whatever [wait_mode] is and whether or not outbound data is
    pending, and the loop ends with that iteration: it returns normally in
    the state the iteration left.  When the report comes while data is
    dispatched, the reconnection block is not entered at all: the iteration
    only asks, at most, whether the device is disconnected. *)
Theorem peer_close_ends_session (w : World) (fuel n : nat) (s : State) :
  client_fd s <> -1 ->
  truthy (running s) = true ->
  client_fd (final (iteration w fuel s)) = -1 ->
  (exists t, trace (final (iteration w fuel s)) = trace s ++ t /\
             closed_quietly t) /\
  while (S n) (fun s => truthy (running s) && negb (client_fd s =? -1))
        (iteration w fuel) s
  = Normal tt (final (iteration w fuel s)) /\
  (client_fd (final (poll_and_dispatch w s)) = -1 ->
   exists t,
     trace (final (iteration w fuel s))
     = trace (final (poll_and_dispatch w s)) ++ t /\
     (t = [] \/
      t = [EvIsDisconnected (host (final (poll_and_dispatch w s)))])).
Proof.
  intros Hfd Hrun Hclosed.
  destruct (iteration_safe w fuel s Hfd) as (t & T & [[F _]|(_ & O & Q)]);
    [congruence|].
  split; [exists t; auto|]. split.
  - simpl. rewrite Hrun, (proj2 (Z.eqb_neq _ _) Hfd). simpl.
    destruct (iteration w fuel s) as [[] s1|s1|s1|c s1|sg s1|s1]; simpl in *;
      try contradiction; try reflexivity;
      destruct n; simpl; rewrite Hclosed, andb_false_r; reflexivity.
  - clear. unfold iteration, bind.
    destruct (poll_and_dispatch w s) as [sel s1|s1|s1|c s1|sg s1|s1]; simpl;
      intros H; try (exists []; split; [symmetry; apply app_nil_r|auto]).
    apply wait_mode_step_closed. exact H.
Qed.

Lemma peer_close_ends_session_witness :
  (exists t,
     trace (final (iteration peer_closes_world 1 (session_state 1)))
       = trace (session_state 1) ++ t /\ closed_quietly t) /\
  while 2 (fun s => truthy (running s) && negb (client_fd s =? -1))
        (iteration peer_closes_world 1) (session_state 1)
  = Normal tt (final (iteration peer_closes_world 1 (session_state 1))) /\
  (client_fd (final (poll_and_dispatch peer_closes_world (session_state 1)))
   = -1 ->
   exists t,
     trace (final (iteration peer_closes_world 1 (session_state 1)))
     = trace (final (poll_and_dispatch peer_closes_world (session_state 1)))
       ++ t /\
     (t = [] \/
      t = [EvIsDisconnected
             (host (final (poll_and_dispatch peer_closes_world
                             (session_state 1))))])).
Proof.
  apply (peer_close_ends_session peer_closes_world 1 1 (session_state 1)).
  - discriminate.
  - reflexivity.
  - vm_compute. reflexivity.
Defined.

Lemma no_engine_close_app t1 t2 :
  no_engine_close t1 -> no_engine_close t2 -> no_engine_close (t1 ++ t2).
Proof.
  unfold no_engine_close. intros H1 H2. rewrite forallb_app, H1, H2. reflexivity.
Qed.

#[local] Instance engine_idle_preorder : PreOrder engine_idle.
Proof.
  split.
  - intros s. exists []. split; [|reflexivity]. symmetry. apply app_nil_r.
  - intros a b c (t1 & T1 & N1) (t2 & T2 & N2).
    exists (t1 ++ t2). split; [|apply no_engine_close_app; assumption].
    rewrite T2, T1. symmetry. apply app_assoc.
Qed.

Ltac engine_idle_leaf :=
  first [ solve [auto]
        | let s := fresh "s" in
          intros s; unfold engine_idle, call, deliver; simpl;
          repeat case_match; simpl;
          first [ eexists; split; [reflexivity|reflexivity]
                | exists []; split; [symmetry; apply app_nil_r|reflexivity] ] ].

Lemma run_callbacks_engine_idle w cs : preserves engine_idle (run_callbacks w cs).
Proof. induction cs as [|[] cs IH]; simpl; preserve engine_idle_leaf. Qed.

Lemma iteration_engine_idle w fuel : preserves engine_idle (iteration w fuel).
Proof.
  pose proof (run_callbacks_engine_idle w) as Hc.
  preserve engine_idle_leaf.
Qed.

Lemma closed_quietly_has_peer_close t :
  closed_quietly t -> no_peer_close t -> False.
Proof.
  intros (t1 & e & t2 & -> & _ & He & _) H. unfold no_peer_close in H.
  rewrite forallb_app in H. simpl in H. rewrite He in H. simpl in H.
  rewrite andb_false_r in H. discriminate.
Qed.

(** C1 (as amended).  In wait-mode as outside it, the iterations of the event
    loop, the reconnection block included, never close the Transport Channel
    on the engine's account: within the loop [client_fd] is closed only by a
    transport callback, when the peer closes.  The engine's own [close] comes
    after the loop, as the last call of the session, exactly when the loop was
    left with the channel still open (a pump error, a [select] error or the
    termination flag), and this does not depend on [wait_mode]. *)
Theorem session_close_discipline (w : World) (fuel : nat) (s : State) :
  engine_idle s (final (iteration w fuel s)) /\
  forall s',
    client_fd s <> -1 ->
    run_main_loop w fuel s = Normal tt s' ->
    client_fd s' = -1 /\
    exists t, trace s' = trace s ++ t /\
      ((closed_quietly t /\ no_engine_close t) \/
       (exists t0, t = t0 ++ [EvClose AtLoopExit (client_fd s)] /\
                   no_peer_close t0 /\ no_engine_close t0)).
Proof.
  split; [apply iteration_engine_idle|].
  intros s' Hfd Hrun.
  unfold run_main_loop, bind, modify in Hrun. simpl in Hrun.
  set (s0 := set_wait_mode_state 0 s) in *.
  set (loop := while fuel _ _) in *.
  assert (Hsafe : safe loop).
  { subst loop. pose proof (iteration_safe w fuel). safe_auto. }
  assert (Hidle : preserves engine_idle loop).
  { subst loop. pose proof (iteration_engine_idle w fuel).
    preserve engine_idle_leaf. }
  destruct (Hsafe s0 Hfd) as (t & T & H).
  destruct (Hidle s0) as (t' & T' & N').
  assert (t' = t) as -> by (rewrite T in T'; eapply app_inv_head; eauto).
  destruct (loop s0) as [[] s1| | | | |]; try discriminate Hrun.
  simpl in *. unfold gets, when, close, call, modify, ret, deliver in Hrun.
  change (trace s0) with (trace s) in T.
  change (client_fd s0) with (client_fd s) in H.
  destruct H as [[F N]|(F & _ & Q)].
  - rewrite F, (proj2 (Z.eqb_neq _ _) Hfd) in Hrun. simpl in Hrun.
    injection Hrun as <-. simpl. split; [reflexivity|].
    exists (t ++ [EvClose AtLoopExit (client_fd s)]).
    split; [rewrite T; symmetry; apply app_assoc|].
    right. exists t. auto.
  - rewrite F in Hrun. simpl in Hrun. injection Hrun as <-.
    split; [exact F|]. exists t. split; [exact T|]. left. auto.
Qed.

Lemma session_close_discipline_witness :
  client_fd (final (run_main_loop parse_error_world 2 (session_state 1))) = -1 /\
  exists t,
    trace (final (run_main_loop parse_error_world 2 (session_state 1)))
      = trace (session_state 1) ++ t /\
    ((closed_quietly t /\ no_engine_close t) \/
     (exists t0, t = t0 ++ [EvClose AtLoopExit (client_fd (session_state 1))] /\
                 no_peer_close t0 /\ no_engine_close t0)).
Proof.
  apply (proj2 (session_close_discipline parse_error_world 2 (session_state 1))).
  - discriminate.
  - vm_compute. reflexivity.
Defined.

(** C1 as stated fails: with [wait_mode] set, an inbound pump that returns a
    parse error ends the session although the peer has not closed; the engine
    closes descriptor 5 itself. *)
Lemma wait_mode_pump_error_closes :
  wait_mode (session_state 1) = 1 /\
  exists s',
    run_main_loop parse_error_world 2 (session_state 1) = Normal tt s' /\
    client_fd s' = -1 /\
    trace s' = [EvHasDataToWrite 300; EvGetPollfds 100; EvGetNextTimeout 100;
                EvSelect 6 (WaitTimeout 3); EvPumpIn 300; EvRead 5;
                EvClose AtLoopExit 5] /\
    no_peer_close (trace s').
Proof.
  split; [reflexivity|]. eexists. split; [vm_compute; reflexivity|].
  repeat split.
Qed.

(** * The termination flag and the retry block *)

Section Oblivious.
Context {A B : Type}.

Lemma oblivious_ret (a : A) : oblivious (ret a) (ret a).
Proof. intros s1 s2 H. simpl. rewrite H. reflexivity. Qed.

Lemma oblivious_break : oblivious (@break_ A) break_.
Proof. intros s1 s2 H. simpl. rewrite H. reflexivity. Qed.

Lemma oblivious_continue : oblivious (@continue_ A) continue_.
Proof. intros s1 s2 H. simpl. rewrite H. reflexivity. Qed.

Lemma oblivious_exit c : oblivious (@exit A c) (exit c).
Proof. intros s1 s2 H. simpl. rewrite H. reflexivity. Qed.

Lemma oblivious_kill sig : oblivious (@kill A sig) (kill sig).
Proof. intros s1 s2 H. simpl. rewrite H. reflexivity. Qed.

Lemma oblivious_gets (f : State -> A) :
  (forall s, f (blind s) = f s) -> oblivious (gets f) (gets f).
Proof.
  intros Hf s1 s2 H. simpl. rewrite H, <- (Hf s1), <- (Hf s2), H. reflexivity.
Qed.

Lemma oblivious_modify (f : State -> State) :
  (forall s, blind (f (blind s)) = blind (f s)) ->
  oblivious (modify f) (modify f).
Proof.
  intros Hf s1 s2 H. simpl. rewrite <- (Hf s1), <- (Hf s2), H. reflexivity.
Qed.

Lemma oblivious_call w1 w2 (answer : World -> nat -> A) ev :
  (forall k, answer w1 k = answer w2 k) ->
  oblivious (call w1 answer ev) (call w2 answer ev).
Proof.
  intros Ha s1 s2 H. unfold call, deliver. simpl.
  assert (Hc : calls s1 = calls s2) by exact (f_equal calls H).
  assert (Ht : trace s1 = trace s2) by exact (f_equal trace H).
  rewrite Hc, Ht, Ha. f_equal.
  destruct s1, s2. unfold blind, set_running in *. simpl in *.
  injection H as -> -> -> -> -> -> -> -> -> -> -> -> -> _ _.
  reflexivity.
Qed.

Lemma oblivious_bind (m1 m2 : M A) (k1 k2 : A -> M B) :
  oblivious m1 m2 -> (forall a, oblivious (k1 a) (k2 a)) ->
  oblivious (bind m1 k1) (bind m2 k2).
Proof.
  intros Hm Hk s1 s2 H. specialize (Hm s1 s2 H). unfold bind.
  destruct (m1 s1), (m2 s2); simpl in Hm; try discriminate Hm;
    try (simpl; congruence).
  assert (a = a0 /\ blind s = blind s0) as [-> Hs] by (split; congruence).
  apply Hk. exact Hs.
Qed.
End Oblivious.

Lemma oblivious_when b (m1 m2 : M unit) :
  oblivious m1 m2 -> oblivious (when b m1) (when b m2).
Proof. intros H. destruct b; simpl; [exact H|apply oblivious_ret]. Qed.

Lemma oblivious_while fuel cond (body1 body2 : M unit) :
  (forall s, cond (blind s) = cond s) ->
  oblivious body1 body2 ->
  oblivious (while fuel cond body1) (while fuel cond body2).
Proof.
  intros Hc Hb. induction fuel as [|fuel IH]; intros s1 s2 H; simpl;
    rewrite <- (Hc s1), <- (Hc s2), H; destruct (cond (blind s2));
    simpl; try (rewrite H; reflexivity).
  specialize (Hb s1 s2 H).
  destruct (body1 s1), (body2 s2); simpl in Hb; try discriminate Hb;
    try (simpl; congruence).
  - apply IH. congruence.
  - apply IH. congruence.
Qed.

Ltac oblivious_auto :=
  lazymatch goal with
  | |- forall _, _ => intros ?; cbv beta; oblivious_auto
  | |- oblivious (bind _ _) (bind _ _) => apply oblivious_bind; oblivious_auto
  | |- oblivious (ret _) (ret _) => apply oblivious_ret
  | |- oblivious break_ break_ => apply oblivious_break
  | |- oblivious continue_ continue_ => apply oblivious_continue
  | |- oblivious (exit _) (exit _) => apply oblivious_exit
  | |- oblivious (kill _) (kill _) => apply oblivious_kill
  | |- oblivious (gets _) (gets _) => apply oblivious_gets; reflexivity
  | |- oblivious (modify _) (modify _) =>
      apply oblivious_modify; let s := fresh "s" in
      intros s; simpl; repeat case_match; reflexivity
  | |- oblivious (call _ _ _) (call _ _ _) => apply oblivious_call; reflexivity
  | |- oblivious (when _ _) (when _ _) => apply oblivious_when; oblivious_auto
  | |- oblivious (while _ _ _) (while _ _ _) =>
      apply oblivious_while; [reflexivity | oblivious_auto]
  | |- oblivious (if ?b then _ else _) _ => destruct b; oblivious_auto
  | |- oblivious (match ?x with _ => _ end) _ => destruct x; oblivious_auto
  | |- oblivious ?m1 ?m2 =>
      first [ solve [auto]
            | let h := head m1 in progress unfold h; oblivious_auto ]
  end.

Lemma run_callbacks_oblivious w sig cs :
  oblivious (run_callbacks (with_signals sig w) cs) (run_callbacks w cs).
Proof. induction cs as [|[] cs IH]; simpl; oblivious_auto. Qed.

Lemma retry_loop_oblivious w sig fuel :
  oblivious (retry_loop (with_signals sig w) fuel) (retry_loop w fuel).
Proof.
  pose proof (run_callbacks_oblivious w sig) as Hc.
  oblivious_auto.
Qed.

#[local] Instance binding_kept_preorder : PreOrder binding_kept.
Proof.
  split.
  - intros s. repeat split.
  - intros a b c (H1 & H2 & H3) (H4 & H5 & H6). repeat split; congruence.
Qed.

Ltac binding_leaf :=
  first [ solve [auto]
        | let s := fresh "s" in
          intros s; unfold binding_kept, call, deliver; simpl;
          repeat case_match; simpl; repeat split; reflexivity ].

Lemma usbredirserver_read_spec w s :
  exists r s1, usbredirserver_read w s = Normal r s1 /\ binding_kept s s1.
Proof.
  run. destruct (w_io w (calls s)) as [r e]. simpl.
  repeat (case_atom; simpl); eexists _, _; (split; [reflexivity|]);
    repeat split.
Qed.

(** The write callback returns, or the process dies of SIGPIPE in it. *)
Lemma usbredirserver_write_spec w s :
  (exists r s1, usbredirserver_write w s = Normal r s1 /\ binding_kept s s1) \/
  (exists s1, usbredirserver_write w s = Killed SIGPIPE s1 /\
              w_sigpipe_fatal w = true).
Proof.
  run. destruct (w_io w (calls s)) as [r e]. simpl.
  destruct (raises_sigpipe (client_fd s) r e) eqn:?; simpl;
    [destruct (w_sigpipe_fatal w) eqn:?; simpl;
     [right; eexists; split; reflexivity|]|];
    left; repeat (case_atom; simpl); eexists _, _; (split; [reflexivity|]);
    repeat split.
Qed.

Lemma run_callbacks_spec w cs s :
  (exists s1, run_callbacks w cs s = Normal tt s1 /\ binding_kept s s1) \/
  (exists s1, run_callbacks w cs s = Killed SIGPIPE s1 /\
              w_sigpipe_fatal w = true).
Proof.
  revert s. induction cs as [|c cs IH]; intros s; simpl.
  - left. exists s. split; reflexivity.
  - destruct c; unfold bind;
      [ destruct (usbredirserver_read_spec w s) as (r & s0 & E & K)
      | destruct (usbredirserver_write_spec w s)
          as [(r & s0 & E & K)|(s0 & E & F)] ];
      rewrite E; try (right; exists s0; split; [reflexivity|exact F]);
      (destruct (IH s0) as [(s1 & E1 & K1)|(s1 & E1 & F1)];
       [ left; exists s1; (split; [exact E1|]); etransitivity; eassumption
       | right; exists s1; split; assumption ]).
Qed.

(** What one turn of the retry block can do. *)
Lemma retry_body_outcome w s :
  match retry_body w s with
  | Normal _ s1 | Continue s1 =>
      client_fd s1 = client_fd s /\ host s1 = host s /\
      host_caps s1 = host_caps s
  | Break s1 =>
      handle s1 <> 0 /\
      (host s1 <> 0 -> capability_snapshot s1 = capability_snapshot s)
  | Exit c _ => c = 1
  | Killed sig _ => sig = SIGPIPE
  | Fuel _ => False
  end.
Proof.
  run.
  repeat (first
    [ rewrite lookup_insert_eq
    | case_atom
    | match goal with
      | |- context [run_callbacks w ?cs ?x] =>
          let s1 := fresh "s1" in let E := fresh "E" in
          destruct (run_callbacks_spec w cs x)
            as [(s1 & E & ? & ? & ?)|(s1 & E & ?)];
          rewrite E
      end ]; simpl in *); subst; simpl in *;
    try reflexivity; try (repeat split; reflexivity); try contradiction.
  all: clear E; tests_in_context; split;
    [ congruence
    | intros Hh; unfold capability_snapshot;
      match goal with
      | H1 : host_caps ?x = _, H0 : host ?x = _ |- _ => rewrite H1, H0 in *
      end;
      first [ rewrite lookup_insert_eq; reflexivity | congruence ] ].
Qed.


Lemma retry_loop_outcome w fuel s :
  client_fd s <> -1 ->
  match retry_loop w fuel s with
  | Normal _ s' =>
      handle s' <> 0 /\
      (host s' <> 0 -> capability_snapshot s' = capability_snapshot s)
  | Exit c _ => c = 1
  | _ => True
  end.
Proof.
  unfold retry_loop. revert s. induction fuel as [|fuel IH]; intros s Hfd;
    simpl; rewrite (proj2 (Z.eqb_neq _ _) Hfd); simpl; [exact I|].
  pose proof (retry_body_outcome w s) as Hb.
  destruct (retry_body w s) as [[] s1|s1|s1|c s1|sg s1|s1]; try exact Hb;
    try contradiction; try exact I.
  all: destruct Hb as (F & Hh & Hc); specialize (IH s1);
    destruct (while fuel _ (retry_body w) s1); try exact I;
    try (apply IH; congruence).
  all: destruct IH as [IH1 IH2]; [congruence|]; split; [exact IH1|];
    intros Hn; rewrite (IH2 Hn); unfold capability_snapshot;
    rewrite Hh, Hc; reflexivity.
Qed.



Lemma iteration_oblivious w sig fuel :
  oblivious (iteration (with_signals sig w) fuel) (iteration w fuel).
Proof.
  pose proof (run_callbacks_oblivious w sig) as Hc.
  oblivious_auto.
Qed.

(** The retry block of the wait-mode reconnection never consults the
    termination flag: run with any value of [running] and with any arrival of
    signals, it does the same calls and ends the same way, up to the value of
    [running] itself.  It returns only with the channel closed or with
    [handle] non-null; a signal does not end it.  The flag is looked at
    where the loops test it: with [running] cleared the event loop and the
    accept loop end before their next iteration, and an iteration of the
    event loop itself does not consult the flag either. *)
Lemma retry_block_ignores_termination
    (w : World) (sig : nat -> bool) (fuel : nat) (r : Z) (s : State) :
  outcome_map blind (retry_loop (with_signals sig w) fuel (set_running r s))
    = outcome_map blind (retry_loop w fuel s) /\
  match retry_loop w fuel s with
  | Normal _ s' => client_fd s' = -1 \/ handle s' <> 0
  | _ => True
  end /\
  outcome_map blind (iteration (with_signals sig w) fuel (set_running r s))
    = outcome_map blind (iteration w fuel s) /\
  (forall body,
     while fuel (fun s => truthy (running s) && negb (client_fd s =? -1)) body
           (quit_handler s) = Normal tt (quit_handler s)) /\
  (forall body,
     while fuel (fun s => truthy (running s)) body (quit_handler s)
     = Normal tt (quit_handler s)).
Proof.
  split; [apply retry_loop_oblivious; reflexivity|].
  split.
  { destruct (Z.eq_dec (client_fd s) (-1)) as [E|N].
    - unfold retry_loop. destruct fuel; simpl; rewrite E; simpl; auto.
    - pose proof (retry_loop_outcome w fuel s N) as H.
      destruct (retry_loop w fuel s); auto. right. apply H. }
  split; [apply iteration_oblivious; reflexivity|].
  split; intros body; destruct fuel; reflexivity.
Qed.

(** A signal that arrives at the first call of the retry block clears
    [running]; the block waits for the device all the same and rebinds it. *)
Example signal_during_retry :
  exists s',
    retry_loop (with_signals (fun k => Nat.eqb k 0) replug_world) 5
               (session_state 1) = Normal tt s' /\
    running s' = 0 /\
    trace s'
    = [EvLibusbExit 100; EvLibusbInit 0; EvSetDebug 101 3;
       EvOpenVidPid 4660 43981; EvSleep 3; EvLibusbExit 101; EvLibusbInit 0;
       EvSetDebug 101 3; EvOpenVidPid 4660 43981; EvSaveCaps 300;
       EvHostOpen 201 4 301; EvRestoreCaps 301 [7]; EvPumpOut 301;
       EvWrite 5].
Proof.
  eexists. split; [vm_compute; reflexivity|]. split; vm_compute; reflexivity.
Qed.

(** With a vendor:product identity the handle the block returns with was
    obtained in the turn that left it: it is the answer of that turn's
    open. *)
Lemma retry_body_vendor_product w s :
  usbvendor s <> -1 ->
  match retry_body w s with
  | Normal _ s1 | Continue s1 =>
      client_fd s1 = client_fd s /\ usbvendor s1 = usbvendor s
  | Break s1 =>
      handle s1 = w_open_vid_pid w (3 + calls s)%nat /\ handle s1 <> 0
  | _ => True
  end.
Proof.
  intros Hv. run.
  repeat (first
    [ rewrite lookup_insert_eq
    | case_atom
    | match goal with
      | |- context [run_callbacks w ?cs ?x] =>
          let s1 := fresh "s1" in let E := fresh "E" in
          destruct (run_callbacks_spec w cs x)
            as [(s1 & E & ? & ? & ?)|(s1 & E & ?)];
          rewrite E
      end ]; simpl in *); subst; simpl in *;
    try exact I; try (split; reflexivity).
  all: tests_in_context; try congruence; split; congruence.
Qed.

Lemma retry_block_obtains_handle w fuel s s' :
  usbvendor s <> -1 ->
  client_fd s <> -1 ->
  retry_loop w fuel s = Normal tt s' ->
  handle s' <> 0 /\ exists k, handle s' = w_open_vid_pid w k.
Proof.
  unfold retry_loop. revert s. induction fuel as [|fuel IH];
    intros s Hv Hfd; simpl; rewrite (proj2 (Z.eqb_neq _ _) Hfd); simpl;
    [discriminate|].
  pose proof (retry_body_vendor_product w s Hv) as Hb.
  destruct (retry_body w s) as [[] s1|s1|s1|c s1|sg s1|s1]; try discriminate.
  - destruct Hb as [F V]. apply IH; congruence.
  - intros [= <-]. destruct Hb as [H1 H2]. split; [exact H2|eauto].
  - destruct Hb as [F V]. apply IH; congruence.
Qed.

(** C10.  The code at the input on which it departs from the claim: a
    wait-mode server for the bus-address identifier 1-4 whose device is gone.
    The first turn of the retry block scans a device list that no longer
    holds the device, so [find_device] assigns nothing and [handle] still
    holds 200, the handle opened at start-up.  The block is left at once
    through the branch for a device in place, and a redirection-host instance
    is opened on handle 200: the loop ends with the channel open and without
    a device handle having been obtained.  (With a vendor:product identifier
    [find_device] assigns [handle] on every call, see
    [retry_block_obtains_handle].) *)
Example retry_block_leaves_on_stale_handle :
  firstn 9 (skipn 34
    (trace (final (main unplugged_bus_world 3 "usbredirserver"
                        [("w"%char, EmptyString)] [bus_address "1" "4"]
                        initial_state))))
  = [EvLibusbExit 100; EvLibusbInit 0; EvSetDebug 100 3;
     EvGetDeviceList 100; EvFreeDeviceList;
     EvSaveCaps 316; EvHostOpen 200 4 340; EvRestoreCaps 340 [];
     EvPumpOut 340].
Proof. vm_compute. reflexivity. Qed.

(** * The liveness probe *)

Lemma grows_after_call {A B} w (answer : World -> nat -> A) ev
    (k : A -> M B) s :
  (forall a, preserves grows (k a)) ->
  exists t, trace (final (bind (call w answer ev) k s))
            = trace s ++ ev (answer w (calls s)) :: t.
Proof.
  intros H. unfold bind, call. simpl.
  match goal with |- context [k ?a ?x] => destruct (H a x) as (t & T) end.
  exists t. rewrite T. simpl. rewrite <- app_assoc. reflexivity.
Qed.

Lemma reconnect_block_starts w fuel s :
  exists t, trace (final (reconnect_block w fuel s))
            = trace s ++ EvPumpOut (host s) :: t.
Proof.
  change (reconnect_block w fuel s) with
    (bind (call w w_pump (fun _ => EvPumpOut (host s)))
       (fun a =>
          (run_callbacks w (pa_callbacks a) ;; ret (pa_result a)) ;;
          t <- gets wait_timeout ;; sleep w t ;;
          usbredirhost_read_guest_data w ;;
          retry_loop w fuel ;;
          modify (set_wait_mode_state 0))%prog s).
  apply (grows_after_call w w_pump (fun _ => EvPumpOut (host s))).
  intros a. pose proof (run_callbacks_grows w). preserve grows_leaf.
Qed.

(** C4.  In wait-mode, with the state machine in Connected and the channel
    open, a timed wake-up ([select] returned 0) on which the protocol layer
    reports no disconnect and the liveness probe fails is followed by
    [usbredirhost_disconnect] and only then by the reconnection block: the
    rest of the iteration is exactly the disconnect signal followed by the
    block, whose first call is its outbound pump. *)
Theorem probe_failure_forces_disconnect (w : World) (fuel : nat) (s : State) :
  truthy (wait_mode s) = true ->
  wait_mode_state s = 1 ->
  client_fd s <> -1 ->
  w_is_disconnected w (calls s) = 0 ->
  w_get_configuration w (S (calls s)) <> 0 ->
  exists s1,
    trace s1 = trace s ++ [EvIsDisconnected (host s);
                           EvGetConfiguration (handle s)] /\
    wait_mode_step w fuel 0 s
      = (usbredirhost_disconnect w ;; reconnect_block w fuel)%prog s1 /\
    exists t,
      trace (final (wait_mode_step w fuel 0 s))
      = trace s ++ [EvIsDisconnected (host s); EvGetConfiguration (handle s);
                    EvDisconnect (host s); EvPumpOut (host s)] ++ t.
Proof.
  intros Hwm Hst Hfd Hdis Hprobe.
  pose (s1 := final ((usbredirhost_is_disconnected w ;;
                      libusb_get_configuration w)%prog s)).
  assert (E : wait_mode_step w fuel 0 s
              = (usbredirhost_disconnect w ;; reconnect_block w fuel)%prog s1).
  { unfold wait_mode_step, usbredirhost_is_disconnected,
      libusb_get_configuration, usbredirhost_disconnect.
    unfold bind, gets, call, modify, ret, when. simpl.
    pose proof (proj2 (Z.eqb_neq _ _) Hfd) as Hfd'.
    pose proof (proj2 (truthy_true _) Hprobe) as Hprobe'.
    repeat (simpl; first [ rewrite Hwm | rewrite Hdis | rewrite Hst
                         | rewrite Hfd' | rewrite Hprobe' ]).
    reflexivity. }
  exists s1. split; [simpl; rewrite <- app_assoc; reflexivity|].
  split; [exact E|].
  rewrite E. unfold usbredirhost_disconnect.
  unfold bind at 1 2. unfold gets at 1. unfold call at 1. simpl.
  match goal with |- context [reconnect_block w fuel ?x] =>
    destruct (reconnect_block_starts w fuel x) as (t & T) end.
  exists t. rewrite T. simpl. rewrite <- !app_assoc. reflexivity.
Qed.

Lemma probe_failure_forces_disconnect_witness :
  exists s1,
    trace s1 = trace connected_state
               ++ [EvIsDisconnected (host connected_state);
                   EvGetConfiguration (handle connected_state)] /\
    wait_mode_step unplugged_world 2 0 connected_state
      = (usbredirhost_disconnect unplugged_world ;;
         reconnect_block unplugged_world 2)%prog s1 /\
    exists t,
      trace (final (wait_mode_step unplugged_world 2 0 connected_state))
      = trace connected_state
        ++ [EvIsDisconnected (host connected_state);
            EvGetConfiguration (handle connected_state);
            EvDisconnect (host connected_state);
            EvPumpOut (host connected_state)] ++ t.
Proof.
  apply (probe_failure_forces_disconnect unplugged_world 2 connected_state).
  - reflexivity.
  - reflexivity.
  - discriminate.
  - reflexivity.
  - discriminate.
Defined.

(** * The write callback and the exit from the retry block *)

(** C6 (as amended).  When [write] fails: if the failure is EPIPE on an open
    descriptor and SIGPIPE has its default action, the process dies inside
    [write], the callback does not return.  Otherwise (SIGPIPE ignored or
    blocked, or another [errno]), and provided the debug line of the callback
    leaves [errno] as [write] set it (it always does with [verbose] below
    4), the callback returns 0 for would-block (EAGAIN), leaving the channel
    as it is; it treats EPIPE as a graceful close, closing [client_fd],
    setting it to -1 and returning 0; and for every other [errno], a reset
    by the peer (ECONNRESET) included, it returns -1 and leaves [client_fd]
    open. *)
Theorem write_callback_graceful (w : World) (s : State) (r errno : Z) :
  w_io w (calls s) = (r, errno) ->
  r < 0 ->
  (raises_sigpipe (client_fd s) r errno && w_sigpipe_fatal w = true ->
   exists s',
     usbredirserver_write w s = Killed SIGPIPE s' /\
     trace s' = trace s ++ [EvWrite (client_fd s)]) /\
  (raises_sigpipe (client_fd s) r errno && w_sigpipe_fatal w = false ->
   verbose s < usbredirparser_debug \/ w_log_errno w (S (calls s)) = None ->
   exists res s',
     usbredirserver_write w s = Normal res s' /\
     (errno = EAGAIN ->
        res = 0 /\ client_fd s' = client_fd s /\
        trace s' = trace s ++ [EvWrite (client_fd s)]) /\
     (errno = EPIPE ->
        res = 0 /\ client_fd s' = -1 /\
        trace s' = trace s ++ [EvWrite (client_fd s);
                               EvClose InWriteCallback (client_fd s)]) /\
     (errno <> EAGAIN -> errno <> EPIPE ->
        res = -1 /\ client_fd s' = client_fd s /\
        trace s' = trace s ++ [EvWrite (client_fd s)])).
Proof.
  intros Hio Hr. split.
  - intros Hk. run. rewrite Hio. simpl. rewrite Hk. simpl.
    eexists. split; reflexivity.
  - intros Hk Hlog. run. rewrite Hio. simpl. rewrite Hk. simpl.
    destruct (usbredirparser_debug <=? verbose s) eqn:Hv; simpl;
      [ destruct Hlog as [Hl|Hn];
        [apply Z.leb_le in Hv; lia | rewrite Hn; simpl] | ];
      (destruct (Z.ltb_spec r 0) as [_|]; [|lia]);
      destruct (Z.eqb_spec errno EAGAIN) as [E1|E1];
      try destruct (Z.eqb_spec errno EPIPE) as [E2|E2];
      simpl; eexists _, _; (split; [reflexivity|]);
      repeat split; intros; subst; simpl;
      rewrite <- ?app_assoc; try reflexivity; try contradiction;
      try discriminate.
Qed.

Lemma write_callback_graceful_witness :
  exists res s',
    usbredirserver_write broken_pipe_world (session_state 0) = Normal res s' /\
    (EPIPE = EAGAIN ->
       res = 0 /\ client_fd s' = client_fd (session_state 0) /\
       trace s' = trace (session_state 0)
                  ++ [EvWrite (client_fd (session_state 0))]) /\
    (EPIPE = EPIPE ->
       res = 0 /\ client_fd s' = -1 /\
       trace s' = trace (session_state 0)
                  ++ [EvWrite (client_fd (session_state 0));
                      EvClose InWriteCallback (client_fd (session_state 0))]) /\
    (EPIPE <> EAGAIN -> EPIPE <> EPIPE ->
       res = -1 /\ client_fd s' = client_fd (session_state 0) /\
       trace s' = trace (session_state 0)
                  ++ [EvWrite (client_fd (session_state 0))]).
Proof.
  apply (proj2 (write_callback_graceful broken_pipe_world (session_state 0)
                  (-1) EPIPE eq_refl ltac:(lia))).
  - reflexivity.
  - left. vm_compute. reflexivity.
Defined.

(** C6 as stated fails: a [write] that fails because the peer has reset the
    connection, and says so (ECONNRESET), makes the callback return -1 and
    leave [client_fd] as it is. *)
Lemma connection_reset_is_fatal :
  w_io connection_reset_world (calls (session_state 0)) = (-1, ECONNRESET) /\
  exists s',
    usbredirserver_write connection_reset_world (session_state 0)
    = Normal (-1) s' /\
    client_fd s' = 5 /\
    trace s' = [EvWrite 5].
Proof.
  split; [reflexivity|]. eexists. split; [vm_compute; reflexivity|].
  split; vm_compute; reflexivity.
Qed.

(** The two provisos matter.  With SIGPIPE at its default action the write
    that would report EPIPE ends the process. *)
Example write_dies_of_sigpipe :
  exists s',
    usbredirserver_write (with_sigpipe true broken_pipe_world)
                         (session_state 0) = Killed SIGPIPE s' /\
    trace s' = [EvWrite 5].
Proof. eexists. split; vm_compute; reflexivity. Qed.

(** With [verbose] at 4 the debug line is written between [write] and the
    tests; when its [fprintf] fails and leaves EBADF (9) in [errno], a
    would-block is reported as -1. *)
Example debug_line_hides_would_block :
  exists s',
    usbredirserver_write would_block_world (set_verbose 4 (session_state 0))
    = Normal (-1) s' /\
    w_io would_block_world 0 = (-1, EAGAIN) /\
    client_fd s' = 5 /\ trace s' = [EvWrite 5].
Proof.
  eexists. split; [vm_compute; reflexivity|].
  repeat split; vm_compute; reflexivity.
Qed.

(** C9.  In the retry block, a failing [libusb_init] ends the whole process
    with status 1 at once: the failure is printed, nothing else is called,
    and no code after the block runs. *)
Theorem retry_init_failure_exits (w : World) (fuel : nat) (s : State) :
  client_fd s <> -1 ->
  fst (w_libusb_init w (S (calls s))) <> 0 ->
  exists s',
    retry_loop w (S fuel) s = Exit 1 s' /\
    trace s' = trace s ++ [EvLibusbExit (ctx s);
                           EvLibusbInit (fst (w_libusb_init w (S (calls s))));
                           EvPrint Stderr MsgNoLibusb] /\
    forall (B : Type) (k : unit -> M B),
      bind (retry_loop w (S fuel)) k s = Exit 1 s'.
Proof.
  intros Hfd Hrc.
  assert (E : exists s', retry_loop w (S fuel) s = Exit 1 s' /\
     trace s' = trace s ++ [EvLibusbExit (ctx s);
                           EvLibusbInit (fst (w_libusb_init w (S (calls s))));
                           EvPrint Stderr MsgNoLibusb]).
  { unfold retry_loop. simpl. rewrite (proj2 (Z.eqb_neq _ _) Hfd). simpl.
    unfold retry_body. run.
    destruct (w_libusb_init w (S (calls s))) as [rc c]. simpl in *.
    pose proof (proj2 (Z.eqb_neq _ _) Hrc) as Hrc'.
    repeat (simpl; unfold truthy; rewrite Hrc'). simpl.
    eexists. split; [reflexivity|]. simpl. rewrite <- !app_assoc. reflexivity. }
  destruct E as (s' & E & T). exists s'. repeat split; auto.
  intros B k. unfold bind. rewrite E. reflexivity.
Qed.

Lemma retry_init_failure_exits_witness :
  exists s',
    retry_loop init_fails_world 1 connected_state = Exit 1 s' /\
    trace s' = trace connected_state
               ++ [EvLibusbExit (ctx connected_state);
                   EvLibusbInit
                     (fst (w_libusb_init init_fails_world
                             (S (calls connected_state))));
                   EvPrint Stderr MsgNoLibusb] /\
    forall (B : Type) (k : unit -> M B),
      bind (retry_loop init_fails_world 1) k connected_state = Exit 1 s'.
Proof.
  apply (retry_init_failure_exits init_fails_world 0 connected_state).
  - discriminate.
  - discriminate.
Defined.

(** The same exit seen from [main]: a wait-mode server whose device vanishes
    after the second wake-up and whose libusb cannot be initialised again. *)
Example reinit_failure_ends_process :
  exists s',
    main late_init_failure_world 3 "usbredirserver" [("w"%char, EmptyString)]
         [vendor_product "1234" "abcd"] initial_state = Exit 1 s' /\
    skipn 26 (trace s')
    = [EvIsDisconnected 300; EvGetConfiguration 200; EvDisconnect 300;
       EvPumpOut 300; EvSleep 3; EvPumpIn 300; EvLibusbExit 100;
       EvLibusbInit (-99); EvPrint Stderr MsgNoLibusb].
Proof. eexists. split; vm_compute; reflexivity. Qed.

(** * The order of pumping and USB servicing *)

Lemma stages_app t1 t2 : stages (t1 ++ t2) = stages t1 ++ stages t2.
Proof.
  induction t1 as [|e t1 IH]; simpl; [reflexivity|].
  destruct (stage e); simpl; rewrite IH; reflexivity.
Qed.

Lemma emitted_app {A} s (o : Outcome A) t :
  trace (final o) = trace s ++ t -> emitted s o = t.
Proof. intros H. unfold emitted. rewrite H. apply drop_app_length. Qed.

Lemma within_nil lo hi : within lo hi [].
Proof. split; [reflexivity|constructor]. Qed.

Lemma within_one lo hi n : (lo <= n <= hi)%nat -> within lo hi [n].
Proof. intros H. split; [reflexivity|]. constructor; [exact H|constructor]. Qed.

Lemma within_weaken lo hi lo' hi' l :
  (lo' <= lo)%nat -> (hi <= hi')%nat -> within lo hi l -> within lo' hi' l.
Proof.
  intros H1 H2 [I F]. split; [exact I|].
  eapply Forall_impl; [exact F|]. simpl. intros n Hn. lia.
Qed.

Lemma within_app lo mid hi l1 l2 :
  (lo <= S mid)%nat -> (mid <= hi)%nat ->
  within lo mid l1 -> within (S mid) hi l2 -> within lo hi (l1 ++ l2).
Proof.
  intros Hlo Hhi [I1 F1] [I2 F2]. split.
  - induction l1 as [|a l1 IH]; simpl; [exact I2|].
    inversion F1 as [|? ? Ha F1']; subst.
    destruct l1 as [|b l1]; simpl in *.
    + destruct l2 as [|c l2]; [reflexivity|].
      inversion F2 as [|? ? Hc _]; subst.
      rewrite I2, andb_true_r. apply Nat.ltb_lt. lia.
    + apply andb_prop in I1 as [Hab I1]. rewrite Hab. simpl.
      apply IH; assumption.
  - apply Forall_app. split.
    + eapply Forall_impl; [exact F1|]. simpl. intros n Hn. lia.
    + eapply Forall_impl; [exact F2|]. simpl. intros n Hn. lia.
Qed.

#[local] Instance stageless_step_preorder : PreOrder stageless_step.
Proof.
  split.
  - intros s. exists []. split; [|reflexivity]. symmetry. apply app_nil_r.
  - intros a b c (t1 & T1 & N1) (t2 & T2 & N2). exists (t1 ++ t2).
    split; [rewrite T2, T1; symmetry; apply app_assoc|].
    rewrite stages_app, N1, N2. reflexivity.
Qed.

#[local] Instance wait_mode_kept_preorder : PreOrder wait_mode_kept.
Proof.
  split; [intros s; reflexivity|].
  intros a b c H1 H2. unfold wait_mode_kept in *. congruence.
Qed.

Ltac stageless_leaf :=
  first [ solve [auto]
        | let s := fresh "s" in
          intros s; unfold stageless_step, call, deliver; simpl;
          repeat case_match; simpl;
          first [ eexists; split; [reflexivity|reflexivity]
                | exists []; split; [symmetry; apply app_nil_r|reflexivity] ] ].

Ltac wait_mode_leaf :=
  first [ solve [auto]
        | let s := fresh "s" in
          intros s; unfold wait_mode_kept, call, deliver; simpl;
          repeat case_match; reflexivity ].

Lemma run_callbacks_stageless w cs :
  preserves stageless_step (run_callbacks w cs).
Proof. induction cs as [|[] cs IH]; simpl; preserve stageless_leaf. Qed.

Lemma run_callbacks_wait_mode w cs :
  preserves wait_mode_kept (run_callbacks w cs).
Proof. induction cs as [|[] cs IH]; simpl; preserve wait_mode_leaf. Qed.

Lemma poll_and_dispatch_wait_mode w :
  preserves wait_mode_kept (poll_and_dispatch w).
Proof.
  pose proof (run_callbacks_wait_mode w). preserve wait_mode_leaf.
Qed.

Section Staged.
Context {A B : Type}.

Lemma stageless_staged lo hi (m : M A) :
  preserves stageless_step m -> staged lo hi m.
Proof.
  intros H s. destruct (H s) as (t & T & N). exists t. split; [exact T|].
  rewrite N. apply within_nil.
Qed.

Lemma staged_weaken lo hi lo' hi' (m : M A) :
  (lo' <= lo)%nat -> (hi <= hi')%nat -> staged lo hi m -> staged lo' hi' m.
Proof.
  intros H1 H2 H s. destruct (H s) as (t & T & W). exists t.
  split; [exact T|]. eapply within_weaken; eassumption.
Qed.

Lemma staged_bind lo mid hi (m : M A) (k : A -> M B) :
  (lo <= S mid)%nat -> (mid <= hi)%nat ->
  staged lo mid m -> (forall a, staged (S mid) hi (k a)) ->
  staged lo hi (bind m k).
Proof.
  intros Hlo Hhi Hm Hk s. destruct (Hm s) as (t & T & W). unfold bind.
  destruct (m s) as [a s1| | | | |]; simpl in *;
    try (exists t; split; [exact T|];
         eapply within_weaken; [| |exact W]; lia).
  destruct (Hk a s1) as (t2 & T2 & W2). exists (t ++ t2).
  split; [rewrite T2, T; symmetry; apply app_assoc|].
  rewrite stages_app. eapply within_app; eassumption.
Qed.
End Staged.

Lemma staged_when lo hi b (m : M unit) : staged lo hi m -> staged lo hi (when b m).
Proof.
  intros H. destruct b; simpl; [exact H|].
  apply stageless_staged. preserve stageless_leaf.
Qed.

Lemma pump_in_staged w : staged 1 1 (usbredirhost_read_guest_data w).
Proof.
  pose proof (run_callbacks_stageless w) as Hc.
  unfold usbredirhost_read_guest_data.
  apply (staged_bind 1 0 1); [lia|lia|apply stageless_staged; preserve stageless_leaf|].
  intros h. apply (staged_bind 1 1 1); [lia|lia| |].
  - intros s. unfold call, deliver. simpl. eexists. split; [reflexivity|].
    apply within_one. lia.
  - intros a. apply stageless_staged. preserve stageless_leaf.
Qed.

Lemma pump_out_staged w : staged 2 2 (usbredirhost_write_guest_data w).
Proof.
  pose proof (run_callbacks_stageless w) as Hc.
  unfold usbredirhost_write_guest_data.
  apply (staged_bind 2 1 2); [lia|lia|apply stageless_staged; preserve stageless_leaf|].
  intros h. apply (staged_bind 2 2 2); [lia|lia| |].
  - intros s. unfold call, deliver. simpl. eexists. split; [reflexivity|].
    apply within_one. lia.
  - intros a. apply stageless_staged. preserve stageless_leaf.
Qed.

Lemma handle_events_staged w : staged 3 3 (libusb_handle_events_timeout w).
Proof.
  intros s. unfold libusb_handle_events_timeout, bind, gets, call, deliver.
  simpl. eexists. split; [reflexivity|]. apply within_one. lia.
Qed.

Lemma dispatch_staged w pollfds sel : staged 1 3 (dispatch w pollfds sel).
Proof.
  unfold dispatch.
  apply (staged_bind 1 0 3); [lia|lia|apply stageless_staged; preserve stageless_leaf|].
  intros fd. apply (staged_bind 1 1 3); [lia|lia| |].
  { apply staged_when. apply (staged_bind 1 1 1); [lia|lia|apply pump_in_staged|].
    intros e. apply stageless_staged. preserve stageless_leaf. }
  intros _. apply (staged_bind 2 1 3); [lia|lia|apply stageless_staged; preserve stageless_leaf|].
  intros fd'. apply (staged_bind 2 1 3); [lia|lia|apply stageless_staged; preserve stageless_leaf|].
  intros _. apply (staged_bind 2 2 3); [lia|lia| |].
  { apply staged_when. apply (staged_bind 2 2 2); [lia|lia|apply pump_out_staged|].
    intros e. apply stageless_staged. preserve stageless_leaf. }
  intros _. apply staged_when. apply handle_events_staged.
Qed.

(** On a timed wake-up [select] leaves both sets empty. *)
Lemma select_timeout nfds readfds writefds a fd :
  sel_n (select_result nfds readfds writefds a) = 0 ->
  FD_ISSET fd (sel_readfds (select_result nfds readfds writefds a)) = false /\
  FD_ISSET fd (sel_writefds (select_result nfds readfds writefds a)) = false.
Proof.
  destruct a as [e|r wr]; simpl; [discriminate|]. intros H.
  assert (H1 : size (filter (fun fd => fd < nfds) (readfds ∩ r)) = O) by lia.
  assert (H2 : size (filter (fun fd => fd < nfds) (writefds ∩ wr)) = O) by lia.
  apply size_empty_inv in H1. apply size_empty_inv in H2.
  unfold FD_ISSET. split; apply bool_decide_eq_false_2; intros Hin;
    [apply H1 in Hin|apply H2 in Hin]; exact (not_elem_of_empty fd Hin).
Qed.

Lemma none_ready pollfds readfds writefds :
  (forall fd, FD_ISSET fd readfds = false /\ FD_ISSET fd writefds = false) ->
  any_pollfd_ready pollfds readfds writefds = false.
Proof.
  intros H. unfold any_pollfd_ready. induction pollfds as [|p ps IH]; simpl;
    [reflexivity|].
  destruct (H (pfd_fd p)) as [-> ->]. exact IH.
Qed.

Lemma dispatch_silent w pollfds sel s :
  (forall fd, FD_ISSET fd (sel_readfds sel) = false /\
              FD_ISSET fd (sel_writefds sel) = false) ->
  trace (final (dispatch w pollfds sel s)) = trace s.
Proof.
  intros H. unfold dispatch, bind, gets, when. simpl.
  destruct (H (client_fd s)) as [E1 E2]. rewrite E1. simpl.
  destruct (client_fd s =? -1); simpl; [reflexivity|].
  rewrite E2. simpl. rewrite (none_ready _ _ _ H). reflexivity.
Qed.

(** What [wait_for_events] hands on: on a timed wake-up USB servicing has
    been called and the sets are empty; otherwise no stage has been called. *)
Lemma wait_for_events_spec w s :
  exists t, trace (final (wait_for_events w s)) = trace s ++ t /\
    match wait_for_events w s with
    | Normal (_, sel) _ =>
        (stages t = [3%nat] /\
         forall fd, FD_ISSET fd (sel_readfds sel) = false /\
                    FD_ISSET fd (sel_writefds sel) = false) \/
        stages t = []
    | _ => stages t = [] \/ stages t = [3%nat]
    end.
Proof.
  unfold wait_for_events. run.
  destruct (add_pollfds _ _) as [[readfds writefds] nfds]. run.
  match goal with |- context [select_result ?n ?r ?wr ?a] =>
    pose proof (fun fd => select_timeout n r wr a fd) as Ht;
    destruct (select_result n r wr a) as [n0 e0 r0 w0] end.
  simpl in *.
  repeat (case_atom; simpl); tests_in_context; subst;
    rewrite <- ?app_assoc; simpl;
    (eexists; split; [reflexivity|]); simpl; auto.
Qed.

(** [wait_for_events] in full: its four calls, what [select] is given and
    what it returns, and how each return is handled. *)
Lemma wait_for_events_selected w s :
  trace (final (wait_for_events w s))
  = trace s
    ++ [EvHasDataToWrite (host s); EvGetPollfds (ctx s);
        EvGetNextTimeout (ctx s);
        EvSelect (snd (built_sets w s)) (chosen_timeout w s)]
    ++ (if sel_n (selected w s) =? -1
        then if sel_errno (selected w s) =? EINTR then []
             else [EvPrint Stderr (MsgPerror "select")]
        else if sel_n (selected w s) =? 0 then [EvHandleEvents (ctx s)]
             else []) /\
  match wait_for_events w s with
  | Normal (pollfds, sel) _ =>
      pollfds = w_pollfds w (S (calls s)) /\ sel = selected w s /\
      sel_n sel <> -1 /\ (sel_n sel = 0 -> wait_mode s <> 0)
  | Continue _ =>
      (sel_n (selected w s) = -1 /\ sel_errno (selected w s) = EINTR) \/
      (sel_n (selected w s) = 0 /\ wait_mode s = 0)
  | Break _ =>
      sel_n (selected w s) = -1 /\ sel_errno (selected w s) <> EINTR
  | _ => False
  end.
Proof.
  unfold wait_for_events, selected, chosen_timeout, built_sets. run.
  destruct (add_pollfds _ _) as [[readfds writefds] nfds]. run.
  destruct (select_result _ _ _ _) as [n0 e0 r0 w0]. simpl.
  repeat (case_atom; simpl); tests_in_context; subst;
    rewrite <- ?app_assoc; simpl; try discriminate;
    (split; [reflexivity|]); auto; repeat split; auto; try discriminate;
    try congruence.
Qed.

Lemma poll_and_dispatch_in_order w s :
  in_order (emitted s (poll_and_dispatch w s)).
Proof.
  destruct (wait_for_events_spec w s) as (t & T & H).
  unfold poll_and_dispatch, bind.
  destruct (wait_for_events w s) as [[pollfds sel] s1| | | | |]; simpl in *;
    try (erewrite emitted_app by (simpl; exact T); unfold in_order;
         destruct H as [-> | ->]; reflexivity).
  destruct H as [[Ht Hsets] | Ht].
  - pose proof (dispatch_silent w pollfds sel s1 Hsets) as Hd.
    erewrite emitted_app; [unfold in_order; rewrite Ht; reflexivity|].
    destruct (dispatch w pollfds sel s1); simpl in *; congruence.
  - destruct (dispatch_staged w pollfds sel s1) as (t2 & T2 & [I F]).
    erewrite (emitted_app _ _ (t ++ t2)).
    + unfold in_order. rewrite stages_app, Ht. exact I.
    + destruct (dispatch w pollfds sel s1); simpl in *;
        rewrite T2, T; symmetry; apply app_assoc.
Qed.

Lemma iteration_outside_wait_mode w fuel s :
  truthy (wait_mode s) = false ->
  final (iteration w fuel s) = final (poll_and_dispatch w s).
Proof.
  intros Hwm. pose proof (poll_and_dispatch_wait_mode w s) as Hk.
  unfold iteration, bind.
  destruct (poll_and_dispatch w s) as [sel s1| | | | |]; try reflexivity.
  simpl in Hk. unfold wait_mode_kept in Hk.
  unfold wait_mode_step, bind, gets. simpl. rewrite Hk, Hwm. reflexivity.
Qed.

(** C3 (as amended).  In every iteration, the part that comes before the
    wait-mode state machine calls the inbound pump, the outbound pump and USB
    event servicing each at most once and in this order; on a timed wake-up
    ([select] returns 0) it services USB events, once, and pumps nothing.
    Outside wait-mode this part is the whole iteration, so there the order
    holds for every iteration. *)
Theorem dispatch_order (w : World) (fuel : nat) (s : State) :
  in_order (emitted s (poll_and_dispatch w s)) /\
  (sel_n (selected w s) = 0 ->
   stages (emitted s (poll_and_dispatch w s)) = [3%nat] /\
   exists nfds timeout,
     emitted s (poll_and_dispatch w s)
     = [EvHasDataToWrite (host s); EvGetPollfds (ctx s);
        EvGetNextTimeout (ctx s); EvSelect nfds timeout;
        EvHandleEvents (ctx s)]) /\
  in_order (emitted (set_wait_mode 0 s)
                    (iteration w fuel (set_wait_mode 0 s))).
Proof.
  split; [apply poll_and_dispatch_in_order|]. split.
  - intros Hn. destruct (wait_for_events_selected w s) as [T H].
    rewrite Hn in T. simpl in T.
    assert (E : trace (final (poll_and_dispatch w s))
                = trace (final (wait_for_events w s))).
    { unfold poll_and_dispatch, bind.
      destruct (wait_for_events w s) as [[pollfds sel] s1| | | | |];
        try reflexivity.
      destruct H as (-> & -> & _).
      assert (Hs : forall fd,
                 FD_ISSET fd (sel_readfds (selected w s)) = false /\
                 FD_ISSET fd (sel_writefds (selected w s)) = false).
      { intros fd. revert Hn. unfold selected.
        destruct (built_sets w s) as [[r wr] n]. apply select_timeout. }
      pose proof (dispatch_silent w (w_pollfds w (S (calls s)))
                    (selected w s) s1 Hs) as Hd.
      destruct (dispatch w (w_pollfds w (S (calls s))) (selected w s) s1);
        exact Hd. }
    rewrite (emitted_app s _ _ (eq_trans E T)).
    split; [reflexivity|]. eexists _, _. reflexivity.
  - unfold emitted. rewrite iteration_outside_wait_mode by reflexivity.
    apply poll_and_dispatch_in_order.
Qed.

Lemma dispatch_order_witness :
  stages (emitted connected_state
            (poll_and_dispatch unplugged_world connected_state)) = [3%nat] /\
  exists nfds timeout,
    emitted connected_state (poll_and_dispatch unplugged_world connected_state)
    = [EvHasDataToWrite (host connected_state);
       EvGetPollfds (ctx connected_state);
       EvGetNextTimeout (ctx connected_state); EvSelect nfds timeout;
       EvHandleEvents (ctx connected_state)].
Proof.
  apply (proj1 (proj2 (dispatch_order unplugged_world 1 connected_state))).
  vm_compute. reflexivity.
Defined.

(** C3 as stated fails in wait-mode: on a timed wake-up in Connected with the
    device gone, USB servicing comes first, and the reconnection block then
    pumps outbound before inbound. *)
Lemma wait_mode_iteration_out_of_order :
  timed_wakeup_trace
  = [EvHasDataToWrite 300; EvGetPollfds 100; EvGetNextTimeout 100;
     EvSelect 6 (WaitTimeout 3); EvHandleEvents 100; EvIsDisconnected 300;
     EvGetConfiguration 200; EvDisconnect 300; EvPumpOut 300; EvSleep 3;
     EvPumpIn 300; EvLibusbExit 100; EvLibusbInit 0; EvSetDebug 101 3;
     EvOpenVidPid 4660 43981; EvSleep 3] /\
  stages timed_wakeup_trace = [3; 2; 1]%nat /\
  ~ in_order timed_wakeup_trace.
Proof.
  assert (E : stages timed_wakeup_trace = [3; 2; 1]%nat)
    by (vm_compute; reflexivity).
  split; [vm_compute; reflexivity|]. split; [exact E|].
  unfold in_order. rewrite E. discriminate.
Qed.

(** * The command line and the Device Locator *)

(** ** [strtol] and [strchr] on numerals *)

Example strtol_decimal : strtol "12-34" 10 = (12, "-34"%string).
Proof. reflexivity. Qed.

Example strtol_hexadecimal : strtol "abcd" 16 = (43981, EmptyString).
Proof. reflexivity. Qed.

Example strtol_no_digits : strtol ":abcd" 16 = (0, ":abcd"%string).
Proof. reflexivity. Qed.

Example strtol_saturates :
  strtol "99999999999999999999" 10 = (LONG_MAX, EmptyString).
Proof. reflexivity. Qed.

Example strtol_prefix_and_sign : strtol "  -0x1fz" 16 = (-31, "z"%string).
Proof. reflexivity. Qed.

Lemma digit_in_digit_of base c d : digit_in base c = Some d -> digit_of c <> None.
Proof. unfold digit_in. destruct (digit_of c); [discriminate|discriminate]. Qed.

Lemma digit_of_bounds c d :
  digit_of c = Some d ->
  48 <= code c <= 57 \/ 65 <= code c <= 90 \/ 97 <= code c <= 122.
Proof.
  unfold digit_of. intros H.
  destruct (Z.leb_spec 48 (code c)), (Z.leb_spec (code c) 57),
    (Z.leb_spec 97 (code c)), (Z.leb_spec (code c) 122),
    (Z.leb_spec 65 (code c)), (Z.leb_spec (code c) 90);
    simpl in H; try discriminate H; lia.
Qed.

Lemma digit_in_nonneg base c d : digit_in base c = Some d -> 0 <= d < base.
Proof.
  unfold digit_in. destruct (digit_of c) as [d'|] eqn:E; [|discriminate].
  destruct (Z.ltb_spec d' base); [|discriminate]. intros [= <-].
  pose proof (digit_of_bounds c d' E) as B. unfold digit_of in E.
  destruct (Z.leb_spec 48 (code c)), (Z.leb_spec (code c) 57),
    (Z.leb_spec 97 (code c)), (Z.leb_spec (code c) 122),
    (Z.leb_spec 65 (code c)), (Z.leb_spec (code c) 90);
    simpl in E; try discriminate E; injection E as <-; lia.
Qed.

Lemma digit_not_space base c d : digit_in base c = Some d -> isspace c = false.
Proof.
  intros H. unfold digit_in in H.
  destruct (digit_of c) as [d'|] eqn:E; [|discriminate].
  pose proof (digit_of_bounds c d' E) as B. unfold isspace.
  destruct (Z.eqb_spec (code c) 32), (Z.leb_spec 9 (code c)),
    (Z.leb_spec (code c) 13); simpl; try reflexivity; lia.
Qed.

(** A character that is no digit and no letter, as the two delimiters are. *)
Lemma digit_not_char base c d (x : ascii) :
  digit_of x = None -> digit_in base c = Some d -> Ascii.eqb c x = false.
Proof.
  intros Hx H. destruct (Ascii.eqb_spec c x) as [->|]; [|reflexivity].
  unfold digit_in in H. rewrite Hx in H. discriminate.
Qed.

Lemma strtol_digits_numeral base ds rest acc any :
  all_digits base ds = true ->
  digit_in base (deref rest) = None ->
  strtol_digits base (String.append ds rest) acc any
  = (value_from base ds acc,
     any || negb (String.eqb ds EmptyString), rest).
Proof.
  revert acc any. induction ds as [|c ds IH]; intros acc any Hd Hr; simpl.
  - rewrite orb_false_r. destruct rest as [|c r]; simpl in *; [reflexivity|].
    rewrite Hr. reflexivity.
  - simpl in Hd. destruct (digit_in base c) as [d|]; [|discriminate].
    rewrite (IH _ _ Hd Hr). rewrite orb_true_r.
    destruct (String.eqb ds EmptyString); reflexivity.
Qed.

Lemma value_from_nonneg base ds acc :
  0 <= base -> 0 <= acc -> 0 <= value_from base ds acc.
Proof.
  intros Hb. revert acc. induction ds as [|c ds IH]; intros acc Ha; simpl;
    [exact Ha|].
  destruct (digit_in base c) as [d|] eqn:E; [|exact Ha].
  apply IH. pose proof (digit_in_nonneg _ _ _ E). nia.
Qed.

(** [strtol] on a numeral followed by a delimiter or the end of the string:
    the value of the numeral, and [endptr] right after it. *)
Lemma strtol_numeral base ds rest :
  0 <= base ->
  numeral base ds ->
  digit_of (deref rest) = None ->
  strtol (String.append ds rest) base
  = (Z.min (number base ds) LONG_MAX, rest).
Proof.
  intros Hb [Hne Hd] Hr. destruct ds as [|c ds]; [contradiction|].
  simpl in Hd. destruct (digit_in base c) as [d|] eqn:Ec; [|discriminate].
  assert (Hrest : digit_in base (deref rest) = None)
    by (unfold digit_in; rewrite Hr; reflexivity).
  unfold strtol. simpl. rewrite (digit_not_space _ _ _ Ec).
  unfold strtol_sign.
  rewrite (digit_not_char base c d "-"%char eq_refl Ec).
  rewrite (digit_not_char base c d "+"%char eq_refl Ec).
  assert (Hp : strtol_prefix base (String c (String.append ds rest))
               = String c (String.append ds rest)).
  { unfold strtol_prefix.
    destruct (String.append ds rest) as [|x [|h r]] eqn:E; try reflexivity.
    destruct (base =? 16) eqn:B16; [|reflexivity].
    destruct (Ascii.eqb c "0"); [|reflexivity]. simpl.
    apply Z.eqb_eq in B16. subst base.
    assert (Hx : Ascii.eqb x "x"%char || Ascii.eqb x "X"%char = false).
    { destruct ds as [|c2 ds].
      - change (rest = String x (String h r)) in E. subst rest. simpl in Hr.
        destruct (Ascii.eqb_spec x "x"%char) as [->|]; [discriminate Hr|].
        destruct (Ascii.eqb_spec x "X"%char) as [->|]; [discriminate Hr|].
        reflexivity.
      - change (String c2 (String.append ds rest) = String x (String h r)) in E.
        injection E as -> _. simpl in Hd.
        destruct (Ascii.eqb_spec x "x"%char) as [->|]; [discriminate Hd|].
        destruct (Ascii.eqb_spec x "X"%char) as [->|]; [discriminate Hd|].
        reflexivity. }
    rewrite Hx. reflexivity. }
  rewrite Hp. simpl. rewrite Ec.
  rewrite (strtol_digits_numeral _ _ _ _ _ Hd Hrest). simpl.
  unfold number. simpl. rewrite Ec. reflexivity.
Qed.

Lemma strchr_skip ds rest (x : ascii) base :
  digit_of x = None ->
  all_digits base ds = true ->
  strchr (String.append ds rest) x = strchr rest x.
Proof.
  intros Hx. induction ds as [|c ds IH]; intros Hd; simpl; [reflexivity|].
  simpl in Hd. destruct (digit_in base c) as [d|] eqn:Ec; [|discriminate].
  rewrite (digit_not_char _ _ _ _ Hx Ec). apply IH. exact Hd.
Qed.

Lemma strchr_absent ds (x : ascii) base :
  digit_of x = None -> all_digits base ds = true -> strchr ds x = None.
Proof.
  intros Hx. induction ds as [|c ds IH]; intros Hd; simpl; [reflexivity|].
  simpl in Hd. destruct (digit_in base c) as [d|] eqn:Ec; [|discriminate].
  rewrite (digit_not_char _ _ _ _ Hx Ec). apply IH. exact Hd.
Qed.

Lemma numeral_starts base ds :
  numeral base ds ->
  Ascii.eqb (deref ds) NUL = false /\ digit_of (deref ds) <> None.
Proof.
  intros [Hne Hd]. destruct ds as [|c ds]; [contradiction|]. simpl in *.
  destruct (digit_in base c) as [d|] eqn:Ec; [|discriminate].
  split; [apply (digit_not_char base c d NUL eq_refl Ec)|].
  eapply digit_in_digit_of; eassumption.
Qed.

Lemma to_int_small z : 0 <= z < 2147483648 -> to_int (Z.min z LONG_MAX) = z.
Proof.
  intros H. unfold to_int, LONG_MAX. rewrite Z.min_l by lia.
  rewrite Z.mod_small by lia. lia.
Qed.

Lemma append_empty_r s : String.append s EmptyString = s.
Proof.
  induction s as [|c s IH]; [reflexivity|].
  change (String c (String.append s EmptyString) = String c s).
  rewrite IH. reflexivity.
Qed.

Lemma strtol_numeral_end base ds :
  0 <= base -> numeral base ds ->
  strtol ds base = (Z.min (number base ds) LONG_MAX, EmptyString).
Proof.
  intros Hb Hn. rewrite <- (append_empty_r ds) at 1.
  apply strtol_numeral; auto.
Qed.

(** ** The two forms of the identifier *)

Lemma parse_bus_address w argv0 B A s :
  numeral 10 B -> numeral 10 A ->
  number 10 B < 2147483648 -> number 10 A < 2147483648 ->
  parse_device_id w argv0 (bus_address B A) s
  = Normal tt (set_usbaddr (number 10 A) (set_usbbus (number 10 B) s)).
Proof.
  intros HB HA LB LA. unfold parse_device_id, bus_address.
  rewrite (strchr_skip B _ "-"%char 10 eq_refl (proj2 HB)).
  change (strchr (String "-" A) "-"%char) with (Some (String "-"%char A)).
  cbv beta iota. change (next (String "-" A)) with A.
  rewrite (proj1 (numeral_starts _ _ HA)). cbv beta iota. simpl negb.
  rewrite (strtol_numeral 10 B (String "-" A)) by (auto; lia).
  change (default EmptyString (Some (String "-"%char A))) with (String "-"%char A).
  change (next (String "-" A)) with A.
  rewrite (strtol_numeral_end 10 A) by (auto; lia).
  assert (0 <= number 10 B) by (apply value_from_nonneg; lia).
  assert (0 <= number 10 A) by (apply value_from_nonneg; lia).
  rewrite !to_int_small by lia.
  reflexivity.
Qed.

Lemma parse_vendor_product w argv0 V P s :
  numeral 16 V -> numeral 16 P ->
  number 16 V <= 65535 -> number 16 P <= 65535 ->
  parse_device_id w argv0 (vendor_product V P) s
  = Normal tt (set_usbproduct (number 16 P) (set_usbvendor (number 16 V) s)).
Proof.
  intros HV HP LV LP. unfold parse_device_id, vendor_product.
  rewrite (strchr_skip V _ "-"%char 16 eq_refl (proj2 HV)).
  change (strchr (String ":" P) "-"%char) with (strchr P "-"%char).
  rewrite (strchr_absent P "-"%char 16 eq_refl (proj2 HP)).
  cbv beta iota.
  rewrite (strchr_skip V _ ":"%char 16 eq_refl (proj2 HV)).
  change (strchr (String ":" P) ":"%char) with (Some (String ":"%char P)).
  cbv beta iota. change (next (String ":" P)) with P.
  rewrite (proj1 (numeral_starts _ _ HP)).
  rewrite (strtol_numeral 16 V (String ":" P)) by (auto; lia).
  change (default EmptyString (Some (String ":"%char P))) with (String ":"%char P).
  change (next (String ":" P)) with P.
  rewrite (strtol_numeral_end 16 P) by (auto; lia).
  assert (0 <= number 16 V) by (apply value_from_nonneg; lia).
  assert (0 <= number 16 P) by (apply value_from_nonneg; lia).
  rewrite !to_int_small by lia.
  reflexivity.
Qed.

(** ** The locator follows the identifier throughout the run *)

Lemma locator_event_ok_identity s1 s e :
  identity s1 = identity s -> locator_event_ok s1 e = locator_event_ok s e.
Proof.
  unfold identity. intros [= H1 H2 H3 H4]. unfold locator_event_ok.
  rewrite H1, H2, H3, H4. reflexivity.
Qed.

#[local] Instance locator_discipline_preorder : PreOrder locator_discipline.
Proof.
  split.
  - intros s. split; [reflexivity|]. exists []. split; [|reflexivity].
    symmetry. apply app_nil_r.
  - intros a b c [I1 (t1 & T1 & F1)] [I2 (t2 & T2 & F2)].
    split; [congruence|]. exists (t1 ++ t2).
    split; [rewrite T2, T1; symmetry; apply app_assoc|].
    rewrite forallb_app, F1. simpl. rewrite <- F2.
    clear -I1. induction t2 as [|e t2 IH]; simpl; [reflexivity|].
    rewrite IH, (locator_event_ok_identity b a e I1). reflexivity.
Qed.

#[local] Instance prints_only_preorder : PreOrder prints_only.
Proof.
  split.
  - intros s. split; [reflexivity|]. exists []. split; [|reflexivity].
    symmetry. apply app_nil_r.
  - intros a b c [I1 (t1 & T1 & F1)] [I2 (t2 & T2 & F2)].
    split; [congruence|]. exists (t1 ++ t2).
    split; [rewrite T2, T1; symmetry; apply app_assoc|].
    rewrite forallb_app, F1, F2. reflexivity.
Qed.

Ltac locator_leaf :=
  first [ solve [auto]
        | let s := fresh "s" in
          intros s; unfold locator_discipline, call, deliver; simpl;
          repeat case_match; simpl;
          (split; [reflexivity|]);
          first [ eexists; split; [reflexivity|reflexivity]
                | exists []; split; [symmetry; apply app_nil_r|reflexivity] ] ].

Ltac prints_leaf :=
  first [ solve [auto]
        | let s := fresh "s" in
          intros s; unfold prints_only, call, deliver; simpl;
          repeat case_match; simpl;
          (split; [reflexivity|]);
          first [ eexists; split; [reflexivity|reflexivity]
                | exists []; split; [symmetry; apply app_nil_r|reflexivity] ] ].

Lemma scan_device_list_first list bus addr :
  match scan_device_list list bus addr with
  | Some dev =>
      dev_bus dev = bus /\ dev_addr dev = addr /\
      exists before after,
        list = before ++ dev :: after /\
        forall d, In d before -> ~ (dev_bus d = bus /\ dev_addr d = addr)
  | None => forall d, In d list -> ~ (dev_bus d = bus /\ dev_addr d = addr)
  end.
Proof.
  unfold scan_device_list. induction list as [|d l IH]; simpl.
  - intros d [].
  - destruct ((dev_bus d =? bus) && (dev_addr d =? addr)) eqn:E.
    + apply andb_prop in E. destruct E as [E1 E2].
      apply Z.eqb_eq in E1. apply Z.eqb_eq in E2.
      repeat split; auto. exists [], l. split; [reflexivity|].
      intros x [].
    + assert (Hd : ~ (dev_bus d = bus /\ dev_addr d = addr)).
      { intros [H1 H2]. rewrite H1, H2, !Z.eqb_refl in E. discriminate. }
      destruct (find _ l) as [dev|].
      * destruct IH as (H1 & H2 & before & after & -> & Hb).
        repeat split; auto. exists (d :: before), after.
        split; [reflexivity|]. intros x [<-|Hx]; auto.
      * intros x [<-|Hx]; auto.
Qed.

(** One run of [find_device]: with [usbvendor == -1] the scan of the device
    list for the first entry with the bus number and address, its open, and
    the release of the list; otherwise the one open by vendor and product. *)
Lemma find_device_run w s :
  exists s',
    find_device w s = Normal tt s' /\
    if usbvendor s =? -1 then
      match scan_device_list (w_device_list w (calls s))
                             (usbbus s) (usbaddr s) with
      | Some dev =>
          (dev_bus dev = usbbus s /\ dev_addr dev = usbaddr s /\
           exists before after,
             w_device_list w (calls s) = before ++ dev :: after /\
             forall d, In d before ->
                       ~ (dev_bus d = usbbus s /\ dev_addr d = usbaddr s)) /\
          trace s' = trace s
                     ++ [EvGetDeviceList (ctx s);
                         EvOpenDevice dev (fst (w_libusb_open w (S (calls s))));
                         EvFreeDeviceList] /\
          handle s' = (if fst (w_libusb_open w (S (calls s))) =? 0
                       then snd (w_libusb_open w (S (calls s)))
                       else handle s)
      | None =>
          (forall d, In d (w_device_list w (calls s)) ->
                     ~ (dev_bus d = usbbus s /\ dev_addr d = usbaddr s)) /\
          trace s' = trace s ++ [EvGetDeviceList (ctx s); EvFreeDeviceList] /\
          handle s' = handle s
      end
    else
      trace s' = trace s ++ [EvOpenVidPid (to_uint16 (usbvendor s))
                                          (to_uint16 (usbproduct s))] /\
      handle s' = w_open_vid_pid w (calls s).
Proof.
  pose proof (scan_device_list_first (w_device_list w (calls s))
                (usbbus s) (usbaddr s)) as Hscan.
  unfold find_device. run.
  destruct (usbvendor s =? -1); simpl.
  - destruct (scan_device_list _ _ _) as [dev|]; run.
    + destruct (w_libusb_open w (S (calls s))) as [rc h]. simpl.
      destruct (rc =? 0); simpl; eexists; (split; [reflexivity|]); simpl;
        rewrite <- !app_assoc; auto.
    + eexists. split; [reflexivity|]. simpl. rewrite <- !app_assoc. auto.
  - eexists. split; [reflexivity|]. simpl. auto.
Qed.

Lemma find_device_locator w : preserves locator_discipline (find_device w).
Proof.
  intros s. unfold locator_discipline. run.
  destruct (usbvendor s =? -1) eqn:E; simpl.
  - unfold scan_device_list.
    destruct (find _ (w_device_list w (calls s))) as [dev|] eqn:F; run.
    + apply find_some in F as [_ F]. simpl in F.
      destruct (w_libusb_open w (S (calls s))) as [rc h]. simpl.
      destruct (rc =? 0); simpl; (split; [reflexivity|]);
        rewrite <- !app_assoc; simpl; (eexists; split; [reflexivity|]);
        simpl; rewrite E; simpl; rewrite F; reflexivity.
    + split; [reflexivity|]. rewrite <- !app_assoc. simpl.
      eexists. split; [reflexivity|]. simpl. rewrite E. reflexivity.
  - split; [reflexivity|]. eexists. split; [reflexivity|]. simpl.
    rewrite E, !Z.eqb_refl. reflexivity.
Qed.

Lemma run_callbacks_locator w cs :
  preserves locator_discipline (run_callbacks w cs).
Proof. induction cs as [|[] cs IH]; simpl; preserve locator_leaf. Qed.

Lemma serve_locator w fuel port : preserves locator_discipline (serve w fuel port).
Proof.
  pose proof (find_device_locator w) as Hf.
  pose proof (run_callbacks_locator w) as Hc.
  preserve locator_leaf.
Qed.

Lemma parse_options_prints w argv0 opts port :
  preserves prints_only (parse_options w argv0 opts port).
Proof.
  revert port. induction opts as [|[o a] opts IH]; intros port; simpl;
    preserve prints_leaf.
Qed.

Lemma forallb_Forall {A} (p : A -> bool) (Q : A -> Prop) l :
  (forall x, p x = true -> Q x) -> forallb p l = true -> Forall Q l.
Proof.
  intros H. induction l as [|x l IH]; simpl; intros F; constructor;
    apply andb_prop in F as [F1 F2]; auto.
Qed.

(** The run of [main] on one well-formed identifier: output of the option
    loop, then calls that fit the parsed identifier. *)
Lemma main_trace w fuel argv0 opts arg (f : State -> State) :
  (forall s, parse_device_id w argv0 arg s = Normal tt (f s)) ->
  (forall s, trace (f s) = trace s) ->
  exists s1 t3,
    identity s1 = identity initial_state /\
    forallb is_print (trace s1) = true /\
    trace (final (main w fuel argv0 opts [arg] initial_state))
      = trace s1 ++ t3 /\
    forallb (locator_event_ok (f s1)) t3 = true.
Proof.
  intros Hparse Htrace.
  destruct (parse_options_prints w argv0 opts 4000 initial_state)
    as [I (t1 & T1 & F1)].
  unfold main, parse_command_line, bind.
  destruct (parse_options w argv0 opts 4000 initial_state)
    as [port s1|s1|s1|c s1|sg s1|s1]; simpl in *.
  2-6: exists s1, []; rewrite app_nil_r, T1; auto.
  rewrite Hparse. simpl. unfold ret.
  destruct (serve_locator w fuel port (f s1)) as [_ (t3 & T3 & F3)].
  exists s1, t3. rewrite T1. repeat split; auto.
  rewrite T3, Htrace, T1. reflexivity.
Qed.

(** The command line with one well-formed identifier leaves the identifier
    as parsed. *)
Lemma parse_command_line_parsed w argv0 opts arg (f : State -> State)
    port s1 :
  (forall s, parse_device_id w argv0 arg s = Normal tt (f s)) ->
  (forall s s', identity s = identity s' -> identity (f s) = identity (f s')) ->
  parse_command_line w argv0 opts [arg] initial_state = Normal port s1 ->
  identity s1 = identity (f initial_state).
Proof.
  intros Hparse Hf. unfold parse_command_line, bind.
  destruct (parse_options_prints w argv0 opts 4000 initial_state) as [I _].
  destruct (parse_options w argv0 opts 4000 initial_state)
    as [p s0|s0|s0|c s0|sg s0|s0]; try discriminate.
  rewrite Hparse. simpl. intros [= _ <-]. apply Hf. exact I.
Qed.

(** C7 (as amended).  Run on an identifier BUS-ADDRESS of two decimal
    numerals whose values fit an [int], the program keeps this bus number
    and address for the whole run, every lookup takes the device list and
    opens the first entry with that bus number and that address, if there
    is one, and no call of the run opens by vendor and product.  Run on an
    identifier VENDOR:PRODUCT of two hexadecimal numerals of at most 16 bits,
    the program keeps these two values for the whole run, every lookup is
    the one open by vendor and product with exactly these values, and the
    device list is never scanned. *)
Theorem device_locator_follows_identifier
    (w : World) (fuel : nat) (argv0 : string) (opts : list (ascii * string))
    (B A V P : string) :
  numeral 10 B -> numeral 10 A ->
  number 10 B < 2147483648 -> number 10 A < 2147483648 ->
  numeral 16 V -> numeral 16 P ->
  number 16 V <= 65535 -> number 16 P <= 65535 ->
  ((forall port s1,
      parse_command_line w argv0 opts [bus_address B A] initial_state
      = Normal port s1 ->
      identity s1 = (-1, -1, number 10 B, number 10 A) /\
      identity (final (serve w fuel port s1)) = identity s1) /\
   (forall s,
      identity s = (-1, -1, number 10 B, number 10 A) ->
      exists s',
        find_device w s = Normal tt s' /\
        ((exists dev before after,
            w_device_list w (calls s) = before ++ dev :: after /\
            dev_bus dev = number 10 B /\ dev_addr dev = number 10 A /\
            (forall d, In d before ->
               ~ (dev_bus d = number 10 B /\ dev_addr d = number 10 A)) /\
            trace s' = trace s
                       ++ [EvGetDeviceList (ctx s);
                           EvOpenDevice dev
                             (fst (w_libusb_open w (S (calls s))));
                           EvFreeDeviceList]) \/
         ((forall d, In d (w_device_list w (calls s)) ->
             ~ (dev_bus d = number 10 B /\ dev_addr d = number 10 A)) /\
          trace s' = trace s ++ [EvGetDeviceList (ctx s);
                                 EvFreeDeviceList]))) /\
   Forall (by_bus_address (number 10 B) (number 10 A))
     (trace (final (main w fuel argv0 opts [bus_address B A]
                         initial_state)))) /\
  ((forall port s1,
      parse_command_line w argv0 opts [vendor_product V P] initial_state
      = Normal port s1 ->
      identity s1 = (number 16 V, number 16 P, -1, -1) /\
      identity (final (serve w fuel port s1)) = identity s1) /\
   (forall s,
      identity s = (number 16 V, number 16 P, -1, -1) ->
      exists s',
        find_device w s = Normal tt s' /\
        trace s' = trace s ++ [EvOpenVidPid (number 16 V) (number 16 P)] /\
        handle s' = w_open_vid_pid w (calls s)) /\
   Forall (by_vendor_product (number 16 V) (number 16 P))
     (trace (final (main w fuel argv0 opts [vendor_product V P]
                         initial_state)))).
Proof.
  intros HB HA LB LA HV HP LV LP.
  assert (0 <= number 16 V) by (apply value_from_nonneg; lia).
  assert (0 <= number 16 P) by (apply value_from_nonneg; lia).
  split; split; [| split | | split].
  - intros port s1 Hp.
    assert (Hid : identity s1 = (-1, -1, number 10 B, number 10 A)).
    { apply (parse_command_line_parsed w argv0 opts (bus_address B A)
               (fun s => set_usbaddr (number 10 A)
                           (set_usbbus (number 10 B) s)) port s1);
        [intros s; apply parse_bus_address; assumption| |exact Hp].
      unfold identity. simpl. intros s s' [= -> -> _ _]. reflexivity. }
    split; [exact Hid|]. apply (serve_locator w fuel port s1).
  - intros s [= Hv _ Hb Ha].
    destruct (find_device_run w s) as (s' & E & H1). exists s'.
    split; [exact E|]. rewrite Hv, Hb, Ha in H1. simpl in H1.
    destruct (scan_device_list _ _ _) as [dev|].
    + destruct H1 as ((D1 & D2 & before & after & L & F) & T & _).
      left. exists dev, before, after. auto.
    + destruct H1 as (F & T & _). right. auto.
  - destruct (main_trace w fuel argv0 opts (bus_address B A)
                (fun s => set_usbaddr (number 10 A)
                            (set_usbbus (number 10 B) s)))
      as (s1 & t3 & Hid & F1 & T & F3);
      [intros s; apply parse_bus_address; assumption|reflexivity|].
    rewrite T. apply Forall_app. split.
    + eapply forallb_Forall; [|exact F1]. intros [] He; try discriminate He.
      exact I.
    + eapply forallb_Forall; [|exact F3].
      unfold identity in Hid. injection Hid as Iv _ _ _.
      intros e He. destruct e; simpl in *; try exact I;
        rewrite Iv in He; simpl in He; try discriminate He.
      apply andb_prop in He as [H1 H2].
      apply Z.eqb_eq in H1, H2. auto.
  - intros port s1 Hp.
    assert (Hid : identity s1 = (number 16 V, number 16 P, -1, -1)).
    { apply (parse_command_line_parsed w argv0 opts (vendor_product V P)
               (fun s => set_usbproduct (number 16 P)
                           (set_usbvendor (number 16 V) s)) port s1);
        [intros s; apply parse_vendor_product; assumption| |exact Hp].
      unfold identity. simpl. intros s s' [= _ _ -> ->]. reflexivity. }
    split; [exact Hid|]. apply (serve_locator w fuel port s1).
  - intros s [= Hv Hp _ _].
    destruct (find_device_run w s) as (s' & E & H1). exists s'.
    split; [exact E|]. rewrite Hv, Hp in H1.
    rewrite (proj2 (Z.eqb_neq (number 16 V) (-1))) in H1 by lia.
    unfold to_uint16 in H1. rewrite !Z.mod_small in H1 by lia. exact H1.
  - destruct (main_trace w fuel argv0 opts (vendor_product V P)
                (fun s => set_usbproduct (number 16 P)
                            (set_usbvendor (number 16 V) s)))
      as (s1 & t3 & Hid & F1 & T & F3);
      [intros s; apply parse_vendor_product; assumption|reflexivity|].
    rewrite T. apply Forall_app. split.
    + eapply forallb_Forall; [|exact F1]. intros [] He; try discriminate He.
      exact I.
    + eapply forallb_Forall; [|exact F3].
      intros e He. destruct e; simpl in *; try exact I;
        rewrite (proj2 (Z.eqb_neq (number 16 V) (-1))) in He by lia;
        simpl in He; try discriminate He.
      apply andb_prop in He as [H1 H2].
      apply Z.eqb_eq in H1, H2. unfold to_uint16 in H1, H2.
      rewrite Z.mod_small in H1, H2 by lia. auto.
Qed.

Lemma device_locator_follows_identifier_witness :
  Forall (by_bus_address (number 10 "1") (number 10 "4"))
    (trace (final (main two_devices_world 2 "usbredirserver" []
                        [bus_address "1" "4"] initial_state))) /\
  Forall (by_vendor_product (number 16 "1234") (number 16 "abcd"))
    (trace (final (main two_devices_world 2 "usbredirserver" []
                        [vendor_product "1234" "abcd"] initial_state))).
Proof.
  assert (H := device_locator_follows_identifier two_devices_world 2
           "usbredirserver" [] "1" "4" "1234" "abcd").
  split; [apply H|apply H].
  all: first [ split; [discriminate|reflexivity]
             | reflexivity | vm_compute; discriminate ].
Defined.

(** C7 as stated fails for identifiers of the two forms whose values are
    beyond these ranges.  On a 64-bit [long] the vendor field "ffffffff"
    becomes -1 as an [int], the value that stands for "no vendor given", and
    the run scans the device list; the vendor field "12345" reaches the open
    as 0x2345; and the bus field "4294967297" becomes 1, so that the device
    at bus 1 is opened. *)
Example vendor_beyond_16_bits :
  number 16 "ffffffff" = 4294967295 /\
  In (EvGetDeviceList 100)
     (trace (final (main two_devices_world 2 "usbredirserver" []
                         [vendor_product "ffffffff" "1"] initial_state))) /\
  number 16 "12345" = 74565 /\
  In (EvOpenVidPid 9029 1)
     (trace (final (main two_devices_world 2 "usbredirserver" []
                         [vendor_product "12345" "1"] initial_state))) /\
  number 10 "4294967297" = 4294967297 /\
  In (EvOpenDevice (mkDevice 14 1 4) 0)
     (trace (final (main two_devices_world 2 "usbredirserver" []
                         [bus_address "4294967297" "4"] initial_state))).
Proof.
  split; [reflexivity|]. split; [vm_compute; tauto|].
  split; [reflexivity|]. split; [vm_compute; tauto|].
  split; [reflexivity|]. vm_compute; tauto.
Qed.

(** * Usage errors *)

Lemma handle_option_spec w argv0 o optarg port s :
  if option_accepted (o, optarg)
  then exists port' s1,
         handle_option w argv0 o optarg port s = Normal port' s1 /\
         trace s1 = trace s
  else exists c s1 t stream,
         handle_option w argv0 o optarg port s = Exit c s1 /\
         trace s1 = trace s ++ t ++ [EvPrint stream (MsgUsage argv0)] /\
         forallb is_print t = true /\
         ((c = 1 /\ stream = Stderr) \/
          (c = 0 /\ stream = Stdout /\ o = "h"%char)).
Proof.
  unfold option_accepted, handle_option, value_accepted.
  destruct (Ascii.eqb o "p");
    [|destruct (Ascii.eqb o "v");
      [|destruct (Ascii.eqb o "w");
        [|destruct (Ascii.eqb o "t");
          [|destruct (Ascii.eqb o "?");
            [|destruct (Ascii.eqb_spec o "h")]]]]].
  1,2,4: destruct (strtol optarg 10) as [v endptr]; simpl;
    destruct (stops_before endptr NUL); run;
    [ eexists 1, _, [_], Stderr; split; [reflexivity|]; simpl;
      rewrite <- !app_assoc; simpl; auto
    | eexists _, _; split; reflexivity ].
  - run. eexists _, _; split; reflexivity.
  - run. eexists 1, _, [], Stderr. split; [reflexivity|]. simpl. auto.
  - run. eexists 0, _, [], Stdout. split; [reflexivity|]. simpl. auto 6.
  - run. eexists _, _; split; reflexivity.
Qed.

Lemma parse_options_spec w argv0 opts port s :
  if forallb option_accepted opts
  then exists port' s1,
         parse_options w argv0 opts port s = Normal port' s1 /\
         trace s1 = trace s
  else exists c s1 t stream,
         parse_options w argv0 opts port s = Exit c s1 /\
         trace s1 = trace s ++ t ++ [EvPrint stream (MsgUsage argv0)] /\
         forallb is_print t = true /\
         ((c = 1 /\ stream = Stderr) \/
          (c = 0 /\ stream = Stdout /\ In "h"%char (map fst opts))).
Proof.
  revert port s. induction opts as [|[o a] opts IH]; intros port s.
  - simpl. eexists _, _. split; reflexivity.
  - cbn [forallb parse_options]. unfold bind.
    pose proof (handle_option_spec w argv0 o a port s) as H.
    destruct (option_accepted (o, a)).
    + destruct H as (port' & s1 & -> & T). cbn [andb].
      specialize (IH port' s1). destruct (forallb option_accepted opts).
      * destruct IH as (p2 & s2 & -> & T2). eexists _, _.
        split; [reflexivity|congruence].
      * destruct IH as (c & s2 & t & stream & -> & T2 & F & Hc).
        exists c, s2, t, stream. rewrite T2, T. repeat split; auto.
        destruct Hc as [Hc|(? & ? & ?)]; [left; exact Hc|right].
        repeat split; auto. simpl. auto.
    + destruct H as (c & s1 & t & stream & -> & T & F & Hc). cbn [andb].
      exists c, s1, t, stream. repeat split; auto.
      destruct Hc as [Hc|(? & ? & ->)]; [left; exact Hc|right].
      repeat split; auto. simpl. auto.
Qed.

Lemma parse_device_id_spec w argv0 arg s :
  if identifier_accepted arg
  then exists s1, parse_device_id w argv0 arg s = Normal tt s1 /\
                  trace s1 = trace s
  else exists s1,
         parse_device_id w argv0 arg s = Exit 1 s1 /\
         trace s1 = trace s ++ [EvPrint Stderr (MsgInvalidId arg)]
                            ++ [EvPrint Stderr (MsgUsage argv0)].
Proof.
  unfold identifier_accepted, parse_device_id.
  destruct (match strchr arg "-" with
            | Some d => negb (Ascii.eqb (deref (next d)) NUL)
            | None => false
            end).
  - destruct (strtol arg 10) as [v e]; simpl.
    destruct (strtol (next (default EmptyString (strchr arg "-"))) 10)
      as [v2 e2]; simpl.
    destruct (stops_before e "-"); run;
      [eexists; split; [reflexivity|rewrite <- app_assoc; reflexivity]|].
    destruct (stops_before e2 NUL); run;
      [eexists; split; [reflexivity|rewrite <- app_assoc; reflexivity]|].
    eexists; split; reflexivity.
  - destruct (strtol arg 16) as [v e]; simpl.
    destruct (strtol (next (default EmptyString (strchr arg ":"))) 16)
      as [v2 e2]; simpl.
    destruct (strchr arg ":") as [d|]; simpl;
      [destruct (Ascii.eqb (deref (next d)) NUL); simpl|]; run;
      try (eexists; split; [reflexivity|rewrite <- app_assoc; reflexivity]).
    destruct (stops_before e ":"); run;
      [eexists; split; [reflexivity|rewrite <- app_assoc; reflexivity]|].
    destruct (stops_before e2 NUL); run;
      [eexists; split; [reflexivity|rewrite <- app_assoc; reflexivity]|].
    eexists; split; reflexivity.
Qed.

Lemma command_line_outcome w fuel argv0 opts args s :
  if command_line_accepted opts args
  then exists port s1,
         parse_command_line w argv0 opts args s = Normal port s1 /\
         trace s1 = trace s
  else usage_exit argv0 opts s (main w fuel argv0 opts args s).
Proof.
  unfold command_line_accepted, usage_exit, main, parse_command_line, bind.
  pose proof (parse_options_spec w argv0 opts 4000 s) as Ho.
  destruct (forallb option_accepted opts); cbn [andb].
  2: { destruct Ho as (c & s1 & t & stream & -> & T & F & Hc).
       simpl. exists c, s1, t, stream. repeat split; auto. }
  destruct Ho as (port & s1 & -> & T).
  destruct args as [|arg more].
  { run. eexists 1, _, [_], Stderr. split; [reflexivity|]. simpl.
    rewrite T, <- !app_assoc. simpl. repeat split; auto. }
  pose proof (parse_device_id_spec w argv0 arg s1) as Hi.
  destruct (identifier_accepted arg).
  - destruct Hi as (s2 & -> & T2). destruct more as [|m more]; run.
    + eexists _, _. split; [reflexivity|congruence].
    + eexists 1, _, [_], Stderr. split; [reflexivity|]. simpl.
      rewrite T2, T, <- !app_assoc. simpl. repeat split; auto.
  - destruct Hi as (s2 & -> & T2).
    assert (exists c s3 t stream,
      @Exit unit 1 s2 = Exit c s3 /\
      trace s3 = trace s ++ t ++ [EvPrint stream (MsgUsage argv0)] /\
      forallb is_print t = true /\
      (c = 1 /\ stream = Stderr \/
       c = 0 /\ stream = Stdout /\ In "h"%char (map fst opts))) as H.
    { exists 1, s2, [EvPrint Stderr (MsgInvalidId arg)], Stderr.
      rewrite T2, T. repeat split; auto. }
    destruct more; exact H.
Qed.

(** C8 (as amended).  A command line that fails one of the parser's checks
    (a numeric option value with characters left after the number that
    [strtol] reads, an unknown option, no identifier or more than one, an
    identifier without a '-' or ':' that is followed by a character, or with
    a field that does not end at the delimiter or at the end of the string)
    ends the program while the command line is read: nothing but output has
    happened, so no resource is open, the usage text is the last of the
    output, and the status is 1 with the text on stderr, or 0 with the text
    on stdout when a help option came first. *)
Theorem usage_errors_before_resources
    (w : World) (fuel : nat) (argv0 : string) (opts : list (ascii * string))
    (args : list string) (s : State) :
  command_line_accepted opts args = false ->
  exists c s1 t stream,
    main w fuel argv0 opts args s = Exit c s1 /\
    trace s1 = trace s ++ t ++ [EvPrint stream (MsgUsage argv0)] /\
    forallb is_print t = true /\
    ((c = 1 /\ stream = Stderr) \/
     (c = 0 /\ stream = Stdout /\ In "h"%char (map fst opts))).
Proof.
  intros H. pose proof (command_line_outcome w fuel argv0 opts args s) as Ho.
  rewrite H in Ho. exact Ho.
Qed.

Lemma usage_errors_before_resources_witness :
  exists c s1 t stream,
    main calm_world 0 "usbredirserver" [("p"%char, "40x0"%string)]
         [bus_address "1" "4"] initial_state = Exit c s1 /\
    trace s1 = trace initial_state ++ t
               ++ [EvPrint stream (MsgUsage "usbredirserver")] /\
    forallb is_print t = true /\
    ((c = 1 /\ stream = Stderr) \/
     (c = 0 /\ stream = Stdout /\
      In "h"%char (map fst [("p"%char, "40x0"%string)]))).
Proof.
  apply (usage_errors_before_resources calm_world 0 "usbredirserver"
           [("p"%char, "40x0"%string)] [bus_address "1" "4"] initial_state).
  reflexivity.
Defined.

(** C8 as stated fails.  An empty port value is no number, and an identifier
    ":abcd" names no vendor, yet both pass the checks and the program goes on
    to initialise libusb and to open its socket.  And with a help option in
    front, a port value "zzz" ends the program with status 0. *)
Lemma malformed_values_pass :
  ~ numeral 10 "" /\ ~ numeral 16 "" /\
  command_line_accepted [("p"%char, EmptyString)] [vendor_product "" "abcd"]
    = true /\
  firstn 7 (trace (final (main calm_world 0 "usbredirserver"
                            [("p"%char, EmptyString)]
                            [vendor_product "" "abcd"] initial_state)))
    = [EvSigaction; EvSigaction; EvSigaction; EvSigaction;
       EvLibusbInit 0; EvSetDebug 100 3; EvSocket 3] /\
  ~ numeral 10 "zzz" /\
  exists s1,
    main calm_world 0 "usbredirserver"
         [("h"%char, EmptyString); ("p"%char, "zzz"%string)]
         [bus_address "1" "4"] initial_state
    = Exit 0 s1 /\
    trace s1 = [EvPrint Stdout (MsgUsage "usbredirserver")].
Proof.
  split; [intros [H _]; apply H; reflexivity|].
  split; [intros [H _]; apply H; reflexivity|].
  split; [reflexivity|]. split; [vm_compute; reflexivity|].
  split; [intros [_ H]; discriminate H|].
  eexists. split; vm_compute; reflexivity.
Qed.

(** * Further reasoning about programs *)

#[local] Instance emits_preorder P : PreOrder (emits P).
Proof.
  split.
  - intros s. exists []. split; [|reflexivity]. symmetry. apply app_nil_r.
  - intros a b c (t1 & T1 & F1) (t2 & T2 & F2). exists (t1 ++ t2).
    split; [rewrite T2, T1; symmetry; apply app_assoc|].
    rewrite forallb_app, F1, F2. reflexivity.
Qed.

#[local] Instance keeps_preorder {A} (f : State -> A) : PreOrder (keeps f).
Proof.
  split; [intros s; reflexivity|].
  intros a b c H1 H2. unfold keeps in *. congruence.
Qed.

Ltac emits_leaf :=
  first [ solve [auto]
        | let s := fresh "s" in
          intros s; unfold emits, call, deliver; simpl;
          repeat case_match; simpl;
          first [ eexists; split;
                    [reflexivity|simpl; rewrite ?Z.eqb_refl; reflexivity]
                | exists []; split; [symmetry; apply app_nil_r|reflexivity] ] ].

Ltac keeps_leaf :=
  first [ solve [auto]
        | let s := fresh "s" in
          intros s; unfold keeps, call, deliver; simpl;
          repeat case_match; reflexivity ].

(** ** How a program ends *)

Section Ends.
Context (w : World) (P : Z -> Prop).

Lemma exits_with_ret {A} (a : A) : exits_with w P (ret a).
Proof. intros s. exact I. Qed.

Lemma exits_with_gets {A} (f : State -> A) : exits_with w P (gets f).
Proof. intros s. exact I. Qed.

Lemma exits_with_modify f : exits_with w P (modify f).
Proof. intros s. exact I. Qed.

Lemma exits_with_call {A} w0 (answer : World -> nat -> A) ev :
  exits_with w P (call w0 answer ev).
Proof. intros s. exact I. Qed.

Lemma exits_with_break {A} : exits_with w P (@break_ A).
Proof. intros s. exact I. Qed.

Lemma exits_with_continue {A} : exits_with w P (@continue_ A).
Proof. intros s. exact I. Qed.

Lemma exits_with_exit {A} c : P c -> exits_with w P (@exit A c).
Proof. intros H s. exact H. Qed.

Lemma exits_with_bind {A B} (m : M A) (k : A -> M B) :
  exits_with w P m -> (forall a, exits_with w P (k a)) -> exits_with w P (bind m k).
Proof.
  intros Hm Hk s. unfold bind. specialize (Hm s).
  destruct (m s) as [a s1| | | | |]; auto. apply Hk.
Qed.

Lemma exits_with_when b (m : M unit) : exits_with w P m -> exits_with w P (when b m).
Proof. intros H. destruct b; simpl; [exact H|apply exits_with_ret]. Qed.

Lemma exits_with_while fuel cond (body : M unit) :
  exits_with w P body -> exits_with w P (while fuel cond body).
Proof.
  intros Hb. induction fuel as [|fuel IH]; intros s; simpl;
    destruct (cond s); try exact I.
  specialize (Hb s). destruct (body s); auto; apply IH.
Qed.

Lemma returns_or_exits_ret {A} (a : A) : returns_or_exits w P (ret a).
Proof. intros s. exact I. Qed.

Lemma returns_or_exits_gets {A} (f : State -> A) : returns_or_exits w P (gets f).
Proof. intros s. exact I. Qed.

Lemma returns_or_exits_modify f : returns_or_exits w P (modify f).
Proof. intros s. exact I. Qed.

Lemma returns_or_exits_call {A} w0 (answer : World -> nat -> A) ev :
  returns_or_exits w P (call w0 answer ev).
Proof. intros s. exact I. Qed.

Lemma returns_or_exits_exit {A} c : P c -> returns_or_exits w P (@exit A c).
Proof. intros H s. exact H. Qed.

Lemma returns_or_exits_bind {A B} (m : M A) (k : A -> M B) :
  returns_or_exits w P m -> (forall a, returns_or_exits w P (k a)) ->
  returns_or_exits w P (bind m k).
Proof.
  intros Hm Hk s. unfold bind. specialize (Hm s).
  destruct (m s) as [a s1| | | | |]; auto. apply Hk.
Qed.

Lemma returns_or_exits_when b (m : M unit) :
  returns_or_exits w P m -> returns_or_exits w P (when b m).
Proof. intros H. destruct b; simpl; [exact H|apply returns_or_exits_ret]. Qed.

(** A loop swallows the jumps of its body. *)
Lemma returns_or_exits_while fuel cond (body : M unit) :
  exits_with w P body -> returns_or_exits w P (while fuel cond body).
Proof.
  intros Hb. induction fuel as [|fuel IH]; intros s; simpl;
    destruct (cond s); try exact I.
  specialize (Hb s). destruct (body s); auto; apply IH.
Qed.

Lemma never_returns_exit {A} c : P c -> never_returns w P (@exit A c).
Proof. intros H s. exact H. Qed.

Lemma never_returns_bind {A B} (m : M A) (k : A -> M B) :
  returns_or_exits w P m -> (forall a, never_returns w P (k a)) ->
  never_returns w P (bind m k).
Proof.
  intros Hm Hk s. unfold bind. specialize (Hm s).
  destruct (m s) as [a s1| | | | |]; auto. apply Hk.
Qed.
End Ends.

Ltac exits_auto leaf :=
  lazymatch goal with
  | |- forall _, _ => intros ?; cbv beta; exits_auto leaf
  | |- exits_with _ _ (bind _ _) => apply exits_with_bind; exits_auto leaf
  | |- exits_with _ _ (ret _) => apply exits_with_ret
  | |- exits_with _ _ (gets _) => apply exits_with_gets
  | |- exits_with _ _ (modify _) => apply exits_with_modify
  | |- exits_with _ _ (call _ _ _) => apply exits_with_call
  | |- exits_with _ _ break_ => apply exits_with_break
  | |- exits_with _ _ continue_ => apply exits_with_continue
  | |- exits_with _ _ (exit _) => apply exits_with_exit; leaf
  | |- exits_with _ _ (when _ _) => apply exits_with_when; exits_auto leaf
  | |- exits_with _ _ (while _ _ _) => apply exits_with_while; exits_auto leaf
  | |- exits_with _ _ (if ?b then _ else _) => destruct b; exits_auto leaf
  | |- exits_with _ _ (match ?x with _ => _ end) =>
      destruct x; exits_auto leaf
  | |- exits_with _ _ ?m =>
      first [ solve [auto]
            | let h := head m in progress unfold h; exits_auto leaf ]
  end.

Ltac returns_auto leaf :=
  lazymatch goal with
  | |- forall _, _ => intros ?; cbv beta; returns_auto leaf
  | |- returns_or_exits _ _ (bind _ _) =>
      apply returns_or_exits_bind; returns_auto leaf
  | |- returns_or_exits _ _ (ret _) => apply returns_or_exits_ret
  | |- returns_or_exits _ _ (gets _) => apply returns_or_exits_gets
  | |- returns_or_exits _ _ (modify _) => apply returns_or_exits_modify
  | |- returns_or_exits _ _ (call _ _ _) => apply returns_or_exits_call
  | |- returns_or_exits _ _ (exit _) => apply returns_or_exits_exit; leaf
  | |- returns_or_exits _ _ (when _ _) =>
      apply returns_or_exits_when; returns_auto leaf
  | |- returns_or_exits _ _ (while _ _ _) =>
      apply returns_or_exits_while; exits_auto leaf
  | |- returns_or_exits _ _ (if ?b then _ else _) =>
      destruct b; returns_auto leaf
  | |- returns_or_exits _ _ (match ?x with _ => _ end) =>
      destruct x; returns_auto leaf
  | |- returns_or_exits _ _ ?m =>
      first [ solve [auto]
            | let h := head m in progress unfold h; returns_auto leaf ]
  end.

Ltac never_returns_auto leaf :=
  lazymatch goal with
  | |- forall _, _ => intros ?; cbv beta; never_returns_auto leaf
  | |- never_returns _ _ (bind _ _) =>
      apply never_returns_bind; [returns_auto leaf | never_returns_auto leaf]
  | |- never_returns _ _ (exit _) => apply never_returns_exit; leaf
  | |- never_returns _ _ (if ?b then _ else _) =>
      destruct b; never_returns_auto leaf
  | |- never_returns _ _ (match ?x with _ => _ end) =>
      destruct x; never_returns_auto leaf
  | |- never_returns _ _ ?m =>
      let h := head m in progress unfold h; never_returns_auto leaf
  end.

(** * How the process ends *)

(** The write callback is where the process can die. *)
Lemma usbredirserver_write_exits P w : exits_with w P (usbredirserver_write w).
Proof.
  intros s. run. destruct (w_io w (calls s)) as [r e]. simpl.
  destruct (raises_sigpipe (client_fd s) r e) eqn:R; simpl;
    [destruct (w_sigpipe_fatal w) eqn:F; simpl|];
    try (repeat (case_atom; simpl); exact I).
  unfold raises_sigpipe in R. apply andb_prop in R as [_ R].
  apply Z.leb_le in R. repeat split; auto. simpl. eauto.
Qed.

Lemma run_callbacks_exits P w cs : exits_with w P (run_callbacks w cs).
Proof.
  pose proof (usbredirserver_write_exits P w).
  induction cs as [|[] cs IH]; simpl; exits_auto idtac.
Qed.

Lemma parse_options_returns w argv0 opts port :
  returns_or_exits w (fun c => c = 0 \/ c = 1)
    (parse_options w argv0 opts port).
Proof.
  revert port. induction opts as [|[o a] opts IH]; intros port; simpl;
    returns_auto ltac:(auto).
Qed.

(** Inside the accept loop every [exit] has status 1. *)
Lemma accept_body_exits w fuel server_fd :
  exits_with w (fun c => c = 1) (accept_body w fuel server_fd).
Proof.
  pose proof (run_callbacks_exits (fun c => c = 1) w).
  exits_auto ltac:(reflexivity).
Qed.

(** X15.  [main] never returns.  As long as the calls it makes return (the
    one death inside a call that the embedding has is SIGPIPE in [write]), a
    run that ends does so through [exit], with status 0 or 1, or dies of
    SIGPIPE inside a [write] of the write callback on an open descriptor;
    the latter only when SIGPIPE has its default action in the process, so
    that with SIGPIPE ignored every such end is an [exit]. *)
Theorem main_ends_by_exit (w : World) (fuel : nat) (argv0 : string)
    (opts : list (ascii * string)) (args : list string) (s : State) :
  match main w fuel argv0 opts args s with
  | Exit c _ => c = 0 \/ c = 1
  | Killed sig s' =>
      sig = SIGPIPE /\ w_sigpipe_fatal w = true /\
      exists t fd, trace s' = t ++ [EvWrite fd] /\ 0 <= fd
  | Fuel _ => True
  | Normal _ _ | Break _ | Continue _ => False
  end.
Proof.
  revert s. change (never_returns w (fun c => c = 0 \/ c = 1)
                      (main w fuel argv0 opts args)).
  pose proof (run_callbacks_exits (fun c => c = 0 \/ c = 1) w).
  pose proof (parse_options_returns w argv0 opts).
  never_returns_auto ltac:(auto).
Qed.

Lemma serve_grows w fuel port : preserves grows (serve w fuel port).
Proof. pose proof (run_callbacks_grows w). preserve grows_leaf. Qed.

Lemma accept_loop_grows w fuel n server_fd :
  preserves grows
    (while n (fun s => truthy (running s)) (accept_body w fuel server_fd)).
Proof. pose proof (run_callbacks_grows w). preserve grows_leaf. Qed.

(** Status 0 after the command line means an orderly end: the last two calls
    are the close of the listening socket and [libusb_exit]. *)
Lemma serve_exit_0 w fuel port s s' :
  serve w fuel port s = Exit 0 s' ->
  exists t server_fd,
    trace s' = trace s ++ t ++ [EvCloseServer server_fd; EvLibusbExit (ctx s')] /\
    In (EvSocket server_fd) t.
Proof.
  unfold serve. run. repeat (case_atom; simpl); try discriminate.
  all: try (exfalso; tests_in_context; congruence).
  match goal with
  | |- context [while fuel ?c (accept_body w fuel ?fd) ?x] =>
    pose proof (returns_or_exits_while w (fun z => z = 1) fuel c _
                  (accept_body_exits w fuel fd) x) as Hx;
    destruct (accept_loop_grows w fuel fuel fd x) as (t & T);
    destruct (while fuel c (accept_body w fuel fd) x)
      as [[] s1|s1|s1|c1 s1|sg s1|s1]
  end;
    simpl in *; try contradiction; try discriminate.
  - intros [= <-]. simpl. rewrite T. simpl. rewrite <- !app_assoc. simpl.
    match goal with
    | |- exists _ _,
           _ ++ ?a1 :: ?a2 :: ?a3 :: ?a4 :: ?a5 :: ?a6 :: EvSocket ?fd
             :: ?a8 :: ?a9 :: ?a10 :: t ++ _ = _ /\ _ =>
        exists (a1 :: a2 :: a3 :: a4 :: a5 :: a6 :: EvSocket fd
                :: a8 :: a9 :: a10 :: t), fd
    end.
    split; [reflexivity|]. simpl. auto 10.
  - intros [= -> <-]. discriminate.
Qed.

(** X16.  A run of [main] that ends with status 0 has either printed the usage
    text on stdout, a help option having been given, and done nothing but
    output, or it has come to the end of [main]: its last two calls are the
    close of the listening socket it opened and [libusb_exit]. *)
Theorem exit_status_0_is_orderly (w : World) (fuel : nat) (argv0 : string)
    (opts : list (ascii * string)) (args : list string) (s s' : State) :
  main w fuel argv0 opts args s = Exit 0 s' ->
  (exists t,
     trace s' = trace s ++ t ++ [EvPrint Stdout (MsgUsage argv0)] /\
     forallb is_print t = true /\ In "h"%char (map fst opts)) \/
  (exists t server_fd,
     trace s' = trace s ++ t
                ++ [EvCloseServer server_fd; EvLibusbExit (ctx s')] /\
     In (EvSocket server_fd) t).
Proof.
  intros H. pose proof (command_line_outcome w fuel argv0 opts args s) as Ho.
  destruct (command_line_accepted opts args).
  - right. destruct Ho as (port & s1 & E & T). unfold main, bind in H.
    rewrite E in H. rewrite <- T. apply (serve_exit_0 w fuel port). exact H.
  - left. destruct Ho as (c & s1 & t & stream & E & T & F & Hc).
    rewrite H in E. injection E as <- <-. exists t.
    destruct Hc as [[? _]|(_ & -> & Hh)]; [discriminate|auto].
Qed.

Lemma exit_status_0_is_orderly_witness :
  (exists t,
     trace (final (main interrupted_accept_world 1 "usbredirserver" []
                        [vendor_product "1234" "abcd"] initial_state))
     = trace initial_state ++ t
       ++ [EvPrint Stdout (MsgUsage "usbredirserver")] /\
     forallb is_print t = true /\ In "h"%char (map fst (@nil (ascii * string)))) \/
  (exists t server_fd,
     trace (final (main interrupted_accept_world 1 "usbredirserver" []
                        [vendor_product "1234" "abcd"] initial_state))
     = trace initial_state ++ t
       ++ [EvCloseServer server_fd;
           EvLibusbExit
             (ctx (final (main interrupted_accept_world 1 "usbredirserver" []
                                [vendor_product "1234" "abcd"]
                                initial_state)))] /\
     In (EvSocket server_fd) t).
Proof.
  apply (exit_status_0_is_orderly interrupted_accept_world 1 "usbredirserver"
           [] [vendor_product "1234" "abcd"] initial_state).
  vm_compute. reflexivity.
Defined.

(** ** Exits from within the accept loop *)

Section InitFailure.
Context {A B : Type}.

Lemma init_failure_steady (m : M A) :
  preserves grows m ->
  (forall s, match m s with Exit _ _ => False | _ => True end) ->
  exits_on_init_failure m.
Proof.
  intros Hg Hn s. split; [apply Hg|]. specialize (Hn s).
  destruct (m s); auto. contradiction.
Qed.

Lemma init_failure_bind (m : M A) (k : A -> M B) :
  exits_on_init_failure m -> (forall a, exits_on_init_failure (k a)) ->
  exits_on_init_failure (bind m k).
Proof.
  intros Hm Hk s. unfold bind. destruct (Hm s) as [(t1 & T1) E1].
  destruct (m s) as [a s1|s1|s1|c s1|sg s1|s1]; simpl in *;
    try (split; [exists t1; exact T1|auto]).
  destruct (Hk a s1) as [(t2 & T2) E2]. split.
  - exists (t1 ++ t2). rewrite T2, T1. symmetry. apply app_assoc.
  - destruct (k a s1); auto. destruct E2 as (-> & t & T).
    split; [reflexivity|]. exists (t1 ++ t).
    rewrite T, T1, <- !app_assoc. reflexivity.
Qed.
End InitFailure.

Lemma init_failure_exit w :
  exits_on_init_failure
    (bind (print w Stderr MsgNoLibusb) (fun _ => @exit unit 1)).
Proof.
  intros s. unfold bind, print, call, exit, deliver. simpl. split.
  - eexists. reflexivity.
  - split; [reflexivity|]. exists []. reflexivity.
Qed.

Lemma init_failure_when b (m : M unit) :
  exits_on_init_failure m -> exits_on_init_failure (when b m).
Proof.
  intros H. destruct b; simpl; [exact H|].
  apply init_failure_steady; [apply preserves_ret; exact _|intros s; exact I].
Qed.

Lemma init_failure_while fuel cond (body : M unit) :
  exits_on_init_failure body -> exits_on_init_failure (while fuel cond body).
Proof.
  intros Hb. induction fuel as [|fuel IH]; intros s; simpl.
  - destruct (cond s); simpl; (split; [reflexivity|exact I]).
  - destruct (cond s); [|split; [reflexivity|exact I]].
    destruct (Hb s) as [(t1 & T1) E1].
    destruct (body s) as [[] s1|s1|s1|c s1|sg s1|s1]; simpl in *;
      try (split; [exists t1; exact T1|auto]);
      destruct (IH s1) as [(t2 & T2) E2];
      (split; [exists (t1 ++ t2); rewrite T2, T1; symmetry; apply app_assoc|]);
      destruct (while fuel cond body s1); auto;
      destruct E2 as (-> & t & T); (split; [reflexivity|]);
      exists (t1 ++ t); rewrite T, T1, <- !app_assoc; reflexivity.
Qed.

Ltac init_failure_leaf :=
  apply init_failure_steady;
  [ solve [preserve grows_leaf]
  | let s := fresh "s" in
    intros s; unfold call, modify, gets, ret, break_, continue_, kill; simpl;
    repeat case_match; exact I ].

Ltac init_failure_auto :=
  lazymatch goal with
  | |- forall _, _ => intros ?; cbv beta; init_failure_auto
  | |- exits_on_init_failure (bind (print _ Stderr MsgNoLibusb) _) =>
      apply init_failure_exit
  | |- exits_on_init_failure (bind _ _) =>
      apply init_failure_bind; init_failure_auto
  | |- exits_on_init_failure (when _ _) =>
      apply init_failure_when; init_failure_auto
  | |- exits_on_init_failure (while _ _ _) =>
      apply init_failure_while; init_failure_auto
  | |- exits_on_init_failure (ret _) => init_failure_leaf
  | |- exits_on_init_failure (gets _) => init_failure_leaf
  | |- exits_on_init_failure (modify _) => init_failure_leaf
  | |- exits_on_init_failure (call _ _ _) => init_failure_leaf
  | |- exits_on_init_failure break_ => init_failure_leaf
  | |- exits_on_init_failure continue_ => init_failure_leaf
  | |- exits_on_init_failure (kill _) => init_failure_leaf
  | |- exits_on_init_failure (if ?b then _ else _) =>
      destruct b; init_failure_auto
  | |- exits_on_init_failure (match ?x with _ => _ end) =>
      destruct x; init_failure_auto
  | |- exits_on_init_failure ?m =>
      first [ solve [auto]
            | let h := head m in progress unfold h; init_failure_auto ]
  end.

Lemma run_callbacks_init_failure w cs :
  exits_on_init_failure (run_callbacks w cs).
Proof. induction cs as [|[] cs IH]; simpl; init_failure_auto. Qed.

Lemma run_main_loop_init_failure w fuel :
  exits_on_init_failure (run_main_loop w fuel).
Proof. pose proof (run_callbacks_init_failure w). init_failure_auto. Qed.

(** X14.  Within the accept loop the process exits in two situations only, both
    with status 1: [usbredirhost_open] gives no instance for a client that has
    connected, and then that open is the last call, nothing is printed and
    nothing is closed; or [libusb_init] fails in the retry block, and then the
    last call is the message on stderr. *)
Theorem exits_within_accept_loop (w : World) (fuel : nat) (server_fd : Z)
    (s s' : State) (c : Z) :
  accept_body w fuel server_fd s = Exit c s' ->
  c = 1 /\
  exists t e,
    trace s' = trace s ++ t ++ [e] /\
    (e = EvPrint Stderr MsgNoLibusb \/ exists dev, e = EvHostOpen dev 0 0).
Proof.
  unfold accept_body. run.
  repeat (case_atom; simpl); try discriminate;
    try match goal with
        | |- context [run_main_loop w fuel ?x] =>
            assert (G : grows s x)
              by (unfold grows; simpl; rewrite <- ?app_assoc;
                  eexists; reflexivity);
            destruct (run_main_loop_init_failure w fuel x) as [_ E];
            destruct (run_main_loop w fuel x) as [[] s1|s1|s1|c1 s1|sg s1|s1];
            try discriminate;
            destruct E as (-> & t & T); destruct G as (t0 & T0);
            intros [= <- <-]; (split; [reflexivity|]);
            exists (t0 ++ t), (EvPrint Stderr MsgNoLibusb);
            (split; [rewrite T, T0, <- !app_assoc; reflexivity|auto])
        end.
  all: intros [= <- <-]; (split; [reflexivity|]); simpl;
    tests_in_context;
    match goal with
    | H : w_host_open _ _ = 0 |- _ => rewrite H
    end;
    match goal with
    | |- exists t e, ?l ++ [?x] = _ /\ _ =>
        assert (G : exists t, l = trace s ++ t)
          by (rewrite <- ?app_assoc; eexists; reflexivity);
        destruct G as (t & T); exists t, x; rewrite T, <- app_assoc;
        split; [reflexivity|right; eexists; reflexivity]
    end.
Qed.

Lemma exits_within_accept_loop_witness :
  1 = 1 /\
  exists t e,
    trace (final (accept_body no_host_world 1 3 listening_state))
    = trace listening_state ++ t ++ [e] /\
    (e = EvPrint Stderr MsgNoLibusb \/ exists dev, e = EvHostOpen dev 0 0).
Proof.
  apply (exits_within_accept_loop no_host_world 1 3 listening_state).
  vm_compute. reflexivity.
Defined.

(** * Start-up of the server (source lines 409-447) *)

Lemma serve_shape w fuel port s :
  exists t, trace (final (serve w fuel port s)) = trace s ++ t /\
    (forallb (fun e => negb (is_accept e)) t = true \/
     exists c server_fd rest,
       t = [EvSigaction; EvSigaction; EvSigaction; EvSigaction;
            EvLibusbInit 0; EvSetDebug c (verbose s); EvSocket server_fd;
            EvSetsockopt 0; EvBind (port mod 65536) 0; EvListen 0] ++ rest /\
       server_fd <> -1).
Proof.
  unfold serve. run. repeat (case_atom; simpl).
  all: try (exfalso; tests_in_context; congruence).
  all: try (rewrite <- !app_assoc; simpl; eexists; split; [reflexivity|];
            left; reflexivity).
  match goal with
  | |- context [while fuel ?c (accept_body w fuel ?fd) ?x] =>
    destruct (accept_loop_grows w fuel fuel fd x) as (t & T);
    destruct (while fuel c (accept_body w fuel fd) x)
      as [[] s1|s1|s1|c1 s1|sg s1|s1]
  end; simpl in *; rewrite T; simpl; rewrite <- !app_assoc; simpl;
    tests_in_context;
    repeat match goal with
           | H : w_status _ _ = 0 |- _ => rewrite H; clear H
           end;
    subst; (eexists; split; [reflexivity|]); right;
    (eexists _, _, _; split; [reflexivity|assumption]).
Qed.

(** X9.  The server accepts a connection only after the whole start-up has
    succeeded: a run of the part of [main] after the command line in which
    [accept] is called began with the four [sigaction] calls, a successful
    [libusb_init], [libusb_set_debug] with [verbose], and a socket that was
    created, set up, bound to the port (as [htons] cuts it) and put to
    listening, each with success. *)
Theorem accept_only_after_setup (w : World) (fuel : nat) (port : Z)
    (s : State) (fd : Z) :
  In (EvAccept fd) (emitted s (serve w fuel port s)) ->
  exists c server_fd rest,
    emitted s (serve w fuel port s)
    = [EvSigaction; EvSigaction; EvSigaction; EvSigaction;
       EvLibusbInit 0; EvSetDebug c (verbose s); EvSocket server_fd;
       EvSetsockopt 0; EvBind (port mod 65536) 0; EvListen 0] ++ rest /\
    server_fd <> -1.
Proof.
  destruct (serve_shape w fuel port s) as (t & T & H).
  rewrite (emitted_app _ _ _ T). intros Hin.
  destruct H as [H|H]; [|exact H].
  rewrite forallb_forall in H. apply H in Hin. discriminate.
Qed.

Lemma accept_only_after_setup_witness :
  exists c server_fd rest,
    emitted initial_state (serve calm_world 1 4000 initial_state)
    = [EvSigaction; EvSigaction; EvSigaction; EvSigaction;
       EvLibusbInit 0; EvSetDebug c (verbose initial_state);
       EvSocket server_fd; EvSetsockopt 0; EvBind (4000 mod 65536) 0;
       EvListen 0] ++ rest /\
    server_fd <> -1.
Proof.
  apply (accept_only_after_setup calm_world 1 4000 initial_state 5).
  vm_compute. auto 20.
Defined.

(** * What the options set *)

Lemma last_value_without o opts d : without o opts -> last_value o opts d = d.
Proof.
  revert d. induction opts as [|[o' a] opts IH]; intros d H; simpl;
    [reflexivity|].
  destruct (Ascii.eqb_spec o' o) as [->|].
  - exfalso. apply (H a). left. reflexivity.
  - apply IH. intros a' Hin. apply (H a'). right. exact Hin.
Qed.

Lemma last_value_last o before optarg after d :
  without o after ->
  last_value o (before ++ (o, optarg) :: after) d
  = to_int (fst (strtol optarg 10)).
Proof.
  intros H. revert d. induction before as [|[o' a] before IH]; intros d; simpl.
  - rewrite Ascii.eqb_refl. apply last_value_without. exact H.
  - apply IH.
Qed.

Lemma handle_option_port w argv0 o optarg port s port' s1 :
  handle_option w argv0 o optarg port s = Normal port' s1 ->
  port' = if Ascii.eqb o "p" then to_int (fst (strtol optarg 10)) else port.
Proof.
  unfold handle_option.
  destruct (Ascii.eqb o "p");
    [|destruct (Ascii.eqb o "v");
      [|destruct (Ascii.eqb o "w");
        [|destruct (Ascii.eqb o "t");
          [|destruct (Ascii.eqb o "?");
            [|destruct (Ascii.eqb o "h")]]]]];
    try (destruct (strtol optarg 10) as [v endptr]; simpl;
         destruct (stops_before endptr NUL));
    run; congruence.
Qed.

Lemma parse_options_port w argv0 opts port s port' s1 :
  parse_options w argv0 opts port s = Normal port' s1 ->
  port' = last_value "p" opts port.
Proof.
  revert port s. induction opts as [|[o a] opts IH]; intros port s; simpl.
  - unfold ret. congruence.
  - unfold bind.
    destruct (handle_option w argv0 o a port s) as [p1 s2| | | | |] eqn:E;
      try discriminate.
    apply handle_option_port in E. subst p1. apply IH.
Qed.

Lemma serve_binds w fuel port :
  preserves (emits (binds_port (port mod 65536))) (serve w fuel port).
Proof.
  assert (forall cs, preserves (emits (binds_port (port mod 65536)))
                       (run_callbacks w cs)).
  { induction cs as [|[] cs IH]; simpl; preserve emits_leaf. }
  preserve emits_leaf.
Qed.

(** X8.  The port the server binds is 4000 unless a port option is given; with
    port options, it is the number of the last one, cut to 16 bits as [htons]
    does. *)
Theorem bound_port (w : World) (fuel : nat) (argv0 : string)
    (opts : list (ascii * string)) (args : list string) (s : State)
    (port rc : Z) :
  In (EvBind port rc) (emitted s (main w fuel argv0 opts args s)) ->
  (without "p" opts -> port = 4000) /\
  (forall before ds after,
     opts = before ++ ("p"%char, ds) :: after -> without "p" after ->
     numeral 10 ds -> number 10 ds < 2147483648 ->
     port = number 10 ds mod 65536).
Proof.
  intros Hin.
  assert (Hp : port = last_value "p" opts 4000 mod 65536).
  { pose proof (command_line_outcome w fuel argv0 opts args s) as Ho.
    destruct (command_line_accepted opts args).
    - destruct Ho as (p & s1 & E & T). unfold main, bind in Hin.
      rewrite E in Hin.
      assert (p = last_value "p" opts 4000); [|subst p].
      { unfold parse_command_line, bind in E.
        destruct (parse_options w argv0 opts 4000 s) as [p1 s2| | | | |] eqn:Eo;
          try discriminate.
        apply parse_options_port in Eo. subst p1.
        destruct args as [|arg more]; [discriminate|].
        destruct (parse_device_id w argv0 arg s2) as [[] s3| | | | |];
          try discriminate.
        destruct more; simpl in E; [|discriminate].
        injection E as <- _. reflexivity. }
      destruct (serve_binds w fuel (last_value "p" opts 4000) s1)
        as (t & Tt & F).
      rewrite (emitted_app s _ t) in Hin by (rewrite Tt, T; reflexivity).
      rewrite forallb_forall in F. apply F in Hin. simpl in Hin.
      apply Z.eqb_eq in Hin. exact Hin.
    - destruct Ho as (c & s1 & t & stream & E & T & F & _).
      rewrite E in Hin.
      rewrite (emitted_app s (@Exit unit c s1) _ T) in Hin.
      apply in_app_or in Hin. destruct Hin as [Hin|[Hin|[]]]; [|discriminate].
      rewrite forallb_forall in F. apply F in Hin. discriminate. }
  split.
  - intros H. rewrite Hp, (last_value_without _ _ _ H). reflexivity.
  - intros before ds after -> H Hn Hlt.
    rewrite Hp, (last_value_last _ _ _ _ _ H).
    rewrite (strtol_numeral_end 10 ds) by (auto; lia). simpl.
    assert (0 <= number 10 ds) by (apply value_from_nonneg; lia).
    rewrite to_int_small by lia. reflexivity.
Qed.

Lemma bound_port_witness : 4000 = number 10 "69536" mod 65536.
Proof.
  refine (proj2 (bound_port calm_world 1 "usbredirserver"
                   [("p"%char, "80"%string); ("w"%char, EmptyString);
                    ("p"%char, "69536"%string)]
                   [vendor_product "1234" "abcd"] initial_state 4000 0 _)
            [("p"%char, "80"%string); ("w"%char, EmptyString)]
            "69536"%string [] eq_refl _ _ _).
  - vm_compute. auto 20.
  - intros a [].
  - split; [discriminate|reflexivity].
  - reflexivity.
Defined.

(** * The descriptor sets and the timeout of [select] (source lines 189-221) *)

#[local] Set Warnings "-clear-no-such-hyp".

Lemma add_pollfds_inv pollfds : forall readfds writefds nfds,
  match add_pollfds pollfds (readfds, writefds, nfds) with
  | (readfds', writefds', nfds') =>
      nfds <= nfds' /\
      (forall p, In p pollfds -> pfd_fd p < nfds') /\
      readfds ⊆ readfds' /\ writefds ⊆ writefds' /\
      (forall x, x ∈ readfds' ->
         x ∈ readfds \/
         exists p, In p pollfds /\ pfd_fd p = x /\
                   truthy (Z.land (pfd_events p) POLLIN) = true) /\
      (forall x, x ∈ writefds' ->
         x ∈ writefds \/
         exists p, In p pollfds /\ pfd_fd p = x /\
                   truthy (Z.land (pfd_events p) POLLOUT) = true) /\
      (forall p, In p pollfds ->
         truthy (Z.land (pfd_events p) POLLIN) = true ->
         pfd_fd p ∈ readfds') /\
      (forall p, In p pollfds ->
         truthy (Z.land (pfd_events p) POLLOUT) = true ->
         pfd_fd p ∈ writefds') /\
      (nfds' = nfds \/ exists p, In p pollfds /\ nfds' = pfd_fd p + 1)
  end.
Proof.
  induction pollfds as [|p ps IH]; intros R W n.
  - simpl. repeat split; auto; try set_solver; try lia; intros ? [].
  - unfold add_pollfds. simpl fold_left.
    match goal with |- context [fold_left ?f ps (?R1, ?W1, ?n1)] =>
      specialize (IH R1 W1 n1); change (fold_left f ps (R1, W1, n1))
        with (add_pollfds ps (R1, W1, n1)) in *;
      destruct (add_pollfds ps (R1, W1, n1)) as [[R' W'] n'] end.
    destruct IH as (Hn & Hp & HR & HW & HRi & HWi & HRo & HWo & Hl).
    assert (Hn1 : n <= n' /\ pfd_fd p < n').
    { destruct (Z.geb_spec (pfd_fd p) n); lia. }
    repeat split.
    + lia.
    + intros q [<-|Hq]; [lia|auto].
    + destruct (truthy (Z.land (pfd_events p) POLLIN)); set_solver.
    + destruct (truthy (Z.land (pfd_events p) POLLOUT)); set_solver.
    + intros x Hx. destruct (HRi x Hx) as [H|(q & Hq & E & T)].
      * destruct (truthy (Z.land (pfd_events p) POLLIN)) eqn:T; [|auto].
        apply elem_of_union in H. destruct H as [H|H]; [|auto].
        apply elem_of_singleton in H. right. exists p. simpl. auto.
      * right. exists q. simpl. auto.
    + intros x Hx. destruct (HWi x Hx) as [H|(q & Hq & E & T)].
      * destruct (truthy (Z.land (pfd_events p) POLLOUT)) eqn:T; [|auto].
        apply elem_of_union in H. destruct H as [H|H]; [|auto].
        apply elem_of_singleton in H. right. exists p. simpl. auto.
      * right. exists q. simpl. auto.
    + intros q [<-|Hq] T; [|auto]. rewrite T in HR. set_solver.
    + intros q [<-|Hq] T; [|auto]. rewrite T in HW. set_solver.
    + destruct Hl as [->|(q & Hq & ->)].
      * destruct (Z.geb_spec (pfd_fd p) n); [|auto].
        right. exists p. simpl. auto.
      * right. exists q. simpl. auto.
Qed.

(** The result of the loop over [pollfds], from the sets that hold
    [client_fd]. *)
Lemma add_pollfds_sets (pollfds : list pollfd) (fd pending : Z) :
  match add_pollfds pollfds
          ({[fd]}, (if truthy pending then {[fd]} else ∅), fd + 1) with
  | (readfds, writefds, nfds) =>
      fd ∈ readfds /\
      (truthy pending = true -> fd ∈ writefds) /\
      (forall x, x ∈ readfds <->
         x = fd \/
         exists p, In p pollfds /\ pfd_fd p = x /\
                   truthy (Z.land (pfd_events p) POLLIN) = true) /\
      (forall x, x ∈ writefds <->
         (x = fd /\ truthy pending = true) \/
         exists p, In p pollfds /\ pfd_fd p = x /\
                   truthy (Z.land (pfd_events p) POLLOUT) = true) /\
      (forall x, x ∈ readfds ∪ writefds -> x < nfds) /\
      (forall p, In p pollfds -> pfd_fd p < nfds) /\
      (nfds = fd + 1 \/ exists p, In p pollfds /\ nfds = pfd_fd p + 1)
  end.
Proof.
  pose proof (add_pollfds_inv pollfds {[fd]}
                (if truthy pending then {[fd]} else ∅) (fd + 1)) as H.
  destruct (add_pollfds pollfds _) as [[R W] n].
  destruct H as (Hn & Hp & HR & HW & HRi & HWi & HRo & HWo & Hl).
  assert (HRiff : forall x, x ∈ R <->
            x = fd \/
            exists p, In p pollfds /\ pfd_fd p = x /\
                      truthy (Z.land (pfd_events p) POLLIN) = true).
  { intros x. split.
    - intros Hx. destruct (HRi x Hx) as [H|H]; [left; set_solver|auto].
    - intros [->|(p & Hin & <- & T)]; [set_solver|auto]. }
  assert (HWiff : forall x, x ∈ W <->
            (x = fd /\ truthy pending = true) \/
            exists p, In p pollfds /\ pfd_fd p = x /\
                      truthy (Z.land (pfd_events p) POLLOUT) = true).
  { intros x. split.
    - intros Hx. destruct (HWi x Hx) as [H|H]; [left|auto].
      destruct (truthy pending); set_solver.
    - intros [[-> T]|(p & Hin & <- & T)]; [|auto].
      rewrite T in HW. set_solver. }
  repeat split; auto.
  - set_solver.
  - intros T. rewrite T in HW. set_solver.
  - apply HRiff.
  - apply HRiff.
  - apply HWiff.
  - apply HWiff.
  - intros x Hx. apply elem_of_union in Hx.
    destruct Hx as [Hx|Hx]; [apply HRiff in Hx|apply HWiff in Hx];
      destruct Hx as [Hx|(p & Hin & <- & _)]; auto; [|destruct Hx]; lia.
Qed.

(** X3.  The sets handed to [select] and its [nfds], for descriptors within
    the range of an [fd_set].  [client_fd] is always watched for reading, and
    for writing when the host has data to write; a libusb descriptor is
    watched for what its events ask; nothing else is watched.  Every libusb
    descriptor and every watched descriptor is below [nfds], [nfds] is one
    more than [client_fd] or than a libusb descriptor and at most
    FD_SETSIZE.  [select] is called with this [nfds], and what the iteration
    goes on with is what [select] returns for these very sets. *)
Theorem select_sets_and_nfds (w : World) (s : State) :
  0 <= client_fd s < FD_SETSIZE ->
  Forall (fun p => 0 <= pfd_fd p < FD_SETSIZE) (w_pollfds w (S (calls s))) ->
  match built_sets w s with
  | (readfds, writefds, nfds) =>
      client_fd s ∈ readfds /\
      (truthy (w_has_data_to_write w (calls s)) = true ->
       client_fd s ∈ writefds) /\
      (forall x, x ∈ readfds <->
         x = client_fd s \/
         exists p, In p (w_pollfds w (S (calls s))) /\ pfd_fd p = x /\
                   truthy (Z.land (pfd_events p) POLLIN) = true) /\
      (forall x, x ∈ writefds <->
         (x = client_fd s /\
          truthy (w_has_data_to_write w (calls s)) = true) \/
         exists p, In p (w_pollfds w (S (calls s))) /\ pfd_fd p = x /\
                   truthy (Z.land (pfd_events p) POLLOUT) = true) /\
      (forall x, x ∈ readfds ∪ writefds -> 0 <= x < nfds) /\
      (forall p, In p (w_pollfds w (S (calls s))) -> pfd_fd p < nfds) /\
      (nfds = client_fd s + 1 \/
       exists p, In p (w_pollfds w (S (calls s))) /\ nfds = pfd_fd p + 1) /\
      nfds <= FD_SETSIZE /\
      nth_error (emitted s (wait_for_events w s)) 3
      = Some (EvSelect nfds (chosen_timeout w s)) /\
      forall pollfds sel s1,
        wait_for_events w s = Normal (pollfds, sel) s1 ->
        pollfds = w_pollfds w (S (calls s)) /\
        sel = select_result nfds readfds writefds (w_select w (3 + calls s))
  end.
Proof.
  intros Hfd Hp.
  pose proof (add_pollfds_sets (w_pollfds w (S (calls s))) (client_fd s)
                (w_has_data_to_write w (calls s))) as H.
  destruct (wait_for_events_selected w s) as [T Hsel].
  unfold selected in Hsel. unfold built_sets in *.
  destruct (add_pollfds _ _) as [[R W] n].
  destruct H as (H1 & H2 & HR & HW & Hlt & Hpl & Hn).
  rewrite List.Forall_forall in Hp.
  split; [exact H1|]. split; [exact H2|]. split; [exact HR|].
  split; [exact HW|].
  assert (Hrange : forall x, x ∈ R ∪ W -> 0 <= x < n).
  { intros x Hx. split; [|apply Hlt; exact Hx].
    apply elem_of_union in Hx. destruct Hx as [Hx|Hx];
      [apply HR in Hx|apply HW in Hx];
      destruct Hx as [Hx|(p & Hin & <- & _)];
      [lia|apply Hp in Hin; lia|lia|apply Hp in Hin; lia]. }
  split; [exact Hrange|]. split; [exact Hpl|]. split; [exact Hn|].
  split; [destruct Hn as [->|(p & Hin & ->)]; [lia|apply Hp in Hin; lia]|].
  split; [rewrite (emitted_app s _ _ T); reflexivity|].
  intros pollfds sel s1 E. rewrite E in Hsel.
  destruct Hsel as (-> & -> & _). split; reflexivity.
Qed.

Lemma select_sets_and_nfds_witness :
  match built_sets calm_world (session_state 0) with
  | (readfds, writefds, nfds) =>
      client_fd (session_state 0) ∈ readfds /\
      (truthy (w_has_data_to_write calm_world (calls (session_state 0)))
       = true ->
       client_fd (session_state 0) ∈ writefds) /\
      (forall x, x ∈ readfds <->
         x = client_fd (session_state 0) \/
         exists p, In p (w_pollfds calm_world (S (calls (session_state 0)))) /\
                   pfd_fd p = x /\
                   truthy (Z.land (pfd_events p) POLLIN) = true) /\
      (forall x, x ∈ writefds <->
         (x = client_fd (session_state 0) /\
          truthy (w_has_data_to_write calm_world (calls (session_state 0)))
          = true) \/
         exists p, In p (w_pollfds calm_world (S (calls (session_state 0)))) /\
                   pfd_fd p = x /\
                   truthy (Z.land (pfd_events p) POLLOUT) = true) /\
      (forall x, x ∈ readfds ∪ writefds -> 0 <= x < nfds) /\
      (forall p, In p (w_pollfds calm_world (S (calls (session_state 0)))) ->
                 pfd_fd p < nfds) /\
      (nfds = client_fd (session_state 0) + 1 \/
       exists p, In p (w_pollfds calm_world (S (calls (session_state 0)))) /\
                 nfds = pfd_fd p + 1) /\
      nfds <= FD_SETSIZE /\
      nth_error (emitted (session_state 0)
                   (wait_for_events calm_world (session_state 0))) 3
      = Some (EvSelect nfds (chosen_timeout calm_world (session_state 0))) /\
      forall pollfds sel s1,
        wait_for_events calm_world (session_state 0)
        = Normal (pollfds, sel) s1 ->
        pollfds = w_pollfds calm_world (S (calls (session_state 0))) /\
        sel = select_result nfds readfds writefds
                (w_select calm_world (3 + calls (session_state 0)))
  end.
Proof.
  apply (select_sets_and_nfds calm_world (session_state 0)).
  - unfold FD_SETSIZE. simpl. lia.
  - constructor.
Defined.

(** * The settings after the command line *)

Section Settled.
Context (P : Z -> Z -> Z -> Event -> bool) (v wm wt : Z).

Lemma settled_preorder : PreOrder (settled P v wm wt).
Proof.
  split.
  - intros s Hc. split; [exact Hc|]. reflexivity.
  - intros a b c H1 H2 Hc. destruct (H1 Hc) as [Hb E1].
    destruct (H2 Hb) as [Hc' E2]. split; [exact Hc'|].
    etransitivity; eassumption.
Qed.

#[local] Existing Instance settled_preorder.

Lemma settled_gets_verbose {B} (k : Z -> M B) :
  preserves (settled P v wm wt) (k v) ->
  preserves (settled P v wm wt) (bind (gets verbose) k).
Proof.
  intros H s Hc. unfold bind, gets.
  replace (verbose s) with v by (injection Hc; auto). apply H. exact Hc.
Qed.

Lemma settled_gets_wait_mode {B} (k : Z -> M B) :
  preserves (settled P v wm wt) (k wm) ->
  preserves (settled P v wm wt) (bind (gets wait_mode) k).
Proof.
  intros H s Hc. unfold bind, gets.
  replace (wait_mode s) with wm by (injection Hc; auto). apply H. exact Hc.
Qed.

Lemma settled_gets_wait_timeout {B} (k : Z -> M B) :
  preserves (settled P v wm wt) (k wt) ->
  preserves (settled P v wm wt) (bind (gets wait_timeout) k).
Proof.
  intros H s Hc. unfold bind, gets.
  replace (wait_timeout s) with wt by (injection Hc; auto). apply H. exact Hc.
Qed.
End Settled.

#[local] Existing Instance settled_preorder.

(** Decides a goal on the tests of [Z] from the tests recorded so far. *)
Ltac tests_decide :=
  unfold only_in_wait_mode, session_only_in_wait_mode,
    usbredirparser_fl_no_hello;
  simpl; unfold truthy in *;
  repeat match goal with
  | H : (_ || _) = false |- _ => apply orb_false_elim in H; destruct H
  | H : negb _ = true |- _ => apply negb_true_iff in H
  | H : negb _ = false |- _ => apply negb_false_iff in H
  | H : (_ && _) = true |- _ => apply andb_prop in H; destruct H
  | H : (_ =? _) = true |- _ => apply Z.eqb_eq in H
  | H : (_ =? _) = false |- _ => apply Z.eqb_neq in H
  end;
  repeat match goal with
  | |- context [?a =? ?b] => destruct (Z.eqb_spec a b)
  end;
  simpl in *; first [reflexivity | congruence | lia].

Ltac settled_leaf :=
  first [ solve [auto]
        | solve [exfalso; congruence]
        | let s := fresh "s" in let Hc := fresh "Hc" in
          intros s; unfold settled; intros Hc;
          unfold call, deliver, modify, emits; simpl;
          repeat case_match; simpl;
          (split; [exact Hc|]);
          first [ eexists; split; [reflexivity|tests_decide]
                | exists []; split; [symmetry; apply app_nil_r|reflexivity] ] ].

(** Walks through a program as [preserve] does; a setting that is read is
    replaced by its value, and a test that is passed is recorded. *)
Ltac settle :=
  lazymatch goal with
  | |- PreOrder _ => exact _
  | |- forall _, _ => intros ?; cbv beta; settle
  | |- preserves _ (bind (gets verbose) _) =>
      apply settled_gets_verbose; cbv beta; settle
  | |- preserves _ (bind (gets wait_mode) _) =>
      apply settled_gets_wait_mode; cbv beta; settle
  | |- preserves _ (bind (gets wait_timeout) _) =>
      apply settled_gets_wait_timeout; cbv beta; settle
  | |- preserves _ (bind _ _) => apply preserves_bind; settle
  | |- preserves _ (ret _) => apply preserves_ret; settle
  | |- preserves _ (gets _) => apply preserves_gets; settle
  | |- preserves _ break_ => apply preserves_break; settle
  | |- preserves _ continue_ => apply preserves_continue; settle
  | |- preserves _ (exit _) => apply preserves_exit; settle
  | |- preserves ?R (when ?b ?m) =>
      destruct b eqn:?;
      [ change (preserves R m); settle | apply preserves_ret; settle ]
  | |- preserves _ (while _ _ _) => apply preserves_while; settle
  | |- preserves _ (call _ _ _) => settled_leaf
  | |- preserves _ (modify _) => settled_leaf
  | |- preserves _ (if ?b then _ else _) => destruct b eqn:?; settle
  | |- preserves _ (match ?x with _ => _ end) => destruct x eqn:?; settle
  | |- preserves _ ?m =>
      first [ solve [settled_leaf]
            | let h := head m in progress unfold h; settle ]
  end.

Lemma run_callbacks_follows v wm wt w cs :
  preserves (settled follows_settings v wm wt) (run_callbacks w cs).
Proof. induction cs as [|[] cs IH]; simpl; settle. Qed.

Lemma serve_follows v wm wt w fuel port :
  preserves (settled follows_settings v wm wt) (serve w fuel port).
Proof. pose proof (run_callbacks_follows v wm wt w). settle. Qed.

(** X17.  After the command line the settings stay as they are and govern
    every wait: libusb's debug level is [verbose]; every [sleep] is given
    [wait_timeout], converted to [unsigned]; and the [select] of an
    iteration waits until libusb's deadline exactly when
    [libusb_get_next_timeout] returned 1, and otherwise [wait_timeout]
    seconds in wait-mode and without bound outside wait-mode. *)
Theorem waits_follow_settings (w : World) (fuel : nat) (port : Z) (s : State) :
  config (final (serve w fuel port s)) = config s /\
  forallb (follows_settings (verbose s) (wait_mode s) (wait_timeout s))
          (emitted s (serve w fuel port s)) = true /\
  forall s0 nfds timeout,
    In (EvSelect nfds timeout) (emitted s0 (wait_for_events w s0)) ->
    timeout = if w_next_timeout w (2 + calls s0) =? 1 then LibusbDeadline
              else if truthy (wait_mode s0)
                   then WaitTimeout (wait_timeout s0) else Forever.
Proof.
  destruct (serve_follows (verbose s) (wait_mode s) (wait_timeout s)
              w fuel port s eq_refl) as (Hc & t & T & F).
  split; [exact Hc|]. split; [rewrite (emitted_app _ _ _ T); exact F|].
  intros s0 nfds timeout.
  destruct (wait_for_events_selected w s0) as [T0 _].
  rewrite (emitted_app _ _ _ T0). unfold chosen_timeout. simpl.
  intros [H|[H|[H|[H|H]]]]; try discriminate H.
  - injection H as _ <-. reflexivity.
  - exfalso. repeat case_match; simpl in H;
      repeat (destruct H as [H|H]; try discriminate H); exact H.
Qed.

Lemma forallb_pointwise {A} (f g : A -> bool) l :
  (forall a, f a = g a) -> forallb f l = forallb g l.
Proof.
  intros H. induction l as [|a l IH]; simpl; [reflexivity|].
  rewrite H, IH. reflexivity.
Qed.

Lemma run_callbacks_wait_mode_only v wm wt w cs :
  preserves (settled only_in_wait_mode v wm wt) (run_callbacks w cs).
Proof. induction cs as [|[] cs IH]; simpl; settle. Qed.

Lemma serve_wait_mode_only v wm wt w fuel port :
  preserves (settled only_in_wait_mode v wm wt) (serve w fuel port).
Proof. pose proof (run_callbacks_wait_mode_only v wm wt w). settle. Qed.

Lemma run_callbacks_session_only v wm wt w cs :
  preserves (settled session_only_in_wait_mode v wm wt) (run_callbacks w cs).
Proof. induction cs as [|[] cs IH]; simpl; settle. Qed.

Lemma run_main_loop_session_only v wm wt w fuel :
  preserves (settled session_only_in_wait_mode v wm wt) (run_main_loop w fuel).
Proof. pose proof (run_callbacks_session_only v wm wt w). settle. Qed.

(** X18.  Without the wait option the server never sleeps, never asks the
    protocol layer whether the device is disconnected, never probes the device,
    never signals a disconnect, never saves or restores capabilities and never
    opens a redirection host with a flag; and within a session it makes none of
    the calls of the retry block: libusb is not torn down or set up again and
    the Device Locator is not called. *)
Theorem wait_mode_calls_need_wait_mode (w : World) (fuel : nat) (port : Z)
    (s : State) :
  wait_mode s = 0 ->
  forallb (fun e => negb (wait_mode_call e))
          (emitted s (serve w fuel port s)) = true /\
  forallb (fun e => negb (wait_mode_call e || reconnect_event e))
          (emitted s (run_main_loop w fuel s)) = true.
Proof.
  intros Hwm. split.
  - destruct (serve_wait_mode_only (verbose s) (wait_mode s) (wait_timeout s)
                w fuel port s eq_refl) as (_ & t & T & F).
    rewrite (emitted_app _ _ _ T). rewrite <- F. apply forallb_pointwise.
    intros e. unfold only_in_wait_mode. rewrite Hwm. simpl.
    symmetry. apply orb_false_r.
  - destruct (run_main_loop_session_only (verbose s) (wait_mode s)
                (wait_timeout s) w fuel s eq_refl) as (_ & t & T & F).
    rewrite (emitted_app _ _ _ T). rewrite <- F. apply forallb_pointwise.
    intros e. unfold session_only_in_wait_mode. rewrite Hwm. simpl.
    symmetry. apply orb_false_r.
Qed.

Lemma wait_mode_calls_need_wait_mode_witness :
  forallb (fun e => negb (wait_mode_call e))
          (emitted initial_state (serve calm_world 2 4000 initial_state))
  = true /\
  forallb (fun e => negb (wait_mode_call e || reconnect_event e))
          (emitted initial_state (run_main_loop calm_world 2 initial_state))
  = true.
Proof.
  apply (wait_mode_calls_need_wait_mode calm_world 2 4000 initial_state).
  reflexivity.
Defined.

(** * The termination flag and [accept] *)

Lemma signal_before_S w n :
  signal_before w (S n) = signal_before w n || w_signal w n.
Proof.
  unfold signal_before. rewrite seq_S, existsb_app. simpl.
  rewrite orb_false_r. reflexivity.
Qed.

#[local] Instance accepts_unsignalled_preorder w :
  PreOrder (accepts_unsignalled w).
Proof.
  split.
  - intros s Hs. split; [exact Hs|]. exists []. rewrite app_nil_r. simpl.
    repeat split; [lia|]. intros [|i] fd H; discriminate.
  - intros a b c H1 H2 Ha.
    destruct (H1 Ha) as (Hb & t1 & T1 & C1 & A1).
    destruct (H2 Hb) as (Hc & t2 & T2 & C2 & A2).
    split; [exact Hc|]. exists (t1 ++ t2).
    split; [rewrite T2, T1; symmetry; apply app_assoc|].
    split; [rewrite C2, C1, length_app; lia|].
    intros i fd H. destruct (Nat.lt_ge_cases i (length t1)) as [L|L].
    + rewrite nth_error_app1 in H by exact L. eapply A1; eassumption.
    + rewrite nth_error_app2 in H by exact L. apply A2 in H.
      rewrite C1 in H. replace (calls a + i)%nat
        with (calls a + length t1 + (i - length t1))%nat by lia.
      exact H.
Qed.

Lemma call_heeds {A} w (answer : World -> nat -> A) ev :
  (forall a, is_accept (ev a) = false) ->
  preserves (accepts_unsignalled w) (call w answer ev).
Proof.
  intros Hev s Hs. unfold call, deliver. simpl. split.
  - unfold flag_heeds_signals. simpl. rewrite signal_before_S.
    intros H. apply orb_prop in H. destruct H as [H|H].
    + rewrite (Hs H). unfold running_after.
      destruct (w_signal w (calls s)); reflexivity.
    + unfold running_after. rewrite H. reflexivity.
  - eexists. split; [reflexivity|]. simpl. split; [lia|].
    intros [|[|i]] fd H; try discriminate. simpl in H.
    injection H as H. specialize (Hev (answer w (calls s))).
    rewrite H in Hev. discriminate.
Qed.

Lemma modify_heeds w f :
  (forall s, calls (f s) = calls s /\ running (f s) = running s /\
             trace (f s) = trace s) ->
  preserves (accepts_unsignalled w) (modify f).
Proof.
  intros Hf s Hs. destruct (Hf s) as (C & R & T). unfold modify. simpl. split.
  - unfold flag_heeds_signals. rewrite C, R. exact Hs.
  - exists []. rewrite app_nil_r. split; [exact T|].
    split; [simpl; lia|]. intros [|i] fd H; discriminate.
Qed.

Ltac heeds_leaf :=
  first [ solve [auto]
        | apply call_heeds; intros; reflexivity
        | apply modify_heeds; intros; repeat case_match; auto ].

Lemma run_callbacks_heeds w cs :
  preserves (accepts_unsignalled w) (run_callbacks w cs).
Proof. induction cs as [|[] cs IH]; simpl; preserve heeds_leaf. Qed.

(** The call of [accept] itself, made while the flag is up. *)
Lemma accept_heeds w s ev :
  running s <> 0 ->
  accepts_unsignalled w s
    (deliver (w_signal w (calls s))
       (set_trace (trace s ++ [ev]) (set_calls (S (calls s)) s))).
Proof.
  intros Hr Hs. unfold deliver. simpl. split.
  - unfold flag_heeds_signals. simpl. rewrite signal_before_S.
    intros H. apply orb_prop in H. destruct H as [H|H].
    + apply Hs in H. contradiction.
    + unfold running_after. rewrite H. reflexivity.
  - eexists. split; [reflexivity|]. simpl. split; [lia|].
    intros [|[|i]] fd H; try discriminate.
    rewrite Nat.add_0_r. destruct (signal_before w (calls s)) eqn:E;
      [|reflexivity].
    apply Hs in E. contradiction.
Qed.

Lemma bind_assoc_at {A B C} (m : M A) (k : A -> M B) (k' : B -> M C) s :
  bind (bind m k) k' s = bind m (fun a => bind (k a) k') s.
Proof. unfold bind. destruct (m s); reflexivity. Qed.

Lemma heeds_after_accept {A B} w (answer : World -> nat -> A) ev
    (k : A -> M B) s :
  running s <> 0 ->
  (forall a, preserves (accepts_unsignalled w) (k a)) ->
  accepts_unsignalled w s (final (bind (call w answer ev) k s)).
Proof.
  intros Hr Hk.
  change (accepts_unsignalled w s
            (final (k (answer w (calls s))
                      (deliver (w_signal w (calls s))
                         (set_trace (trace s ++ [ev (answer w (calls s))])
                            (set_calls (S (calls s)) s)))))).
  etransitivity; [apply accept_heeds; exact Hr|apply Hk].
Qed.

Lemma accept_body_heeds w fuel server_fd s :
  running s <> 0 ->
  accepts_unsignalled w s (final (accept_body w fuel server_fd s)).
Proof.
  intros Hr. pose proof (run_callbacks_heeds w) as Hcb.
  unfold accept_body.
  repeat lazymatch goal with
  | |- accepts_unsignalled w ?x (final (bind (gets ?f) ?k ?x)) =>
      change (accepts_unsignalled w x (final (k (f x) x))); cbv beta
  end.
  destruct ((client_fd s =? -1) || negb (truthy (wait_mode s))).
  - rewrite bind_assoc_at. apply heeds_after_accept; [exact Hr|].
    intros a. preserve heeds_leaf.
  - lazymatch goal with
    | |- accepts_unsignalled w s (final (?m s)) =>
        assert (H : preserves (accepts_unsignalled w) m)
          by preserve heeds_leaf;
        apply H
    end.
Qed.

Lemma accept_loop_heeds w fuel n server_fd :
  preserves (accepts_unsignalled w)
    (while n (fun s => truthy (running s)) (accept_body w fuel server_fd)).
Proof.
  induction n as [|n IH]; intros s; simpl.
  - destruct (truthy (running s)); reflexivity.
  - destruct (truthy (running s)) eqn:Hr; [|reflexivity].
    apply truthy_true in Hr.
    pose proof (accept_body_heeds w fuel server_fd s Hr) as Hb.
    destruct (accept_body w fuel server_fd s); simpl in *; auto;
      (etransitivity; [exact Hb|apply IH]).
Qed.

Lemma main_heeds w fuel argv0 opts args :
  preserves (accepts_unsignalled w) (main w fuel argv0 opts args).
Proof.
  pose proof (run_callbacks_heeds w) as Hcb.
  assert (Hp : forall p, preserves (accepts_unsignalled w)
                           (parse_options w argv0 opts p)).
  { induction opts as [|[o a] opts IH]; intros p; simpl;
      preserve heeds_leaf. }
  unfold main. apply preserves_bind; [exact _|preserve heeds_leaf|].
  intros port. unfold serve.
  repeat (apply preserves_bind;
          [exact _|solve [preserve heeds_leaf]|intros ?]).
  apply preserves_bind; [exact _|apply accept_loop_heeds|].
  intros _. preserve heeds_leaf.
Qed.

(** X10.  A handled signal stops the accept loop at its next test of
    [running]: when [accept] is called, no handled signal has been counted
    with any of the calls before it, that is, none had arrived by the test
    of the accept loop that led to this call.  (A signal that arrives after
    that test, or while [accept] waits, is counted with the [accept] call
    itself and does not prevent it.) *)
Theorem no_accept_after_signal (w : World) (fuel : nat) (argv0 : string)
    (opts : list (ascii * string)) (args : list string) (i : nat) (fd : Z) :
  nth_error (trace (final (main w fuel argv0 opts args initial_state))) i
  = Some (EvAccept fd) ->
  signal_before w i = false.
Proof.
  intros H.
  destruct (main_heeds w fuel argv0 opts args initial_state)
    as (_ & t & T & _ & A); [discriminate|].
  simpl in T. rewrite T in H. apply (A i fd H).
Qed.

Lemma no_accept_after_signal_witness :
  signal_before interrupted_accept_world 10 = false.
Proof.
  apply (no_accept_after_signal interrupted_accept_world 1 "usbredirserver"
           [] [vendor_product "1234" "abcd"] 10 (-1)).
  vm_compute. reflexivity.
Defined.

(** ** An interrupted [select] (source lines 221-228) *)

(** X4.  When [select] fails with EINTR the iteration ends there and the loop
    tests its condition again: nothing is pumped and libusb is not serviced.
    When the interruption was a handled signal, the session ends: the loop is
    left, the engine closes [client_fd], and [run_main_loop] returns with the
    flag down. *)
Theorem interrupted_select_ends_session (w : World) (fuel : nat) (s : State) :
  client_fd s <> -1 ->
  running s <> 0 ->
  w_select w (3 + calls s) = SelectError EINTR ->
  w_signal w (3 + calls s) = true ->
  exists nfds timeout s',
    run_main_loop w (S fuel) s = Normal tt s' /\
    trace s' = trace s ++ [EvHasDataToWrite (host s); EvGetPollfds (ctx s);
                           EvGetNextTimeout (ctx s); EvSelect nfds timeout;
                           EvClose AtLoopExit (client_fd s)] /\
    client_fd s' = -1 /\ running s' = 0.
Proof.
  intros Hfd Hr Hsel Hsig. unfold run_main_loop, iteration, poll_and_dispatch,
    wait_for_events, usbredirhost_has_data_to_write.
  simpl in Hsel, Hsig. run.
  rewrite (proj2 (truthy_true _) Hr), (proj2 (Z.eqb_neq _ _) Hfd). simpl.
  destruct (add_pollfds _ _) as [[readfds writefds] nfds]. run.
  rewrite Hsel, Hsig. simpl. unfold running_after at 1. simpl.
  destruct fuel; simpl; rewrite (proj2 (Z.eqb_neq _ _) Hfd); simpl;
    (eexists _, _, _; split; [reflexivity|]); simpl;
    rewrite <- !app_assoc; simpl; repeat split; try reflexivity;
    unfold running_after; simpl; repeat case_match; reflexivity.
Qed.

Lemma interrupted_select_ends_session_witness :
  exists nfds timeout s',
    run_main_loop interrupted_select_world 1 (session_state 0)
    = Normal tt s' /\
    trace s' = trace (session_state 0)
               ++ [EvHasDataToWrite (host (session_state 0));
                   EvGetPollfds (ctx (session_state 0));
                   EvGetNextTimeout (ctx (session_state 0));
                   EvSelect nfds timeout;
                   EvClose AtLoopExit (client_fd (session_state 0))] /\
    client_fd s' = -1 /\ running s' = 0.
Proof.
  apply (interrupted_select_ends_session interrupted_select_world 0
           (session_state 0)).
  - discriminate.
  - discriminate.
  - reflexivity.
  - reflexivity.
Defined.

(** * Sessions in [main] (source lines 449-491) *)

Lemma run_main_loop_grows w fuel : preserves grows (run_main_loop w fuel).
Proof. pose proof (run_callbacks_grows w). preserve grows_leaf. Qed.

(** [run_main_loop] returns with the channel closed, however it was left. *)
Lemma run_main_loop_closed w fuel s s' :
  run_main_loop w fuel s = Normal tt s' -> client_fd s' = -1.
Proof.
  unfold run_main_loop, bind, modify. simpl.
  destruct (while fuel _ _ _) as [[] s1|s1|s1|c s1|sg s1|s1]; try discriminate.
  unfold gets, when, close, call, modify, ret. simpl.
  destruct (client_fd s1 =? -1) eqn:E; simpl; intros [= <-]; simpl;
    [apply Z.eqb_eq; exact E|reflexivity].
Qed.

#[local] Arguments run_main_loop : simpl never.

Lemma accept_body_begins_with_accept w fuel server_fd s :
  client_fd s = -1 ->
  exists t, trace (final (accept_body w fuel server_fd s))
            = trace s ++ EvAccept (fst (w_accept w (calls s))) :: t.
Proof.
  intros Hfd. unfold accept_body.
  repeat lazymatch goal with
  | |- context [final (bind (gets ?f) ?k ?x)] =>
      change (final (bind (gets f) k x)) with (final (k (f x) x)); cbv beta
  end.
  rewrite Hfd. simpl orb. cbv iota. rewrite bind_assoc_at.
  apply (grows_after_call w w_accept (fun a => EvAccept (fst a))).
  intros a. pose proof (run_callbacks_grows w). preserve grows_leaf.
Qed.

(** X13.  When the accept loop has run a session to its end, the channel is
    closed, the device handle is reset to NULL, and the last call was the close
    of the redirection host that was current; so the next turn of the loop
    begins with [accept], in wait-mode too. *)
Theorem after_a_session (w : World) (fuel : nat) (server_fd : Z)
    (s s' : State) :
  accept_body w fuel server_fd s = Normal tt s' ->
  client_fd s' = -1 /\ handle s' = 0 /\
  (exists t, trace s' = trace s ++ t ++ [EvHostClose (host s')]) /\
  (exists t, trace (final (accept_body w fuel server_fd s'))
             = trace s' ++ EvAccept (fst (w_accept w (calls s'))) :: t).
Proof.
  intros H.
  assert (H3 : client_fd s' = -1 /\ handle s' = 0 /\
               exists t, trace s' = trace s ++ t ++ [EvHostClose (host s')]).
  { revert H. unfold accept_body. run.
    repeat (case_atom; simpl); try discriminate;
      match goal with
      | |- context [run_main_loop w fuel ?x] =>
          assert (G : grows s x)
            by (unfold grows; simpl; rewrite <- ?app_assoc;
                eexists; reflexivity);
          pose proof (run_main_loop_grows w fuel x) as G2;
          destruct (run_main_loop w fuel x) as [[] s1|s1|s1|c s1|sg s1|s1] eqn:E;
          try discriminate
      end;
      apply run_main_loop_closed in E; intros [= <-]; simpl;
      (split; [exact E|]); (split; [reflexivity|]);
      assert (G3 : grows s s1) by (etransitivity; [exact G|exact G2]);
      destruct G3 as (t & T); exists t; rewrite T, <- app_assoc;
      reflexivity. }
  destruct H3 as (Hfd & Hh & Ht). repeat split; auto.
  apply accept_body_begins_with_accept. exact Hfd.
Qed.

Lemma after_a_session_witness :
  client_fd (final (accept_body peer_closes_world 2 3 listening_state)) = -1 /\
  handle (final (accept_body peer_closes_world 2 3 listening_state)) = 0 /\
  (exists t,
     trace (final (accept_body peer_closes_world 2 3 listening_state))
     = trace listening_state ++ t
       ++ [EvHostClose
             (host (final (accept_body peer_closes_world 2 3
                             listening_state)))]) /\
  (exists t,
     trace (final (accept_body peer_closes_world 2 3
                     (final (accept_body peer_closes_world 2 3
                               listening_state))))
     = trace (final (accept_body peer_closes_world 2 3 listening_state))
       ++ EvAccept
            (fst (w_accept peer_closes_world
                    (calls (final (accept_body peer_closes_world 2 3
                                     listening_state))))) :: t).
Proof.
  apply (after_a_session peer_closes_world 2 3 listening_state).
  vm_compute. reflexivity.
Defined.

(** ** A client that connects while the device is absent (lines 474-481) *)

Lemma grows_then_last s (l : list Event) e :
  (exists t, l = trace s ++ t) -> exists t, l ++ [e] = trace s ++ t ++ [e].
Proof. intros (t & ->). exists t. rewrite app_assoc. reflexivity. Qed.

Lemma accept_body_begins_with_accept_outside w fuel server_fd s :
  wait_mode s = 0 ->
  exists t, trace (final (accept_body w fuel server_fd s))
            = trace s ++ EvAccept (fst (w_accept w (calls s))) :: t.
Proof.
  intros Hwm. unfold accept_body.
  repeat lazymatch goal with
  | |- context [final (bind (gets ?f) ?k ?x)] =>
      change (final (bind (gets f) k x)) with (final (k (f x) x)); cbv beta
  end.
  rewrite Hwm. simpl negb. rewrite orb_true_r. cbv iota.
  rewrite bind_assoc_at.
  apply (grows_after_call w w_accept (fun a => EvAccept (fst a))).
  intros a. pose proof (run_callbacks_grows w). preserve grows_leaf.
Qed.

Lemma run_main_loop_returns w fuel :
  returns_or_exits w (fun _ => True) (run_main_loop w fuel).
Proof.
  pose proof (run_callbacks_exits (fun _ => True) w).
  returns_auto ltac:(exact I).
Qed.

Lemma accept_body_begins_with_sleep w fuel server_fd s :
  client_fd s <> -1 -> wait_mode s <> 0 ->
  exists t, trace (final (accept_body w fuel server_fd s))
            = trace s ++ EvSleep (to_unsigned (wait_timeout s)) :: t.
Proof.
  intros Hfd Hwm. unfold accept_body.
  repeat lazymatch goal with
  | |- context [final (bind (gets ?f) ?k ?x)] =>
      change (final (bind (gets f) k x)) with (final (k (f x) x)); cbv beta
  end.
  rewrite (proj2 (Z.eqb_neq _ _) Hfd), (proj2 (truthy_true _) Hwm).
  cbn [orb negb]. cbv iota.
  lazymatch goal with
  | |- context [final (bind (bind (gets ?f) ?k) ?k2 ?x)] =>
      change (final (bind (bind (gets f) k) k2 x))
        with (final (bind (k (f x)) k2 x)); cbv beta
  end.
  unfold sleep.
  apply (grows_after_call w nothing
           (fun _ => EvSleep (to_unsigned (wait_timeout s)))).
  intros a. pose proof (run_callbacks_grows w). preserve grows_leaf.
Qed.

(** X12.  When a turn of the accept loop ends because no device was found, the
    client being connected: outside wait-mode the connection is closed, as the
    last call of the turn, and the next turn accepts again; in wait-mode the
    connection is kept, nothing is closed, and the next turn begins with a
    [sleep] that is given [wait_timeout] converted to [unsigned] (a negative
    [wait_timeout] is a very long sleep), without accepting. *)
Theorem absent_device_at_connect (w : World) (fuel : nat) (server_fd : Z)
    (s s' : State) :
  accept_body w fuel server_fd s = Continue s' ->
  client_fd s' <> -1 ->
  handle s' = 0 /\
  (wait_mode s = 0 ->
   (exists t, trace s' = trace s ++ t
                         ++ [EvClose DeviceAbsent (client_fd s')]) /\
   exists t, trace (final (accept_body w fuel server_fd s'))
             = trace s' ++ EvAccept (fst (w_accept w (calls s'))) :: t) /\
  (wait_mode s <> 0 ->
   forallb (fun e => negb (is_close e)) (emitted s (Continue (A:=unit) s'))
   = true /\
   exists t, trace (final (accept_body w fuel server_fd s'))
             = trace s' ++ EvSleep (to_unsigned (wait_timeout s')) :: t).
Proof.
  intros H Hfd.
  assert (H3 : handle s' = 0 /\ wait_mode s' = wait_mode s /\
               (wait_mode s = 0 ->
                exists t, trace s' = trace s ++ t
                          ++ [EvClose DeviceAbsent (client_fd s')]) /\
               (wait_mode s <> 0 ->
                forallb (fun e => negb (is_close e))
                        (emitted s (Continue (A:=unit) s')) = true)).
  { revert H Hfd. unfold accept_body. run.
    repeat (case_atom; simpl); try discriminate;
      try match goal with
          | |- context [run_main_loop w fuel ?x] =>
              pose proof (run_main_loop_returns w fuel x) as G;
              destruct (run_main_loop w fuel x); try discriminate;
              contradiction
          end;
      intros [= <-] Hfd; simpl in *; tests_in_context; try congruence;
      (split; [assumption|]); (split; [reflexivity|]);
      (split; intros Hwm; try contradiction; try congruence).
    all: try (apply grows_then_last; rewrite <- ?app_assoc; eexists;
              reflexivity).
    all: unfold emitted; simpl; rewrite <- ?app_assoc, drop_app_length;
      reflexivity. }
  destruct H3 as (Hh & Hwm & H0 & H1). split; [exact Hh|]. split.
  - intros Hz. split; [apply H0; exact Hz|].
    apply accept_body_begins_with_accept_outside; congruence.
  - intros Hnz. split; [apply H1; exact Hnz|].
    apply accept_body_begins_with_sleep; congruence.
Qed.

Lemma absent_device_at_connect_witness :
  handle parked_state = 0 /\
  forallb (fun e => negb (is_close e))
          (emitted waiting_state (Continue (A:=unit) parked_state)) = true /\
  exists t, trace (final (accept_body absent_world 1 3 parked_state))
            = trace parked_state
              ++ EvSleep (to_unsigned (wait_timeout parked_state)) :: t.
Proof.
  refine (match absent_device_at_connect absent_world 1 3 waiting_state
                  parked_state _ _ with
          | conj H0 (conj _ H2) => conj H0 (H2 _)
          end).
  - vm_compute. reflexivity.
  - vm_compute. discriminate.
  - vm_compute. discriminate.
Defined.

(** * The wait-mode state machine (source lines 265-319) *)

Lemma wait_for_events_view w :
  preserves (keeps session_view) (wait_for_events w).
Proof. preserve keeps_leaf. Qed.

Lemma wait_for_events_no_probe w :
  preserves (emits (fun e => negb (is_probe e))) (wait_for_events w).
Proof. preserve emits_leaf. Qed.

Lemma run_callbacks_ungated w cs :
  preserves (emits (fun e => negb (gated e))) (run_callbacks w cs).
Proof. induction cs as [|[] cs IH]; simpl; preserve emits_leaf. Qed.

Lemma run_callbacks_no_probe w cs :
  preserves (emits (fun e => negb (is_probe e))) (run_callbacks w cs).
Proof. induction cs as [|[] cs IH]; simpl; preserve emits_leaf. Qed.

Lemma dispatch_no_probe w pollfds sel :
  preserves (emits (fun e => negb (is_probe e))) (dispatch w pollfds sel).
Proof. pose proof (run_callbacks_no_probe w). preserve emits_leaf. Qed.

Lemma reconnect_block_no_probe w fuel :
  preserves (emits (fun e => negb (is_probe e))) (reconnect_block w fuel).
Proof. pose proof (run_callbacks_no_probe w). preserve emits_leaf. Qed.

(** The trace of [wait_for_events] on a timed wake-up. *)
Lemma wait_for_events_timed w s pollfds sel s1 :
  wait_for_events w s = Normal (pollfds, sel) s1 ->
  sel_n sel = 0 ->
  (forall fd, FD_ISSET fd (sel_readfds sel) = false /\
              FD_ISSET fd (sel_writefds sel) = false) /\
  exists nfds timeout,
    trace s1 = trace s ++ [EvHasDataToWrite (host s); EvGetPollfds (ctx s);
                           EvGetNextTimeout (ctx s); EvSelect nfds timeout;
                           EvHandleEvents (ctx s)].
Proof.
  unfold wait_for_events. run.
  destruct (add_pollfds _ _) as [[readfds writefds] nfds]. run.
  match goal with |- context [select_result ?n ?r ?wr ?a] =>
    pose proof (fun fd => select_timeout n r wr a fd) as Ht;
    destruct (select_result n r wr a) as [n0 e0 r0 w0] end.
  simpl in *.
  repeat (case_atom; simpl); try discriminate; intros [= <- <- <-] Hn;
    simpl in *; tests_in_context; try congruence.
  all: split; [intros fd; apply Ht; exact Hn|].
  all: eexists _, _; rewrite <- !app_assoc; reflexivity.
Qed.

#[local] Arguments reconnect_block : simpl never.

(** Where the wait-mode part of an iteration makes the liveness probe. *)
Lemma wait_mode_step_probe w fuel n s :
  exists t, trace (final (wait_mode_step w fuel n s)) = trace s ++ t /\
    (forallb (fun e => negb (is_probe e)) t = true \/
     (n = 0 /\ wait_mode s <> 0 /\ wait_mode_state s = 1 /\
      client_fd s <> -1 /\
      exists rest, t = [EvIsDisconnected (host s);
                        EvGetConfiguration (handle s)] ++ rest)).
Proof.
  unfold wait_mode_step, usbredirhost_is_disconnected,
    libusb_get_configuration, usbredirhost_disconnect. run.
  repeat (case_atom; simpl);
    try match goal with
        | |- context [reconnect_block w fuel ?x] =>
            destruct (reconnect_block_no_probe w fuel x) as (t' & T' & F');
            rewrite T'; simpl
        end;
    rewrite <- ?app_assoc; simpl;
    first [ eexists; split; [reflexivity|]
          | exists []; split; [symmetry; apply app_nil_r|] ];
    first [ left; simpl; first [exact F'|reflexivity]
          | right; tests_in_context; repeat split; auto;
            eexists; reflexivity ].
Qed.

(** On empty sets [dispatch] does nothing. *)
Lemma dispatch_idle w pollfds sel s :
  (forall fd, FD_ISSET fd (sel_readfds sel) = false /\
              FD_ISSET fd (sel_writefds sel) = false) ->
  dispatch w pollfds sel s
  = if client_fd s =? -1 then Break s else Normal tt s.
Proof.
  intros H. unfold dispatch, bind, gets, when. simpl.
  destruct (H (client_fd s)) as [E1 E2]. rewrite E1. simpl.
  destruct (client_fd s =? -1); simpl; [reflexivity|].
  rewrite E2. simpl. rewrite (none_ready _ _ _ H). reflexivity.
Qed.

Lemma no_probe_app t1 t2 :
  forallb (fun e => negb (is_probe e)) t1 = true ->
  forallb (fun e => negb (is_probe e)) t2 = true ->
  forallb (fun e => negb (is_probe e)) (t1 ++ t2) = true.
Proof. intros H1 H2. rewrite forallb_app, H1, H2. reflexivity. Qed.

Lemma iteration_probe w fuel s :
  exists t, trace (final (iteration w fuel s)) = trace s ++ t /\
    (forallb (fun e => negb (is_probe e)) t = true \/
     (wait_mode s <> 0 /\ wait_mode_state s = 1 /\ client_fd s <> -1 /\
      sel_n (selected w s) = 0 /\
      exists nfds timeout rest,
        t = [EvHasDataToWrite (host s); EvGetPollfds (ctx s);
             EvGetNextTimeout (ctx s); EvSelect nfds timeout;
             EvHandleEvents (ctx s); EvIsDisconnected (host s);
             EvGetConfiguration (handle s)] ++ rest)).
Proof.
  unfold iteration, poll_and_dispatch. unfold bind at 1 2.
  pose proof (wait_for_events_view w s) as Hv.
  pose proof (wait_for_events_no_probe w s) as (t1 & T1 & F1).
  pose proof (wait_for_events_timed w s) as Htimed.
  pose proof (proj2 (wait_for_events_selected w s)) as Hsel.
  destruct (wait_for_events w s) as [[pollfds sel] s1|s1|s1|c s1|sg s1|s1];
    simpl in *; try solve [exists t1; auto].
  unfold bind.
  destruct (Z.eq_dec (sel_n sel) 0) as [Hn|Hn].
  - destruct (Htimed pollfds sel s1 eq_refl Hn)
      as (Hsets & nfds & timeout & T).
    rewrite (dispatch_idle w pollfds sel s1 Hsets).
    destruct (client_fd s1 =? -1); simpl; [exists t1; auto|].
    unfold ret. destruct (wait_mode_step_probe w fuel (sel_n sel) s1)
      as (t2 & T2 & H2).
    exists (t1 ++ t2). split; [rewrite T2, T1; symmetry; apply app_assoc|].
    destruct H2 as [F2|(_ & Hwm & Hst & Hfd & rest & ->)].
    + left. apply no_probe_app; assumption.
    + right. unfold keeps, session_view in Hv.
      injection Hv as Efd Eh Ec Ehd Ewm Est.
      rewrite <- Ewm, <- Est, <- Efd. repeat split; auto.
      { destruct Hsel as (_ & <- & _). exact Hn. }
      exists nfds, timeout, rest.
      rewrite T1 in T. apply app_inv_head in T. subst t1.
      rewrite Eh, Ehd. reflexivity.
  - pose proof (dispatch_no_probe w pollfds sel s1) as (t2 & T2 & F2).
    destruct (dispatch w pollfds sel s1) as [[] s2|s2|s2|c s2|sg s2|s2];
      simpl in *;
      try solve [exists (t1 ++ t2); split;
                 [rewrite T2, T1; symmetry; apply app_assoc
                 |left; apply no_probe_app; assumption]].
    destruct (wait_mode_step_probe w fuel (sel_n sel) s2)
      as (t3 & T3 & H3).
    exists (t1 ++ t2 ++ t3). split.
    + rewrite T3, T2, T1, <- !app_assoc. reflexivity.
    + left. destruct H3 as [F3|(H0 & _)]; [|contradiction].
      repeat apply no_probe_app; assumption.
Qed.

(** X5.  The liveness probe is made only on a timed wake-up, in wait-mode, with
    the state machine in Connected and the channel open: in an iteration in
    which [libusb_get_configuration] is called, [select] has returned 0, and
    up to the probe the iteration has done exactly this: asked for pending
    data, built the descriptor sets, asked libusb for its deadline, called
    [select], serviced libusb events once and asked the protocol layer
    whether the device is disconnected.  No data was pumped before the probe,
    and the probe is of the current device handle. *)
Theorem probe_only_on_timed_wakeup (w : World) (fuel : nat) (s : State)
    (dev : Z) :
  In (EvGetConfiguration dev) (emitted s (iteration w fuel s)) ->
  wait_mode s <> 0 /\ wait_mode_state s = 1 /\ client_fd s <> -1 /\
  sel_n (selected w s) = 0 /\
  exists nfds timeout rest,
    emitted s (iteration w fuel s)
    = [EvHasDataToWrite (host s); EvGetPollfds (ctx s);
       EvGetNextTimeout (ctx s); EvSelect nfds timeout;
       EvHandleEvents (ctx s); EvIsDisconnected (host s);
       EvGetConfiguration (handle s)] ++ rest.
Proof.
  destruct (iteration_probe w fuel s) as (t & T & H).
  rewrite (emitted_app _ _ _ T). intros Hin.
  destruct H as [F|H]; [|exact H].
  rewrite forallb_forall in F. apply F in Hin. discriminate.
Qed.

Lemma probe_only_on_timed_wakeup_witness :
  wait_mode connected_state <> 0 /\ wait_mode_state connected_state = 1 /\
  client_fd connected_state <> -1 /\
  sel_n (selected unplugged_world connected_state) = 0 /\
  exists nfds timeout rest,
    emitted connected_state (iteration unplugged_world 1 connected_state)
    = [EvHasDataToWrite (host connected_state);
       EvGetPollfds (ctx connected_state);
       EvGetNextTimeout (ctx connected_state); EvSelect nfds timeout;
       EvHandleEvents (ctx connected_state);
       EvIsDisconnected (host connected_state);
       EvGetConfiguration (handle connected_state)] ++ rest.
Proof.
  apply (probe_only_on_timed_wakeup unplugged_world 1 connected_state 200).
  vm_compute. auto 20.
Defined.

Lemma wait_mode_step_gate w fuel n s :
  exists t, trace (final (wait_mode_step w fuel n s)) = trace s ++ t /\
    (forallb (fun e => negb (gated e)) t = true \/
     (wait_mode s <> 0 /\ wait_mode_state s = 1)).
Proof.
  unfold wait_mode_step, usbredirhost_is_disconnected,
    libusb_get_configuration, usbredirhost_disconnect. run.
  repeat (case_atom; simpl);
    try match goal with
        | |- context [reconnect_block w fuel ?x] =>
            destruct (reconnect_block_no_probe w fuel x) as (t' & T' & F');
            rewrite T'; simpl
        end;
    rewrite <- ?app_assoc; simpl;
    first [ eexists; split; [reflexivity|]
          | exists []; split; [symmetry; apply app_nil_r|] ];
    first [ left; reflexivity
          | right; tests_in_context; split; assumption ].
Qed.

Lemma run_callbacks_machine w cs :
  preserves (keeps (fun s => (wait_mode s, wait_mode_state s)))
            (run_callbacks w cs).
Proof. induction cs as [|[] cs IH]; simpl; preserve keeps_leaf. Qed.

Lemma poll_and_dispatch_machine w :
  preserves (keeps (fun s => (wait_mode s, wait_mode_state s)))
            (poll_and_dispatch w).
Proof. pose proof (run_callbacks_machine w). preserve keeps_leaf. Qed.

Lemma poll_and_dispatch_ungated w :
  preserves (emits (fun e => negb (gated e))) (poll_and_dispatch w).
Proof. pose proof (run_callbacks_ungated w). preserve emits_leaf. Qed.

(** X6.  The gate of the state machine: an iteration makes the liveness probe,
    signals a disconnect, sleeps, or makes a call of the retry block (libusb
    torn down and set up again, the Device Locator, the rebinding of the
    redirection host) only in wait-mode and only when it began in Connected. A
    session that has not yet seen the device connected never reconnects. *)
Theorem reconnection_needs_connected (w : World) (fuel : nat) (s : State)
    (e : Event) :
  In e (emitted s (iteration w fuel s)) ->
  gated e = true ->
  wait_mode s <> 0 /\ wait_mode_state s = 1.
Proof.
  intros Hin Hg.
  pose proof (poll_and_dispatch_machine w s) as Hk.
  destruct (poll_and_dispatch_ungated w s) as (t1 & T1 & F1).
  assert (Hno : forall t, forallb (fun e => negb (gated e)) t = true ->
                          In e t -> False).
  { intros t F Hi. rewrite forallb_forall in F. apply F in Hi.
    rewrite Hg in Hi. discriminate. }
  revert Hin. unfold iteration, bind.
  destruct (poll_and_dispatch w s) as [sel s1|s1|s1|c s1|sg s1|s1]; simpl in *;
    try (match goal with
         | |- In e (emitted s ?o) -> _ => rewrite (emitted_app s o t1 T1)
         end; intros Hin; exfalso; apply (Hno t1 F1 Hin)).
  destruct (wait_mode_step_gate w fuel (sel_n sel) s1) as (t2 & T2 & H2).
  rewrite (emitted_app s _ (t1 ++ t2))
    by (rewrite T2, T1; symmetry; apply app_assoc).
  intros Hin. unfold keeps in Hk. injection Hk as <- <-.
  destruct H2 as [F2|H2]; [exfalso|exact H2].
  apply in_app_or in Hin.
  destruct Hin as [Hin|Hin]; [apply (Hno t1 F1 Hin)|apply (Hno t2 F2 Hin)].
Qed.

Lemma reconnection_needs_connected_witness :
  wait_mode connected_state <> 0 /\ wait_mode_state connected_state = 1.
Proof.
  apply (reconnection_needs_connected unplugged_world 1 connected_state
           (EvDisconnect 300)).
  - vm_compute. auto 20.
  - reflexivity.
Defined.
(** * [find_device] and the device handle (source lines 148-176) *)

(** X2.  [find_device] always returns.  With a bus-address identifier it
    takes the device list, opens the first device in it that has the bus
    number and the address asked for, if there is one, and frees the list;
    [handle] is assigned by a successful open only and is otherwise left as
    it was.  With a vendor:product identifier it makes the one open by
    vendor and product, which receives the two values converted to 16 bits,
    and assigns [handle] what that returns, NULL included. *)
Theorem find_device_outcome (w : World) (s : State) :
  exists s',
    find_device w s = Normal tt s' /\
    if usbvendor s =? -1 then
      match scan_device_list (w_device_list w (calls s))
                             (usbbus s) (usbaddr s) with
      | Some dev =>
          (dev_bus dev = usbbus s /\ dev_addr dev = usbaddr s /\
           exists before after,
             w_device_list w (calls s) = before ++ dev :: after /\
             forall d, In d before ->
                       ~ (dev_bus d = usbbus s /\ dev_addr d = usbaddr s)) /\
          trace s' = trace s
                     ++ [EvGetDeviceList (ctx s);
                         EvOpenDevice dev (fst (w_libusb_open w (S (calls s))));
                         EvFreeDeviceList] /\
          handle s' = (if fst (w_libusb_open w (S (calls s))) =? 0
                       then snd (w_libusb_open w (S (calls s)))
                       else handle s)
      | None =>
          (forall d, In d (w_device_list w (calls s)) ->
                     ~ (dev_bus d = usbbus s /\ dev_addr d = usbaddr s)) /\
          trace s' = trace s ++ [EvGetDeviceList (ctx s); EvFreeDeviceList] /\
          handle s' = handle s
      end
    else
      trace s' = trace s ++ [EvOpenVidPid (usbvendor s mod 65536)
                                          (usbproduct s mod 65536)] /\
      handle s' = w_open_vid_pid w (calls s).
Proof. exact (find_device_run w s). Qed.

(** The vendor 0x12345, which the command line accepts, reaches the open as
    0x2345. *)
Example find_device_truncates_vendor :
  trace (final (find_device two_devices_world
                  (set_usbproduct 1 (set_usbvendor 74565 initial_state))))
  = [EvOpenVidPid 9029 1].
Proof. reflexivity. Qed.

(** * Diagnostics (source lines 65-95) *)

Lemma length_append (a b : string) :
  String.length (String.append a b) = (String.length a + String.length b)%nat.
Proof.
  induction a as [|c a IH]; [reflexivity|].
  change (S (String.length (String.append a b))
          = S (String.length a + String.length b)).
  rewrite IH. reflexivity.
Qed.

Lemma length_string_take n s :
  String.length (string_take n s) = Nat.min n (String.length s).
Proof.
  revert s. induction n as [|n IH]; intros [|c s]; simpl; auto.
Qed.

Lemma string_take_all n s :
  (String.length s <= n)%nat -> string_take n s = s.
Proof.
  revert s. induction n as [|n IH]; intros [|c s] H; simpl in *;
    try reflexivity; try lia.
  rewrite IH by lia. reflexivity.
Qed.

(** X1.  A line of the log never overruns the 512-byte buffer of [va_log]: with
    the prefix it has at most 511 characters, for the terminator to fit; a
    message of up to 495 characters is logged whole, a longer one is cut to
    495. The line is written exactly when its level is at most [verbose]. *)
Theorem va_log_line (level : Z) (formatted : string) (s : State) :
  (String.length (va_log_buf formatted) <= 511)%nat /\
  ((String.length formatted <= 495)%nat ->
   va_log_buf formatted = String.append "usbredirserver: " formatted) /\
  ((495 < String.length formatted)%nat ->
   va_log_buf formatted
   = String.append "usbredirserver: " (string_take 495 formatted) /\
   String.length (va_log_buf formatted) = 511%nat) /\
  (va_log level formatted s = EmptyString <-> verbose s < level) /\
  (level <= verbose s ->
   va_log level formatted s = String.append (va_log_buf formatted) newline).
Proof.
  assert (E : va_log_buf formatted
              = String.append "usbredirserver: " (string_take 495 formatted))
    by reflexivity.
  assert (L : String.length (va_log_buf formatted)
              = (16 + Nat.min 495 (String.length formatted))%nat).
  { rewrite E, length_append, length_string_take. reflexivity. }
  split; [rewrite L; lia|]. split.
  { intros H. rewrite E, string_take_all by exact H. reflexivity. }
  split.
  { intros H. split; [exact E|]. rewrite L. lia. }
  unfold va_log, usbredirserver_log. destruct (Z.leb_spec level (verbose s)).
  - split; [|reflexivity]. split; [|lia]. intros H0. exfalso.
    apply (f_equal String.length) in H0. rewrite length_append in H0.
    simpl in H0. lia.
  - split; [|lia]. split; [intros _; assumption|reflexivity].
Qed.

(** * Failures of [accept] and [fcntl] (source lines 452-469) *)

Lemma no_accept_loop_error_app t1 t2 :
  no_accept_loop_error t1 -> no_accept_loop_error t2 ->
  no_accept_loop_error (t1 ++ t2).
Proof.
  unfold no_accept_loop_error. intros H1 H2.
  rewrite forallb_app, H1, H2. reflexivity.
Qed.

Lemma run_callbacks_no_accept_error w cs :
  preserves (emits (fun e => negb (accept_loop_error e))) (run_callbacks w cs).
Proof. induction cs as [|[] cs IH]; simpl; preserve emits_leaf. Qed.

Lemma run_main_loop_no_accept_error w fuel :
  preserves (emits (fun e => negb (accept_loop_error e)))
            (run_main_loop w fuel).
Proof. pose proof (run_callbacks_no_accept_error w). preserve emits_leaf. Qed.

(** A turn of the accept loop prints one of its error messages only as its
    last call, and then leaves the loop. *)
Lemma accept_body_error w fuel server_fd s :
  exists t, trace (final (accept_body w fuel server_fd s)) = trace s ++ t /\
    (no_accept_loop_error t \/
     exists s' t0 e,
       accept_body w fuel server_fd s = Break s' /\ t = t0 ++ [e] /\
       accept_loop_error e = true /\ no_accept_loop_error t0).
Proof.
  unfold accept_body. run.
  repeat (case_atom; simpl);
    try match goal with
        | |- context [run_main_loop w fuel ?x] =>
            destruct (run_main_loop_no_accept_error w fuel x)
              as (t' & T' & F');
            destruct (run_main_loop w fuel x) as [[] s1|s1|s1|c s1|sg s1|s1];
            simpl in *; rewrite T'; simpl
        end;
    rewrite <- ?app_assoc; simpl;
    (eexists; split; [reflexivity|]);
    first [ left; unfold no_accept_loop_error; simpl;
            rewrite ?forallb_app, ?F'; reflexivity
          | right; eexists _, [_], _; repeat split; reflexivity
          | right; eexists _, [_; _], _; repeat split; reflexivity
          | right; eexists _, [_; _; _], _; repeat split; reflexivity ].
Qed.

Lemma accept_loop_error_ends w fuel server_fd n s :
  exists t,
    trace (final (while n (fun s => truthy (running s))
                    (accept_body w fuel server_fd) s)) = trace s ++ t /\
    (no_accept_loop_error t \/
     exists s' t0 e,
       while n (fun s => truthy (running s))
             (accept_body w fuel server_fd) s = Normal tt s' /\
       t = t0 ++ [e] /\ accept_loop_error e = true /\
       no_accept_loop_error t0).
Proof.
  revert s. induction n as [|n IH]; intros s; simpl.
  - exists []. split; [destruct (truthy (running s)); simpl;
                       symmetry; apply app_nil_r|left; reflexivity].
  - destruct (truthy (running s));
      [|exists []; split; [symmetry; apply app_nil_r|left; reflexivity]].
    destruct (accept_body_error w fuel server_fd s) as (t1 & T1 & H1).
    destruct H1 as [F1|(s' & t0 & e & E & -> & He & F0)].
    + destruct (accept_body w fuel server_fd s) as [[] s1|s1|s1|c s1|sg s1|s1];
        simpl in *; try (exists t1; split; [exact T1|left; exact F1]);
        destruct (IH s1) as (t2 & T2 & H2);
        (exists (t1 ++ t2); split;
         [rewrite T2, T1; symmetry; apply app_assoc|]);
        (destruct H2 as [F2|(s' & t0 & e & E & -> & He & F0)];
         [ left; apply no_accept_loop_error_app; assumption
         | right; exists s', (t1 ++ t0), e; rewrite app_assoc;
           repeat split; auto; apply no_accept_loop_error_app; assumption ]).
    + rewrite E in *. simpl in *. exists (t0 ++ [e]). split; [exact T1|].
      right. exists s', t0, e. auto.
Qed.

(** X11.  When [accept] fails other than by EINTR, or [fcntl] fails on the
    descriptor just accepted, the server prints the error and ends at once, in
    order and with status 0: after the message come the close of the listening
    socket and [libusb_exit], nothing else, and the process exits with 0. *)
Theorem accept_failure_ends_server (w : World) (fuel : nat) (port : Z)
    (s : State) (e : Event) :
  In e (emitted s (serve w fuel port s)) ->
  accept_loop_error e = true ->
  exists s' t server_fd,
    serve w fuel port s = Exit 0 s' /\
    emitted s (serve w fuel port s)
    = t ++ [e; EvCloseServer server_fd; EvLibusbExit (ctx s')].
Proof.
  intros Hin He.
  assert (Hno : forall t, no_accept_loop_error t -> In e t -> False).
  { intros t F Hi. unfold no_accept_loop_error in F.
    rewrite forallb_forall in F. apply F in Hi. rewrite He in Hi.
    discriminate. }
  revert Hin. unfold serve. run. repeat (case_atom; simpl).
  all: try (exfalso; tests_in_context; congruence).
  all: try (unfold emitted; simpl; rewrite <- ?app_assoc, drop_app_length;
            intros Hin; exfalso; refine (Hno _ _ Hin); reflexivity).
  match goal with
  | |- context [while fuel ?c (accept_body w fuel ?fd) ?x] =>
      destruct (accept_loop_error_ends w fuel fd fuel x) as (t & T & H);
      destruct H as [F|(s1 & t0 & e' & E & -> & He' & F0)]
  end.
  - intros Hin. exfalso. revert Hin.
    destruct (while fuel _ _ _) as [[] s1|s1|s1|c s1|sg s1|s1]; simpl in *;
      unfold emitted; simpl; rewrite T; simpl;
      rewrite <- ?app_assoc, drop_app_length; simpl; intros Hin;
      repeat (destruct Hin as [<-|Hin]; [discriminate He|]);
      first [ exact (Hno t F Hin)
            | apply in_app_or in Hin;
              destruct Hin as [Hin|Hin]; [exact (Hno t F Hin)|];
              simpl in Hin;
              repeat (destruct Hin as [<-|Hin]; [discriminate He|]);
              exact Hin ].
  - rewrite E in *. simpl in *. unfold emitted. simpl. rewrite T. simpl.
    rewrite <- ?app_assoc, drop_app_length. simpl. intros Hin.
    assert (e = e') as <-.
    { repeat (destruct Hin as [<-|Hin]; [discriminate He|]).
      apply in_app_or in Hin. destruct Hin as [Hin|Hin];
        [exfalso; exact (Hno t0 F0 Hin)|].
      simpl in Hin. repeat (destruct Hin as [Hin|Hin]; auto);
        try (subst e; discriminate He); contradiction. }
    eexists _, _, _. split; [reflexivity|]. simpl.
    match goal with
    | |- ?a1 :: ?a2 :: ?a3 :: ?a4 :: ?a5 :: ?a6 :: ?a7 :: ?a8 :: ?a9
         :: ?a10 :: t0 ++ _ = _ =>
        instantiate (2 := a1 :: a2 :: a3 :: a4 :: a5 :: a6 :: a7 :: a8
                          :: a9 :: a10 :: t0)
    end.
    simpl. reflexivity.
Qed.

Lemma accept_failure_ends_server_witness :
  exists s' t server_fd,
    serve accept_fails_world 1 4000 initial_state = Exit 0 s' /\
    emitted initial_state (serve accept_fails_world 1 4000 initial_state)
    = t ++ [EvPrint Stderr (MsgPerror "accept"); EvCloseServer server_fd;
            EvLibusbExit (ctx s')].
Proof.
  apply (accept_failure_ends_server accept_fails_world 1 4000 initial_state
           (EvPrint Stderr (MsgPerror "accept"))).
  - vm_compute. auto 20.
  - reflexivity.
Defined.

(** * The libusb context *)

Lemma libusb_use_snoc t e :
  libusb_use (t ++ [e]) = libusb_step (libusb_use t) e.
Proof. unfold libusb_use. rewrite fold_left_app. reflexivity. Qed.

Section InContext.
Context {A B : Type}.

Lemma in_context_ret (a : A) : in_context (ret a).
Proof. intros s H. exact H. Qed.

Lemma in_context_gets (f : State -> A) : in_context (gets f).
Proof. intros s H. exact H. Qed.

Lemma in_context_break : in_context (@break_ A).
Proof. intros s H. exact H. Qed.

Lemma in_context_continue : in_context (@continue_ A).
Proof. intros s H. exact H. Qed.

Lemma in_context_exit c : in_context (@exit A c).
Proof. intros s H. simpl. rewrite H. discriminate. Qed.

Lemma in_context_kill sig : in_context (@kill A sig).
Proof. intros s H. simpl. rewrite H. discriminate. Qed.

Lemma in_context_call w (answer : World -> nat -> A) ev :
  (forall a, libusb_step (Some true) (ev a) = Some true) ->
  in_context (call w answer ev).
Proof.
  intros Hev s H. unfold call, deliver. simpl.
  rewrite libusb_use_snoc, H. apply Hev.
Qed.

Lemma in_context_bind (m : M A) (k : A -> M B) :
  in_context m -> (forall a, in_context (k a)) -> in_context (bind m k).
Proof.
  intros Hm Hk s H. unfold bind. specialize (Hm s H).
  destruct (m s) as [a s1| | | | |]; auto. apply Hk. exact Hm.
Qed.
End InContext.

Lemma in_context_modify f :
  (forall s, trace (f s) = trace s) -> in_context (modify f).
Proof. intros Hf s H. unfold modify. simpl. rewrite Hf. exact H. Qed.

Lemma in_context_when b (m : M unit) : in_context m -> in_context (when b m).
Proof. intros H. destruct b; simpl; [exact H|apply in_context_ret]. Qed.

Lemma in_context_while fuel cond (body : M unit) :
  in_context body -> in_context (while fuel cond body).
Proof.
  intros Hb. induction fuel as [|fuel IH]; intros s H; simpl.
  - destruct (cond s); simpl; [rewrite H; discriminate|exact H].
  - destruct (cond s); [|exact H]. specialize (Hb s H).
    destruct (body s); auto; apply IH; exact Hb.
Qed.

Ltac context_auto :=
  lazymatch goal with
  | |- forall _, _ => intros ?; cbv beta; context_auto
  | |- in_context (bind _ _) => apply in_context_bind; context_auto
  | |- in_context (ret _) => apply in_context_ret
  | |- in_context (gets _) => apply in_context_gets
  | |- in_context break_ => apply in_context_break
  | |- in_context continue_ => apply in_context_continue
  | |- in_context (exit _) => apply in_context_exit
  | |- in_context (kill _) => apply in_context_kill
  | |- in_context (when _ _) => apply in_context_when; context_auto
  | |- in_context (while _ _ _) => apply in_context_while; context_auto
  | |- in_context (call _ _ _) =>
      apply in_context_call; intros; reflexivity
  | |- in_context (modify _) =>
      apply in_context_modify; intros; repeat case_match; reflexivity
  | |- in_context (if ?b then _ else _) => destruct b; context_auto
  | |- in_context (match ?x with _ => _ end) => destruct x; context_auto
  | |- in_context ?m =>
      first [ solve [auto]
            | let h := head m in progress unfold h; context_auto ]
  end.

Lemma run_callbacks_in_context w cs : in_context (run_callbacks w cs).
Proof. induction cs as [|[] cs IH]; simpl; context_auto. Qed.

(** A turn of the retry block ends the context and makes a new one before
    it hands libusb anything, or exits. *)
Lemma retry_prefix_in_context {B} w (k : unit -> M B) :
  (forall u, in_context (k u)) ->
  in_context
    (bind (libusb_exit w) (fun _ =>
     bind (libusb_init w) (fun rc =>
     bind (when (truthy rc) (bind (print w Stderr MsgNoLibusb)
                                  (fun _ => exit 1))) k))).
Proof.
  intros Hk s H. run.
  destruct (w_libusb_init w (S (calls s))) as [rc c] eqn:E. simpl.
  destruct (rc =? 0) eqn:Erc; simpl.
  - apply Z.eqb_eq in Erc. subst rc. simpl.
    apply Hk. simpl. rewrite !libusb_use_snoc, H. reflexivity.
  - unfold truthy. rewrite Erc. simpl.
    rewrite !libusb_use_snoc, H. simpl. rewrite Erc. discriminate.
Qed.

Lemma retry_body_in_context w : in_context (retry_body w).
Proof.
  pose proof (run_callbacks_in_context w).
  unfold retry_body. apply retry_prefix_in_context. context_auto.
Qed.

Lemma accept_body_in_context w fuel server_fd :
  in_context (accept_body w fuel server_fd).
Proof.
  pose proof (run_callbacks_in_context w).
  pose proof (retry_body_in_context w).
  context_auto.
Qed.

Lemma prints_without_context t :
  forallb is_print t = true -> libusb_use t = Some false.
Proof.
  unfold libusb_use. generalize (Some false) at 1 2. intros st.
  revert st. induction t as [|e t IH]; intros st H; simpl in *;
    [reflexivity|].
  apply andb_prop in H. destruct H as [He Ht].
  destruct e; try discriminate He. destruct st as [[]|]; simpl;
    rewrite (IH _ Ht); reflexivity.
Qed.

Lemma serve_context w fuel port s :
  libusb_use (trace s) = Some false ->
  libusb_use (trace (final (serve w fuel port s))) <> None /\
  forall s', serve w fuel port s = Exit 0 s' ->
             libusb_use (trace s') = Some false.
Proof.
  intros H. unfold serve. run. repeat (case_atom; simpl).
  all: try (exfalso; tests_in_context; congruence).
  all: try (rewrite !libusb_use_snoc, H; simpl;
            repeat match goal with
                   | E : (_ =? _) = _ |- _ => rewrite E
                   end;
            split; [discriminate|intros s' [=]]).
  match goal with
  | |- context [while fuel ?c (accept_body w fuel ?fd) ?x] =>
      pose proof (returns_or_exits_while w (fun z => z = 1) fuel c _
                    (accept_body_exits w fuel fd) x) as Hx;
      pose proof (in_context_while fuel c _
                    (accept_body_in_context w fuel fd) x) as Hc;
      destruct (while fuel c (accept_body w fuel fd) x)
        as [[] s1|s1|s1|c1 s1|sg s1|s1]
  end; simpl in *; try contradiction;
    (match type of Hc with
     | ?P -> _ =>
         assert (Hp : P)
           by (rewrite !libusb_use_snoc, H; simpl;
               repeat match goal with
                      | E : (_ =? _) = _ |- _ => rewrite E
                      end; reflexivity);
         specialize (Hc Hp)
     end).
  - rewrite !libusb_use_snoc, Hc. simpl. split; [discriminate|].
    intros s' [= <-]. simpl. rewrite !libusb_use_snoc, Hc. reflexivity.
  - split; [exact Hc|]. intros s' [= -> _]. discriminate Hx.
  - split; [exact Hc|]. intros s' [=].
  - split; [exact Hc|]. intros s' [=].
Qed.

(** The reading of a trace is not trivial: a second [libusb_init], a
    second [libusb_exit] and a call on a context that is not there are
    found. *)
Example libusb_use_finds_misuse :
  libusb_use [EvLibusbInit 0; EvLibusbInit 0] = None /\
  libusb_use [EvLibusbInit 0; EvLibusbExit 100; EvLibusbExit 100] = None /\
  libusb_use [EvLibusbInit 1; EvGetPollfds 100] = None /\
  libusb_use [EvLibusbInit 0; EvGetPollfds 100; EvLibusbExit 100]
  = Some false.
Proof. repeat split. Qed.

(** X19.  libusb is used in order throughout a run of [main]: [libusb_init] is
    called only when no context is live, [libusb_exit] and every call that is
    handed the context only when one is; and a run that ends with status 0
    leaves no context behind. *)
Theorem libusb_context_discipline (w : World) (fuel : nat) (argv0 : string)
    (opts : list (ascii * string)) (args : list string) :
  libusb_use (trace (final (main w fuel argv0 opts args initial_state)))
  <> None /\
  forall s', main w fuel argv0 opts args initial_state = Exit 0 s' ->
             libusb_use (trace s') = Some false.
Proof.
  pose proof (command_line_outcome w fuel argv0 opts args initial_state)
    as Ho.
  destruct (command_line_accepted opts args).
  - destruct Ho as (port & s1 & E & T). unfold main, bind. rewrite E.
    apply serve_context. rewrite T. reflexivity.
  - destruct Ho as (c & s1 & t & stream & E & T & F & _). rewrite E.
    simpl in *.
    assert (Hu : libusb_use (trace s1) = Some false).
    { rewrite T. apply prints_without_context.
      rewrite forallb_app, F. reflexivity. }
    split; [rewrite Hu; discriminate|]. intros s' [= _ <-]. exact Hu.
Qed.
(** * A turn of the retry block (source lines 288-314) *)

Lemma run_callbacks_ctx w cs : preserves (keeps ctx) (run_callbacks w cs).
Proof. induction cs as [|[] cs IH]; simpl; preserve keeps_leaf. Qed.

Lemma run_callbacks_binding w cs : preserves binding_kept (run_callbacks w cs).
Proof. induction cs as [|[] cs IH]; simpl; preserve binding_leaf. Qed.

(** X7.  A turn of the retry block ends in one of four ways.  [libusb_init]
    fails: the message is printed and the process exits with status 1.  No
    device handle is in place after [find_device]: the turn ends with a
    [sleep] that is given [wait_timeout] converted to [unsigned], the
    redirection host and the channel being as they were.  A device handle is
    in place: the capabilities of the old instance are saved, an instance is
    opened on the handle with the no-hello flag, the capabilities saved are
    restored to it and the outbound pump is run, in this order, and the loop
    is left; what [usbredirhost_open] returned becomes [host] without being
    tested.  Or the process dies of SIGPIPE in a [write] of that last
    pump. *)
Theorem retry_turn (w : World) (s : State) :
  match retry_body w s with
  | Normal _ s' =>
      handle s' = 0 /\ host s' = host s /\ client_fd s' = client_fd s /\
      exists t,
        trace s' = trace s
                   ++ [EvLibusbExit (ctx s); EvLibusbInit 0;
                       EvSetDebug (ctx s') (verbose s)]
                   ++ t ++ [EvSleep (wait_timeout s mod 4294967296)]
  | Break s' =>
      handle s' <> 0 /\
      (exists k, host s' = w_host_open w k) /\
      exists t cbs,
        trace s' = trace s
                   ++ [EvLibusbExit (ctx s); EvLibusbInit 0;
                       EvSetDebug (ctx s') (verbose s)]
                   ++ t
                   ++ [EvSaveCaps (host s);
                       EvHostOpen (handle s') usbredirparser_fl_no_hello
                                  (host s');
                       EvRestoreCaps (host s') (capability_snapshot s);
                       EvPumpOut (host s')]
                   ++ cbs
  | Killed sig s' =>
      sig = SIGPIPE /\ w_sigpipe_fatal w = true /\
      handle s' <> 0 /\
      exists t cbs,
        trace s' = trace s
                   ++ [EvLibusbExit (ctx s); EvLibusbInit 0;
                       EvSetDebug (ctx s') (verbose s)]
                   ++ t
                   ++ [EvSaveCaps (host s);
                       EvHostOpen (handle s') usbredirparser_fl_no_hello
                                  (host s');
                       EvRestoreCaps (host s') (capability_snapshot s);
                       EvPumpOut (host s')]
                   ++ cbs
  | Exit c s' =>
      c = 1 /\
      exists rc, rc <> 0 /\
        trace s' = trace s ++ [EvLibusbExit (ctx s); EvLibusbInit rc;
                               EvPrint Stderr MsgNoLibusb]
  | Continue _ | Fuel _ => False
  end.
Proof.
  unfold capability_snapshot, to_unsigned. run.
  repeat (first
    [ rewrite lookup_insert_eq
    | case_atom
    | match goal with
      | |- context [run_callbacks w ?cs ?x] =>
          let s1 := fresh "s1" in let E := fresh "E" in
          destruct (run_callbacks_grows w cs x) as (cbs & Tcb);
          pose proof (run_callbacks_ctx w cs x) as Kc;
          destruct (run_callbacks_binding w cs x) as (Kh & Kho & _);
          destruct (run_callbacks_spec w cs x)
            as [(s1 & E & _)|(s1 & E & Fatal)];
          rewrite E in *
      end ]; simpl in *);
    tests_in_context; subst; try congruence;
    first
      [ split; [reflexivity|]; eexists; (split; [eassumption|]);
        rewrite <- !app_assoc; reflexivity
      | repeat split; auto; rewrite <- !app_assoc; simpl;
        first [ eexists [_]; reflexivity
              | eexists [_; _]; reflexivity
              | eexists [_; _; _]; reflexivity ]
      | unfold keeps in Kc; simpl in Kc;
        try (match goal with H : handle _ = _ |- _ => rewrite H end);
        rewrite Kho, Kc, Tcb;
        (split; [assumption|]); (split; [eexists; reflexivity|]);
        rewrite <- !app_assoc; simpl;
        first [ eexists [_], _; reflexivity
              | eexists [_; _], _; reflexivity
              | eexists [_; _; _], _; reflexivity ]
      | unfold keeps in Kc; simpl in Kc;
        try (match goal with H : handle _ = _ |- _ => rewrite H end);
        rewrite Kho, Kc, Tcb;
        (split; [reflexivity|]); (split; [assumption|]);
        (split; [assumption|]);
        rewrite <- !app_assoc; simpl;
        first [ eexists [_], _; reflexivity
              | eexists [_; _], _; reflexivity
              | eexists [_; _; _], _; reflexivity ] ].
Qed.

(** The capabilities restored are the ones saved: a session whose old
    instance had the capabilities [7] restores [7] to the new one. *)
Example retry_turn_restores_saved :
  In (EvRestoreCaps 301 [7])
     (trace (final (retry_loop replug_world 5 (session_state 1)))).
Proof. vm_compute. tauto. Qed.
